(** * Ready2Learn: generation pipeline, progression, playback and storage

    A shallow embedding of the parts of the application that carry logic:

    - [services/geminiService.ts]: [writeString], [cleanBase64],
      [withRetry], [pcmToWav], [analyzePdfStructure],
      [generateLessonContent], [generateLessonImage], [generateLessonAudio],
      [generateQuiz];
    - [App.tsx]: [handleFileUpload], [handleQuizFinish],
      [calculateProgress], the feedback handlers, [handleLogin],
      [handleLogout], [handleReset] and the effects that load and save the
      state of a user;
    - [components/QuizView.tsx]: the quiz state and its pass signal;
    - [components/LessonPlayer.tsx]: [transcriptData], [currentWordIndex],
      [handleTimeUpdate], [handleSeek], [formatTime] and the classes of the
      words of the transcript view;
    - [components/CourseOutline.tsx]: [filteredChapters];
    - [components/FeedbackModal.tsx]: the rating form;
    - [components/LoginScreen.tsx]: [handleCreateUser], [handleDeleteUser].

    Conventions.  JavaScript strings are Rocq strings (code units below 256).
    Integral JavaScript numbers are [Z] (or [nat] for counters and indices
    that only count up from zero).  Where the source computes with
    fractions, the module [Double] gives the numbers of the program: the
    rationals that a binary64 number can hold, the two infinities and NaN,
    with every quotient, product and difference rounded to the nearest,
    ties to even.  The stored progress, the highlighted word, the playback
    handlers of [Playback] and the percentage of [ProgressNumber] are
    computed on these numbers.  [Player] and [Progress.calculateProgress]
    read the same source lines with exact rationals [Q]; of the handlers
    and the percentage in this reading only facts of order and range are
    stated, and the clock of [formatTime] is stated for times below 2^53.
    Thrown values are objects
    with an optional string [message] and an optional numeric [status].
    [localStorage] is a finite map from keys to strings. *)

From Stdlib Require Import ZArith QArith Qround Qpower Qreduction.
From Stdlib Require Import String Ascii List Lia Lqa Bool.
From Stdlib Require Qcanon.
From Stdlib.Strings Require Import Byte.
From stdpp Require Import base list strings pretty gmap.

Local Open Scope string_scope.
Local Open Scope list_scope.
Local Open Scope Z_scope.

(* ================================================================== *)
(** * Bytes, [ArrayBuffer] and [DataView]                              *)
(* ================================================================== *)

Module Buffer.

(** [ToUint8]: the low eight bits of an integral number. *)
Definition u8 (z : Z) : byte :=
  match Byte.of_N (Z.to_N (z mod 256)) with
  | Some b => b
  | None => x00
  end.

Definition byte_val (b : byte) : Z := Z.of_N (Byte.to_N b).

(** [new ArrayBuffer(n)]: zero-filled. *)
Definition ArrayBuffer (n : nat) : list byte := replicate n x00.

(** [view.setUint8(offset, value)]; [None] is the [RangeError] of a write
    outside the buffer. *)
Definition setUint8 (offset : nat) (value : Z) (buf : list byte)
  : option (list byte) :=
  if (offset <? length buf)%nat then Some (<[offset := u8 value]> buf)
  else None.

(** [view.setUint16(offset, value, true)]: [ToUint16], low byte first. *)
Definition setUint16 (offset : nat) (value : Z) (buf : list byte)
  : option (list byte) :=
  let w := value mod 2 ^ 16 in
  if (offset + 2 <=? length buf)%nat then
    Some (<[offset + 1 := u8 (Z.shiftr w 8)]> (<[offset := u8 w]> buf))%nat
  else None.

(** [view.setUint32(offset, value, true)]: [ToUint32], low byte first. *)
Definition setUint32 (offset : nat) (value : Z) (buf : list byte)
  : option (list byte) :=
  let w := value mod 2 ^ 32 in
  if (offset + 4 <=? length buf)%nat then
    Some (<[offset + 3 := u8 (Z.shiftr w 24)]>
         (<[offset + 2 := u8 (Z.shiftr w 16)]>
         (<[offset + 1 := u8 (Z.shiftr w 8)]>
         (<[offset := u8 w]> buf))))%nat
  else None.

(** [string.charCodeAt(i)] for every [i], in order. *)
Definition charCodes (s : string) : list Z :=
  map (fun c => Z.of_N (N_of_ascii c)) (list_ascii_of_string s).

(** [writeString(view, offset, string)]: one [setUint8] per character. *)
Fixpoint writeCodes (offset : nat) (codes : list Z) (buf : list byte)
  : option (list byte) :=
  match codes with
  | [] => Some buf
  | c :: rest =>
      match setUint8 offset c buf with
      | Some buf' => writeCodes (S offset) rest buf'
      | None => None
      end
  end.

Definition writeString (offset : nat) (s : string) (buf : list byte)
  : option (list byte) :=
  writeCodes offset (charCodes s) buf.

(** [new Uint8Array(buffer, offset).set(src)]: copies [src] to the start of
    the view; [None] is the [RangeError] of a source longer than the view. *)
Definition setFrom (offset : nat) (src : list byte) (buf : list byte)
  : option (list byte) :=
  if ((offset <=? length buf) && (length src <=? length buf - offset))%nat
  then Some (take offset buf ++ src ++ drop (offset + length src) buf)
  else None.

(** Little-endian reads, as [getUint16]/[getUint32] with
    [littleEndian = true]. *)
Definition getUint8 (offset : nat) (buf : list byte) : option Z :=
  byte_val <$> buf !! offset.

Definition getUint16 (offset : nat) (buf : list byte) : option Z :=
  match buf !! offset, buf !! (offset + 1)%nat with
  | Some b0, Some b1 => Some (byte_val b0 + 2 ^ 8 * byte_val b1)
  | _, _ => None
  end.

Definition getUint32 (offset : nat) (buf : list byte) : option Z :=
  match buf !! offset, buf !! (offset + 1)%nat,
        buf !! (offset + 2)%nat, buf !! (offset + 3)%nat with
  | Some b0, Some b1, Some b2, Some b3 =>
      Some (byte_val b0 + 2 ^ 8 * byte_val b1
            + 2 ^ 16 * byte_val b2 + 2 ^ 24 * byte_val b3)
  | _, _, _, _ => None
  end.

End Buffer.

(* ================================================================== *)
(** * [pcmToWav]                                                       *)
(* ================================================================== *)

Module Wav.
Import Buffer.

Definition numChannels : Z := 1.
Definition bitsPerSample : Z := 16.

(** The header writes of [pcmToWav], in source order, on a buffer. *)
Definition writeHeader (sampleRate dataSize : Z) (buffer : list byte)
  : option (list byte) :=
  let byteRate := (sampleRate * numChannels * bitsPerSample) / 8 in
  let blockAlign := (numChannels * bitsPerSample) / 8 in
  b ← writeString 0 "RIFF" buffer;
  b ← setUint32 4 (36 + dataSize) b;
  b ← writeString 8 "WAVE" b;
  b ← writeString 12 "fmt " b;
  b ← setUint32 16 16 b;
  b ← setUint16 20 1 b;
  b ← setUint16 22 numChannels b;
  b ← setUint32 24 sampleRate b;
  b ← setUint32 28 byteRate b;
  b ← setUint16 32 blockAlign b;
  b ← setUint16 34 bitsPerSample b;
  b ← writeString 36 "data" b;
  setUint32 40 dataSize b.

(** [pcmToWav(pcmData, sampleRate)]; the result is the content of the
    [Blob], [None] stands for an exception. *)
Definition pcmToWav (pcmData : list byte) (sampleRate : Z)
  : option (list byte) :=
  let dataSize := Z.of_nat (length pcmData) in
  let buffer := ArrayBuffer (44 + length pcmData) in
  b ← writeHeader sampleRate dataSize buffer;
  setFrom 44 pcmData b.

(** Default argument [sampleRate = 24000]. *)
Definition pcmToWav_default (pcmData : list byte) : option (list byte) :=
  pcmToWav pcmData 24000.

(** A reader for the canonical 44-byte RIFF/WAVE layout (the format's
    side of the round trip; the repository only writes containers).  It
    checks the four tags and the PCM format fields and returns the
    declared sample rate with the declared number of data bytes. *)
Definition tagAt (offset : nat) (s : string) (buf : list byte) : bool :=
  bool_decide (map byte_val (take (String.length s) (drop offset buf))
               = charCodes s).

Definition decodeWav (buf : list byte) : option (list byte * Z) :=
  if tagAt 0 "RIFF" buf && tagAt 8 "WAVE" buf
     && tagAt 12 "fmt " buf && tagAt 36 "data" buf then
    fmt ← getUint16 20 buf;
    rate ← getUint32 24 buf;
    size ← getUint32 40 buf;
    if (fmt =? 1) && (size <=? Z.of_nat (length buf) - 44)
    then Some (take (Z.to_nat size) (drop 44 buf), rate)
    else None
  else None.

End Wav.

(* ================================================================== *)
(** * JavaScript strings and thrown values                             *)
(* ================================================================== *)

Module Js.

(** [hay.includes(needle)]. *)
Fixpoint includes (needle hay : string) : bool :=
  String.prefix needle hay
  || match hay with
     | EmptyString => false
     | String _ rest => includes needle rest
     end.

(** The class [\s] of regular expressions, which is also what [trim]
    strips, on code units below 256: TAB, LF, VT, FF, CR, SPACE, NBSP. *)
Definition isSpace (c : ascii) : bool :=
  let n := N_of_ascii c in
  ((9 <=? n) && (n <=? 13) || (n =? 32) || (n =? 160))%N.

Definition ofChars (cs : list ascii) : string := string_of_list_ascii cs.
Definition chars (s : string) : list ascii := list_ascii_of_string s.

(** Truthiness of a possibly missing string: [undefined] and [''] are
    falsy. *)
Definition truthy (s : option string) : bool :=
  match s with
  | Some EmptyString | None => false
  | Some _ => true
  end.


(** A thrown value: [error.message] and [error.status]. *)
Record Error := { message : option string; status : option Z }.

(** [new Error(msg)]. *)
Definition newError (msg : string) : Error :=
  {| message := Some msg; status := None |}.

(** [error.message?.includes(needle)], as a condition. *)
Definition messageIncludes (needle : string) (e : Error) : bool :=
  match message e with
  | Some m => includes needle m
  | None => false
  end.

(** [error.status === code]. *)
Definition statusIs (code : Z) (e : Error) : bool :=
  match status e with
  | Some s => s =? code
  | None => false
  end.

End Js.

(* ================================================================== *)
(** * JavaScript numbers                                               *)
(* ================================================================== *)

(** Where the result of a division or product is stored or floored, the
    rounding of binary64 arithmetic shows.  A number is a finite binary64
    value (kept as a reduced fraction), an infinity or NaN; the sign of
    zero is not kept.  [round] is rounding to nearest, ties to even, with
    53 bits of precision, gradual underflow below 2^-1022 and overflow to
    infinity from 2^1024 - 2^970 on. *)

Module Double.

Inductive Number := Finite (q : Q) | PosInfinity | NegInfinity | NaN.

(** [floor (log2 x)] for a positive [x]. *)
Definition ilog2 (x : Q) : Z :=
  let k := Z.log2 (Qnum x) - Z.log2 (Zpos (Qden x)) in
  if Qle_bool (2 ^ k) x then k else k - 1.

(** The nearest integer, the even one of two that are equally near. *)
Definition roundHalfEven (y : Q) : Z :=
  let f := Qfloor y in
  match (y - inject_Z f ?= 1 # 2)%Q with
  | Lt => f
  | Gt => f + 1
  | Eq => if Z.even f then f else f + 1
  end.

(** The exponent of the last place of a positive [x]: 52 places below its
    leading bit, and never below -1074. *)
Definition exponent (x : Q) : Z := Z.max (ilog2 x - 52) (-1074).

(** The nearest multiple of the last place, for a positive [x]. *)
Definition nearest (x : Q) : Q :=
  let e := exponent x in
  (inject_Z (roundHalfEven (x / 2 ^ e)) * 2 ^ e)%Q.

Definition roundPositive (x : Q) : Number :=
  let v := nearest x in
  if Qle_bool (2 ^ 1024) v then PosInfinity else Finite (Qred v).

Definition neg (a : Number) : Number :=
  match a with
  | Finite q => Finite (Qred (- q))
  | PosInfinity => NegInfinity
  | NegInfinity => PosInfinity
  | NaN => NaN
  end.

(** The number that stands for the exact value [x]. *)
Definition round (x : Q) : Number :=
  let r := Qred x in
  match Qnum r with
  | Z0 => Finite 0
  | Zpos _ => roundPositive r
  | Zneg _ => neg (roundPositive (- r))
  end.

(** [a <= b], [a < b] and [a === b] on numbers: false as soon as one
    side is NaN. *)
Definition leq (a b : Number) : bool :=
  match a, b with
  | NaN, _ | _, NaN => false
  | NegInfinity, _ | _, PosInfinity => true
  | Finite x, Finite y => Qle_bool x y
  | _, _ => false
  end.

Definition lt (a b : Number) : bool :=
  match a, b with
  | NaN, _ | _, NaN => false
  | Finite x, Finite y => negb (Qle_bool y x)
  | NegInfinity, NegInfinity | PosInfinity, _ | _, NegInfinity => false
  | _, _ => true
  end.

Definition eqb (a b : Number) : bool :=
  match a, b with
  | Finite x, Finite y => Qeq_bool x y
  | PosInfinity, PosInfinity | NegInfinity, NegInfinity => true
  | _, _ => false
  end.

(** The infinity with the sign of [x * y], for [x] and [y] not zero. *)
Definition infinity (negative : bool) : Number :=
  if negative then NegInfinity else PosInfinity.

Definition negative (a : Number) : bool :=
  match a with
  | Finite x => negb (Qle_bool 0 x)
  | NegInfinity => true
  | _ => false
  end.

Definition isZero (a : Number) : bool :=
  match a with Finite x => Qeq_bool x 0 | _ => false end.

(** [a / b].  A zero divisor counts as [+0]. *)
Definition div (a b : Number) : Number :=
  match a, b with
  | NaN, _ | _, NaN => NaN
  | Finite x, Finite y =>
      if Qeq_bool y 0 then
        if Qeq_bool x 0 then NaN else infinity (negative a)
      else round (x / y)
  | Finite _, _ => Finite 0
  | _, Finite _ => infinity (xorb (negative a) (negative b))
  | _, _ => NaN
  end.

(** [a * b]. *)
Definition mul (a b : Number) : Number :=
  match a, b with
  | NaN, _ | _, NaN => NaN
  | Finite x, Finite y => round (x * y)
  | _, _ =>
      if isZero a || isZero b then NaN
      else infinity (xorb (negative a) (negative b))
  end.

(** [Math.floor(a)]. *)
Definition floor (a : Number) : Number :=
  match a with
  | Finite x => Finite (inject_Z (Qfloor x))
  | _ => a
  end.

(** The number that an integer literal or counter denotes. *)
Definition ofZ (z : Z) : Number := round (inject_Z z).
Definition ofNat (n : nat) : Number := ofZ (Z.of_nat n).

(** [a - b]. *)
Definition sub (a b : Number) : Number :=
  match a, b with
  | NaN, _ | _, NaN => NaN
  | Finite x, Finite y => round (x - y)
  | Finite _, _ => neg b
  | PosInfinity, PosInfinity | NegInfinity, NegInfinity => NaN
  | _, _ => a
  end.

Definition isNaN (a : Number) : bool :=
  match a with NaN => true | _ => false end.

Definition isFinite (a : Number) : bool :=
  match a with Finite _ => true | _ => false end.

(** [Math.max(a, b)] and [Math.min(a, b)]: NaN as soon as one argument
    is NaN. *)
Definition Math_max (a b : Number) : Number :=
  if isNaN a || isNaN b then NaN else if leq a b then b else a.

Definition Math_min (a b : Number) : Number :=
  if isNaN a || isNaN b then NaN else if leq a b then a else b.

End Double.

(* ================================================================== *)
(** * Asynchronous computations                                        *)
(* ================================================================== *)

(** An [async] function is a computation over a world made of the state
    of the external service and the list of timer delays awaited so far; it
    ends in a rejection ([inl]) or a value ([inr]). *)

Module Async.

Record World (S : Type) := { ext : S; slept : list Z }.
Arguments ext {S} _.
Arguments slept {S} _.

Definition Async (S A : Type) : Type :=
  World S -> (Js.Error + A) * World S.

Section Monad.
Context {S : Type}.

Definition ret {A} (a : A) : Async S A := fun w => (inr a, w).

Definition throw {A} (e : Js.Error) : Async S A := fun w => (inl e, w).

Definition bind {A B} (m : Async S A) (k : A -> Async S B) : Async S B :=
  fun w =>
    match m w with
    | (inr a, w') => k a w'
    | (inl e, w') => (inl e, w')
    end.

(** [try { m } catch (error) { handler }]. *)
Definition tryCatch {A} (m : Async S A) (handler : Js.Error -> Async S A)
  : Async S A :=
  fun w =>
    match m w with
    | (inr a, w') => (inr a, w')
    | (inl e, w') => handler e w'
    end.

(** [await new Promise(resolve => setTimeout(resolve, delay))]. *)
Definition sleep (delay : Z) : Async S unit :=
  fun w => (inr tt, {| ext := ext w; slept := slept w ++ [delay] |}).

(** A call that only touches the external service. *)
Definition extern {A} (call : S -> (Js.Error + A) * S) : Async S A :=
  fun w =>
    let '(r, s') := call (ext w) in
    (r, {| ext := s'; slept := slept w |}).

(** A synchronous step that may throw. *)
Definition liftEither {A} (r : Js.Error + A) : Async S A :=
  fun w => (r, w).

End Monad.

Module Notations.
Notation "'await' x ':=' m 'in' k" := (bind m (fun x => k))
  (at level 10, x name, m at level 100, k at level 200, only parsing).
End Notations.

End Async.

(* ================================================================== *)
(** * [withRetry]                                                      *)
(* ================================================================== *)

Module Retry.
Import Async Async.Notations.

Definition isNetworkError (error : Js.Error) : bool :=
  Js.messageIncludes "xhr" error
  || Js.messageIncludes "fetch" error
  || Js.messageIncludes "NetworkError" error.

Definition isServerError (error : Js.Error) : bool :=
  Js.statusIs 503 error || Js.statusIs 500 error.

(** [withRetry(operation, retries, delay)]; [retries] counts down to 0. *)
Fixpoint withRetry {S T} (operation : Async S T) (retries : nat) (delay : Z)
  : Async S T :=
  tryCatch operation (fun error =>
    match retries with
    | Datatypes.S retries' =>
        if isNetworkError error || isServerError error then
          await _ := sleep delay in
          withRetry operation retries' (delay * 2)
        else throw error
    | O => throw error
    end).

(** Default arguments [retries = 2], [delay = 1000]. *)
Definition withRetry_default {S T} (operation : Async S T) : Async S T :=
  withRetry operation 2 1000.

End Retry.

(* ================================================================== *)
(** * The course tree ([types.ts])                                     *)
(* ================================================================== *)

Module Course.

Record Topic := {
  id : string;
  title : string;
  description : string;
  isCompleted : bool;
  isLocked : bool
}.

Record Chapter := {
  ch_id : string;
  ch_title : string;
  topics : list Topic
}.

Record CourseStructure := {
  cs_title : string;
  summary : string;
  chapters : list Chapter
}.

(** [chapters.flatMap(ch => ch.topics)]: the flattened order. *)
Definition allTopicsOf (chs : list Chapter) : list Topic :=
  flat_map topics chs.

Definition allTopics (cs : CourseStructure) : list Topic :=
  allTopicsOf (chapters cs).

(** [{ ...t, isCompleted: true }] and [{ ...t, isLocked: false }]. *)
Definition complete (t : Topic) : Topic :=
  {| id := id t; title := title t; description := description t;
     isCompleted := true; isLocked := isLocked t |}.

Definition unlock (t : Topic) : Topic :=
  {| id := id t; title := title t; description := description t;
     isCompleted := isCompleted t; isLocked := false |}.

End Course.

(* ================================================================== *)
(** * The generative service and the pipeline operations               *)
(* ================================================================== *)

Module Service.
Import Async Async.Notations Course.

(** What [ai.models.generateContent] is asked: the document with the
    structure instruction, or an image prompt. *)
Inductive Request :=
| AnalyzeRequest (data : string)
| ImageRequest (prompt : string).

(** The fields of a response that the pipeline reads. *)
Record InlineData := { mimeType : option string; data : option string }.
Record Part := { inlineData : option InlineData }.
Record Content := { parts : option (list Part) }.
Record Candidate := { content : option Content }.
Record Response := {
  text : option string;
  candidates : option (list Candidate)
}.

(** The object the structure request's schema describes:
    [{ title, summary, chapters: [{ title, topics: [{ title, description }] }] }]. *)
Record RawTopic := { raw_title : string; raw_description : string }.
Record RawChapter := { rawch_title : string; rawch_topics : list RawTopic }.
Record RawCourse := {
  raw_cs_title : string;
  raw_summary : string;
  raw_chapters : list RawChapter
}.

(** [cleanBase64]: [str.replace(/[\r\n\s]/g, '')]. *)
Definition cleanBase64 (str : string) : string :=
  Js.ofChars (filter (fun c => negb (Js.isSpace c)) (Js.chars str)).

(** [ch.topics.map((t, tIdx) => ...)] of chapter [cIdx]; the shared
    [topicCounter] goes in and comes out. *)
Fixpoint mapTopics (cIdx tIdx topicCounter : nat) (ts : list RawTopic)
  : list Topic * nat :=
  match ts with
  | [] => ([], topicCounter)
  | t :: rest =>
      let isFirst := ((cIdx =? 0) && (tIdx =? 0))%nat in
      let topic :=
        {| id := "topic-" +:+ pretty topicCounter;
           title := raw_title t;
           description := raw_description t;
           isCompleted := false;
           isLocked := negb isFirst |} in
      let '(rest', counter') :=
        mapTopics cIdx (S tIdx) (S topicCounter) rest in
      (topic :: rest', counter')
  end.

(** [rawData.chapters.map((ch, cIdx) => ...)]. *)
Fixpoint mapChapters (cIdx topicCounter : nat) (chs : list RawChapter)
  : list Chapter :=
  match chs with
  | [] => []
  | ch :: rest =>
      let '(ts, counter') := mapTopics cIdx 0 topicCounter (rawch_topics ch) in
      {| ch_id := "ch-" +:+ pretty cIdx;
         ch_title := rawch_title ch;
         topics := ts |}
      :: mapChapters (S cIdx) counter' rest
  end.

(** "Parse JSON and add IDs": [structuredData] from [rawData]. *)
Definition addIds (rawData : RawCourse) : CourseStructure :=
  {| cs_title := raw_cs_title rawData;
     summary := raw_summary rawData;
     chapters := mapChapters 0 0 (raw_chapters rawData) |}.

Definition unreadableMessage : string :=
  "The PDF appears to be empty, encrypted, or corrupted. Please try a different file.".

Definition tooLargeMessage : string :=
  "The PDF file is too large for the browser to process directly. Please try a smaller PDF (under 4MB) or compress it.".




Section Pipeline.
(** The service is outside the repository: its state, the outcome of
    a call, and [JSON.parse] restricted to texts of the schema's shape
    (any other text makes the parsing step throw).  Building the client
    object ([getAiClient]) calls no service and is left out, as are the
    console messages. *)
Context {S : Type}.
Variable generateContent : Request -> S -> (Js.Error + Response) * S.
Variable JSON_parse : string -> Js.Error + RawCourse.

(** The closure that [analyzePdfStructure] hands to [withRetry]. *)
Definition analyzeOperation (base64Pdf : string)
  : Async S CourseStructure :=
  tryCatch
    (await response :=
       extern (generateContent (AnalyzeRequest (cleanBase64 base64Pdf))) in
     if negb (Js.truthy (text response)) then
       throw (Js.newError "Failed to generate course structure")
     else
       await rawData := liftEither (JSON_parse (default "" (text response))) in
       ret (addIds rawData))
    (fun error =>
       if Js.messageIncludes "document has no pages" error
          || Js.statusIs 400 error then
         throw (Js.newError unreadableMessage)
       else if Js.messageIncludes "xhr" error
               || Js.messageIncludes "Rpc failed" error
               || Js.statusIs 500 error then
         throw (Js.newError tooLargeMessage)
       else throw error).

Definition analyzePdfStructure (base64Pdf : string)
  : Async S CourseStructure :=
  Retry.withRetry_default (analyzeOperation base64Pdf).


End Pipeline.

End Service.

(* ================================================================== *)
(** * [App.tsx]: the progression update                                *)
(* ================================================================== *)

Module App.
Import Course.

Inductive AppState := UPLOAD | ANALYZING | DASHBOARD | LESSON | QUIZ.

(** The part of the component state that [handleQuizFinish] reads and
    sets. *)
Record State := {
  courseStructure : option CourseStructure;
  currentTopic : option Topic;
  appState : AppState
}.

(** [array.findIndex(p)]: the first index whose element satisfies [p],
    or [-1]. *)
Fixpoint findIndexFrom {A} (p : A -> bool) (i : Z) (l : list A) : Z :=
  match l with
  | [] => -1
  | x :: rest => if p x then i else findIndexFrom p (i + 1) rest
  end.

Definition findIndex {A} (p : A -> bool) (l : list A) : Z :=
  findIndexFrom p 0 l.

(** [array[i]] for an integral [i]: [undefined] outside the array. *)
Definition at_ {A} (l : list A) (i : Z) : option A :=
  if i <? 0 then None else l !! Z.to_nat i.

(** The callback of the inner [map]. *)
Definition updateTopic (currentTopic : Topic) (nextTopic : option Topic)
  (t : Topic) : Topic :=
  if String.eqb (id t) (id currentTopic) then complete t
  else
    match nextTopic with
    | Some next => if String.eqb (id t) (id next) then unlock t else t
    | None => t
    end.

Definition handleQuizFinish (passed : bool) (st : State) : State :=
  match courseStructure st, currentTopic st with
  | Some cs, Some cur =>
      if passed then
        let allTopics := flat_map topics (chapters cs) in
        let currentIdx :=
          findIndex (fun t => String.eqb (id t) (id cur)) allTopics in
        let nextTopic := at_ allTopics (currentIdx + 1) in
        let newChapters :=
          map (fun ch =>
                 {| ch_id := ch_id ch;
                    ch_title := ch_title ch;
                    topics := map (updateTopic cur nextTopic) (topics ch) |})
              (chapters cs) in
        let updatedStructure :=
          {| cs_title := cs_title cs;
             summary := summary cs;
             chapters := newChapters |} in
        {| courseStructure := Some updatedStructure;
           currentTopic := currentTopic st;
           appState := DASHBOARD |}
      else
        {| courseStructure := courseStructure st;
           currentTopic := currentTopic st;
           appState := LESSON |}
  | _, _ => st
  end.

End App.

(* ================================================================== *)
(** * [QuizView.tsx]: the quiz state and the pass signal               *)
(* ================================================================== *)

Module QuizView.

Record QuizQuestion := {
  q_id : Z;
  question : string;
  options : list string;
  correctOptionIndex : Z;
  explanation : string
}.

(** The [useState] cells of the component. *)
Record State := {
  currentIndex : nat;
  selectedOption : option Z;
  isAnswered : bool;
  score : nat;
  showResult : bool
}.

Definition initial : State :=
  {| currentIndex := 0; selectedOption := None; isAnswered := false;
     score := 0; showResult := false |}.

(** [handleOptionClick(idx)]; [None] is the [TypeError] of reading
    [correctOptionIndex] from a missing [currentQuestion]. *)
Definition handleOptionClick (questions : list QuizQuestion) (idx : Z)
  (st : State) : option State :=
  if isAnswered st then Some st
  else
    match questions !! currentIndex st with
    | Some currentQuestion =>
        Some {| currentIndex := currentIndex st;
                selectedOption := Some idx;
                isAnswered := true;
                score := if idx =? correctOptionIndex currentQuestion
                         then S (score st) else score st;
                showResult := showResult st |}
    | None => None
    end.

Definition handleNext (questions : list QuizQuestion) (st : State) : State :=
  if Z.of_nat (currentIndex st) <? Z.of_nat (length questions) - 1 then
    {| currentIndex := S (currentIndex st);
       selectedOption := None;
       isAnswered := false;
       score := score st;
       showResult := showResult st |}
  else
    {| currentIndex := currentIndex st;
       selectedOption := selectedOption st;
       isAnswered := isAnswered st;
       score := score st;
       showResult := true |}.

(** [Math.ceil(questions.length * 0.6)], with the product taken exactly. *)
Definition passMark (questions : list QuizQuestion) : Z :=
  Qceiling (inject_Z (Z.of_nat (length questions)) * (6 # 10)).

(** [const passed = score >= Math.ceil(questions.length * 0.6)]. *)
Definition passed (questions : list QuizQuestion) (st : State) : bool :=
  passMark questions <=? Z.of_nat (score st).

(** What the user can do: pick an option (the buttons are disabled once the
    question is answered), press the next/results button (rendered only
    once the question is answered), and press the finish button of the
    result view, which calls [onFinish(passed)]. *)
Inductive Event := OptionClick (idx : Z) | Next.

Definition step (questions : list QuizQuestion) (ev : Event) (st : State)
  : option State :=
  if showResult st then None
  else
    match ev with
    | OptionClick idx =>
        if isAnswered st then None else handleOptionClick questions idx st
    | Next =>
        if isAnswered st then Some (handleNext questions st) else None
    end.

Fixpoint run (questions : list QuizQuestion) (evs : list Event) (st : State)
  : option State :=
  match evs with
  | [] => Some st
  | ev :: rest =>
      match step questions ev st with
      | Some st' => run questions rest st'
      | None => None
      end
  end.

(** The argument of [onFinish] when the finish button is pressed; it is
    only rendered in the result view. *)
Definition onFinishArg (questions : list QuizQuestion) (st : State)
  : option bool :=
  if showResult st then Some (passed questions st) else None.

(** Answering every question once, in order. *)
Definition answerAll (answers : list Z) : list Event :=
  flat_map (fun a => [OptionClick a; Next]) answers.

(** The number of questions whose chosen option is the correct one. *)
Fixpoint correctCount (questions : list QuizQuestion) (answers : list Z)
  : nat :=
  match questions, answers with
  | q :: qs, a :: rest =>
      if a =? correctOptionIndex q then S (correctCount qs rest)
      else correctCount qs rest
  | _, _ => 0%nat
  end.

End QuizView.

(* ================================================================== *)
(** * [LessonPlayer.tsx]: transcript words and the highlighted index   *)
(* ================================================================== *)

Module LessonPlayer.

Definition newline : ascii := ascii_of_N 10.

(** [script.split('\n')]: the pieces between line breaks; [cur] holds the
    characters of the current piece, last first. *)
Fixpoint splitLinesFrom (cur : list ascii) (s : list ascii) : list string :=
  match s with
  | [] => [Js.ofChars (rev cur)]
  | c :: rest =>
      if Ascii.eqb c newline
      then Js.ofChars (rev cur) :: splitLinesFrom [] rest
      else splitLinesFrom (c :: cur) rest
  end.

Definition splitLines (s : string) : list string :=
  splitLinesFrom [] (Js.chars s).

(** Truthiness of [p.trim()]: some character is not white space. *)
Definition trimTruthy (p : string) : bool :=
  existsb (fun c => negb (Js.isSpace c)) (Js.chars p).

(** [text.split(/\s+/)]: the pieces between maximal runs of white space;
    [inRun] tells that the previous character was white space. *)
Fixpoint splitSpacesFrom (cur : list ascii) (inRun : bool) (s : list ascii)
  : list string :=
  match s with
  | [] => [Js.ofChars (rev cur)]
  | c :: rest =>
      if Js.isSpace c then
        if inRun then splitSpacesFrom cur true rest
        else Js.ofChars (rev cur) :: splitSpacesFrom [] true rest
      else splitSpacesFrom (c :: cur) false rest
  end.

Definition splitSpaces (s : string) : list string :=
  splitSpacesFrom [] false (Js.chars s).

Record Paragraph := {
  p_text : string;
  words : list string;
  p_start : nat;
  p_end : nat
}.

Record Transcript := { paragraphs : list Paragraph; totalWords : nat }.

(** [rawParagraphs.map(text => ...)], threading [wordCountAccumulator]. *)
Fixpoint mapParagraphs (wordCountAccumulator : nat) (ps : list string)
  : list Paragraph * nat :=
  match ps with
  | [] => ([], wordCountAccumulator)
  | text :: rest =>
      let ws :=
        filter (fun w => (0 <? String.length w)%nat) (splitSpaces text) in
      let start := wordCountAccumulator in
      let acc := (wordCountAccumulator + length ws)%nat in
      let '(rest', total) := mapParagraphs acc rest in
      ({| p_text := text; words := ws; p_start := start; p_end := acc |}
       :: rest', total)
  end.

(** [transcriptData], for [state.content?.script]. *)
Definition transcriptData (script : option string) : Transcript :=
  if negb (Js.truthy script) then {| paragraphs := []; totalWords := 0 |}
  else
    let rawParagraphs := filter trimTruthy (splitLines (default "" script)) in
    let '(ps, total) := mapParagraphs 0 rawParagraphs in
    {| paragraphs := ps; totalWords := total |}.

(** [(current / total) * 100] and the index of the current word as exact
    fractions; [Highlight] has them as the program rounds them. *)
Definition progressPercent (current total : Q) : Q :=
  ((current / total) * 100)%Q.

(** [Math.floor((progress / 100) * transcriptData.totalWords)]. *)
Definition currentWordIndex (progress : Q) (totalWords : nat) : Z :=
  Qfloor ((progress / 100) * inject_Z (Z.of_nat totalWords))%Q.

End LessonPlayer.

(* ================================================================== *)
(** * [components/LessonPlayer.tsx]: the highlighted word              *)
(* ================================================================== *)

Module Highlight.
Import Double LessonPlayer.

(** [(current / total) * 100]: the progress that [handleTimeUpdate]
    stores when the duration is positive. *)
Definition progressOf (current total : Number) : Number :=
  mul (div current total) (ofZ 100).

(** [Math.floor((progress / 100) * transcriptData.totalWords)]. *)
Definition currentWordIndex (progress : Number) (totalWords : nat)
  : Number :=
  floor (mul (div progress (ofZ 100)) (ofNat totalWords)).

(** The class of a word of the transcript view. *)
Inductive WordClass := Read | Current | Upcoming.

Definition wordClass (currentWordIndex globalIdx : Number) : WordClass :=
  let isRead := lt globalIdx currentWordIndex in
  let isCurrent := eqb globalIdx currentWordIndex in
  if isRead then Read else if isCurrent then Current else Upcoming.

(** The words of the transcript view with their classes,
    [paragraphs.map(para => para.words.map((word, wIdx) => ...))]. *)
Definition renderTranscript (T : Transcript) (progress : Number)
  : list (list (string * WordClass)) :=
  let current := currentWordIndex progress (totalWords T) in
  map (fun para =>
         imap (fun wIdx word =>
                 let globalIdx := ofNat (p_start para + wIdx) in
                 (word, wordClass current globalIdx))
              (words para))
      (paragraphs T).

End Highlight.

(* ================================================================== *)
(** * [components/LessonPlayer.tsx]: the playback handlers             *)
(* ================================================================== *)

(** The handlers on the numbers the program computes with.  The audio
    element is what the handlers read and write of it; [duration] is NaN
    until the metadata is known. *)

Module Playback.
Import Double.

Record Audio := {
  currentTime : Number;
  audio_duration : Number
}.

Record State := {
  isPlaying : bool;
  progress : Number;
  duration : Number
}.

Definition setIsPlaying (b : bool) (st : State) : State :=
  {| isPlaying := b; progress := progress st; duration := duration st |}.

(** [!x] for a number: true of zero and of NaN. *)
Definition falsy (x : Number) : bool := isNaN x || isZero x.

Definition handleTimeUpdate (audio : option Audio) (st : State) : State :=
  match audio with
  | None => st
  | Some a =>
      let current := currentTime a in
      let total := audio_duration a in
      let st1 :=
        if lt (ofZ 0) total && negb (isNaN total) then
          {| isPlaying := isPlaying st;
             progress := mul (div current total) (ofZ 100);
             duration := total |}
        else st in
      if leq total current && lt (ofZ 0) total then setIsPlaying false st1
      else st1
  end.

(** [handleSeek]: [clientX] is the pointer position, [rectLeft] and [width]
    the bounding rectangle of the bar.  Returns the audio element (whose
    [currentTime] it sets) and the state.  The audio element refuses a
    position that is not finite with a TypeError, and the handler ends
    there ([None]). *)
Definition handleSeek (audio : option Audio) (clientX rectLeft width : Number)
    (st : State) : option (option Audio * State) :=
  match audio with
  | None => Some (audio, st)
  | Some a =>
      if falsy (duration st) then Some (audio, st)
      else
        let clickX := sub clientX rectLeft in
        let percentage :=
          Math_min (Math_max (ofZ 0) (div clickX width)) (ofZ 1) in
        let newTime := mul percentage (duration st) in
        if isFinite newTime then
          Some (Some {| currentTime := newTime;
                        audio_duration := audio_duration a |},
                {| isPlaying := isPlaying st;
                   progress := mul percentage (ofZ 100);
                   duration := duration st |})
        else None
  end.

End Playback.

(* ================================================================== *)
(** * [App.tsx]: the progress shown beside the outline                 *)
(* ================================================================== *)

Module Progress.
Import Course.

(** One turn of the inner [forEach] of [calculateProgress]: [total++] and,
    for a completed topic, [completed++]. *)
Definition countTopic (acc : nat * nat) (t : Topic) : nat * nat :=
  let '(total, completed) := acc in
  (S total, if isCompleted t then S completed else completed).

(** The counters [(total, completed)] after the two nested [forEach]. *)
Definition countChapters (chs : list Chapter) : nat * nat :=
  fold_left (fun acc c => fold_left countTopic (topics c) acc) chs (0, 0)%nat.

(** [calculateProgress()], a percentage; the division is exact here, and
    rounded in [ProgressNumber]. *)
Definition calculateProgress (courseStructure : option CourseStructure) : Q :=
  match courseStructure with
  | None => 0%Q
  | Some cs =>
      let '(total, completed) := countChapters (chapters cs) in
      if (total =? 0)%nat then 0%Q
      else ((inject_Z (Z.of_nat completed) / inject_Z (Z.of_nat total)) * 100)%Q
  end.

End Progress.

Module ProgressNumber.
Import Course Double Progress.

(** [calculateProgress()] on the numbers of the program: the counters are
    numbers, the quotient and the product are rounded. *)
Definition calculateProgress (courseStructure : option CourseStructure)
  : Number :=
  match courseStructure with
  | None => ofZ 0
  | Some cs =>
      let '(total, completed) := countChapters (chapters cs) in
      if (total =? 0)%nat then ofZ 0
      else mul (div (ofNat completed) (ofNat total)) (ofZ 100)
  end.

End ProgressNumber.

(* ================================================================== *)
(** * [geminiService.ts]: lesson script, quiz and speech               *)
(* ================================================================== *)

Module Generation.
Import Async Async.Notations Service.

(** [TutorProfile]; region and gender are strings at run time. *)
Record TutorProfile := { region : string; gender : string; name : string }.

Record LessonContent := {
  script : string;
  visualPrompt : string;
  keyPoints : list string
}.

(** What [ai.models.generateContent] is asked by the three operations.  The
    instruction text of a request is a fixed template filled with the values
    kept here. *)
Inductive Request :=
| LessonRequest (data topicTitle : string) (tutor : TutorProfile)
| QuizRequest (data topicTitle : string)
| SpeechRequest (text voiceName : string).

Definition lessonUnreadableMessage : string :=
  "The PDF content could not be read. It may be password protected.".

Definition lessonConnectionMessage : string :=
  "Connection lost due to file size. Please restart with a smaller PDF.".

Definition quizConnectionMessage : string :=
  "Connection lost. The file may be too large.".

Definition quizPdfMessage : string :=
  "PDF error during quiz generation. The file might be corrupted.".

(** The voice chosen by gender first, then region. *)
Definition voiceFor (tutor : TutorProfile) : string :=
  if String.eqb (gender tutor) "Male" then
    if String.eqb (region tutor) "African" then "Fenrir"
    else if String.eqb (region tutor) "European" then "Puck"
    else if String.eqb (region tutor) "Asian" then "Charon"
    else if String.eqb (region tutor) "American" then "Fenrir"
    else "Fenrir"
  else
    if String.eqb (region tutor) "African" then "Kore"
    else if String.eqb (region tutor) "European" then "Zephyr"
    else if String.eqb (region tutor) "Asian" then "Zephyr"
    else if String.eqb (region tutor) "American" then "Kore"
    else "Kore".

(** [response.candidates?.[0]?.content?.parts?.[0]?.inlineData?.data]. *)
Definition firstPartData (response : Response) : option string :=
  match candidates response with
  | Some (c :: _) =>
      match content c with
      | Some ct =>
          match parts ct with
          | Some (part :: _) =>
              match inlineData part with
              | Some d => data d
              | None => None
              end
          | _ => None
          end
      | None => None
      end
  | _ => None
  end.

Section Operations.
(** Outside the repository: the service, [JSON.parse] on texts of the
    schema's shape, [atob] (which throws on a text that is not base64) and
    [URL.createObjectURL]. *)
Context {S : Type}.
Variable generateContent : Request -> S -> (Js.Error + Response) * S.
Variable JSON_parse_lesson : string -> Js.Error + LessonContent.
Variable JSON_parse_quiz : string -> Js.Error + list QuizView.QuizQuestion.
Variable atob : string -> Js.Error + string.
Variable createObjectURL : list byte -> S -> string * S.

(** The closure that [generateLessonContent] hands to [withRetry]. *)
Definition lessonOperation (topicTitle base64Pdf : string)
    (tutor : TutorProfile) : Async S LessonContent :=
  tryCatch
    (await response :=
       extern (generateContent
                 (LessonRequest (cleanBase64 base64Pdf) topicTitle tutor)) in
     if negb (Js.truthy (text response)) then
       throw (Js.newError "No lesson content generated")
     else liftEither (JSON_parse_lesson (default "" (text response))))
    (fun error =>
       if Js.messageIncludes "document has no pages" error then
         throw (Js.newError lessonUnreadableMessage)
       else if Js.messageIncludes "xhr" error
               || Js.messageIncludes "Rpc failed" error
               || Js.statusIs 500 error then
         throw (Js.newError lessonConnectionMessage)
       else throw error).

Definition generateLessonContent (topicTitle base64Pdf : string)
    (tutor : TutorProfile) : Async S LessonContent :=
  Retry.withRetry_default (lessonOperation topicTitle base64Pdf tutor).

(** The closure that [generateQuiz] hands to [withRetry]. *)
Definition quizOperation (topicTitle base64Pdf : string)
  : Async S (list QuizView.QuizQuestion) :=
  tryCatch
    (await response :=
       extern (generateContent
                 (QuizRequest (cleanBase64 base64Pdf) topicTitle)) in
     if negb (Js.truthy (text response)) then
       throw (Js.newError "Failed to generate quiz")
     else liftEither (JSON_parse_quiz (default "" (text response))))
    (fun error =>
       if Js.messageIncludes "xhr" error
          || Js.messageIncludes "Rpc failed" error then
         throw (Js.newError quizConnectionMessage)
       else if Js.messageIncludes "document has no pages" error then
         throw (Js.newError quizPdfMessage)
       else throw error).

Definition generateQuiz (topicTitle base64Pdf : string)
  : Async S (list QuizView.QuizQuestion) :=
  Retry.withRetry_default (quizOperation topicTitle base64Pdf).

(** The closure that [generateLessonAudio] hands to [withRetry]: no
    [catch] block here.  The bytes are the character codes of the decoded
    binary string. *)
Definition speechOperation (text : string) (voiceName : string)
  : Async S string :=
  await response := extern (generateContent (SpeechRequest text voiceName)) in
  let base64Audio := firstPartData response in
  if negb (Js.truthy base64Audio) then
    throw (Js.newError "No audio generated")
  else
    await binaryString := liftEither (atob (default "" base64Audio)) in
    let bytes := map Buffer.u8 (Buffer.charCodes binaryString) in
    match Wav.pcmToWav bytes 24000 with
    | Some wavBlob => extern (fun s => let '(url, s') := createObjectURL wavBlob s in
                                       (inr url, s'))
    | None => throw (Js.newError "RangeError")
    end.

Definition generateLessonAudio (text : string) (tutor : TutorProfile)
  : Async S string :=
  Retry.withRetry_default (speechOperation text (voiceFor tutor)).

End Operations.

End Generation.

(* ================================================================== *)
(** * [App.tsx]: the upload of a document                              *)
(* ================================================================== *)

Module Upload.
Import Async Async.Notations Course Service.

(** The fields of a [File] that the handler reads. *)
Record File := { file_type : string; file_size : Z }.

(** The part of the component state that [handleFileUpload] reads and
    sets. *)
Record State := {
  uploadError : option string;
  appState : App.AppState;
  pdfBase64 : option string;
  courseStructure : option CourseStructure
}.

(** What the [FileReader] reports: [onerror], or [onload] with the data
    URL in [reader.result]. *)
Inductive ReadOutcome := ReadError | ReadResult (result : string).

Definition MAX_FILE_SIZE_MB : Z := 4.
Definition MAX_FILE_SIZE_BYTES : Z := MAX_FILE_SIZE_MB * 1024 * 1024.

(** [s.split(sep)] for a one-character separator; [cur] holds the
    characters of the current piece, last first. *)
Fixpoint splitOnFrom (sep : ascii) (cur : list ascii) (s : list ascii)
  : list string :=
  match s with
  | [] => [Js.ofChars (rev cur)]
  | c :: rest =>
      if Ascii.eqb c sep
      then Js.ofChars (rev cur) :: splitOnFrom sep [] rest
      else splitOnFrom sep (c :: cur) rest
  end.

Definition splitOn (sep : ascii) (s : string) : list string :=
  splitOnFrom sep [] (Js.chars s).

Definition comma : ascii := ascii_of_N 44.

Definition setError (msg : string) (st : State) : State :=
  {| uploadError := Some msg; appState := appState st;
     pdfBase64 := pdfBase64 st; courseStructure := courseStructure st |}.

Section Handler.
(** Outside the repository: the service and [JSON.parse] as for the
    structure request, and [Number.prototype.toFixed(2)]. *)
Context {S : Type}.
Variable generateContent :
  Service.Request -> S -> (Js.Error + Response) * S.
Variable JSON_parse : string -> Js.Error + RawCourse.
Variable toFixed2 : Q -> string.

Definition tooLargeFileMessage (size : Z) : string :=
  "File is too large ("
  +:+ toFixed2 (inject_Z size / 1024 / 1024)%Q
  +:+ "MB). Please choose a PDF smaller than "
  +:+ pretty MAX_FILE_SIZE_MB +:+ "MB.".

(** [handleFileUpload(file)] together with the reader event that follows
    it.  The handler never rejects. *)
Definition handleFileUpload (file : File) (read : ReadOutcome) (st0 : State)
  : Async S State :=
  (* setUploadError(null) *)
  let st := {| uploadError := None; appState := appState st0;
               pdfBase64 := pdfBase64 st0;
               courseStructure := courseStructure st0 |} in
  if negb (String.eqb (file_type file) "application/pdf") then
    ret (setError "Invalid file type. Please upload a PDF document." st)
  else if file_size file =? 0 then
    ret (setError "The file is empty. Please upload a valid PDF." st)
  else if MAX_FILE_SIZE_BYTES <? file_size file then
    ret (setError (tooLargeFileMessage (file_size file)) st)
  else
    let isResuming :=
      match courseStructure st with Some _ => true | None => false end in
    (* setAppState(AppState.ANALYZING), then the reader event *)
    match read with
    | ReadError =>
        ret {| uploadError := Some "Error reading file.";
               appState := App.UPLOAD;
               pdfBase64 := pdfBase64 st;
               courseStructure := courseStructure st |}
    | ReadResult result =>
        let base64String := splitOn comma result !! 1%nat in
        if negb (Js.truthy base64String) then
          ret {| uploadError := Some "Failed to read file. Please try again.";
                 appState := App.UPLOAD;
                 pdfBase64 := pdfBase64 st;
                 courseStructure := courseStructure st |}
        else
          let payload := default "" base64String in
          if isResuming then
            ret {| uploadError := None; appState := App.DASHBOARD;
                   pdfBase64 := Some payload;
                   courseStructure := courseStructure st |}
          else
            tryCatch
              (await structure :=
                 analyzePdfStructure generateContent JSON_parse payload in
               ret {| uploadError := None; appState := App.DASHBOARD;
                      pdfBase64 := Some payload;
                      courseStructure := Some structure |})
              (fun err =>
                 ret {| uploadError :=
                          Some (if Js.truthy (Js.message err)
                                then default "" (Js.message err)
                                else "Failed to analyze PDF. Please ensure it is a valid text-based PDF.");
                        appState := App.UPLOAD;
                        pdfBase64 := Some payload;
                        courseStructure := None |})
    end.

End Handler.

End Upload.

(* ================================================================== *)
(** * [components/LessonPlayer.tsx]: playback position and clock       *)
(* ================================================================== *)

Module Player.
Import LessonPlayer.

(** What the handlers read from the audio element.  [duration] is NaN
    ([None]) until the metadata is known; the audio is a finite WAV blob,
    so an unbounded duration does not occur.  Numbers are exact
    rationals here: this reading of the handlers serves the invariant over
    sequences of events, which bounds the progress and the word index;
    [Playback] has the handlers on the numbers of the program. *)
Record Audio := {
  currentTime : Q;
  audio_duration : option Q
}.

(** The component state that the playback handlers touch. *)
Record State := {
  isPlaying : bool;
  progress : Q;
  duration : Q
}.

Definition initial : State :=
  {| isPlaying := false; progress := 0; duration := 0 |}.

(** [x > b] and [a >= x] for a possibly NaN [x]: comparisons with NaN are
    false. *)
Definition gt (x : option Q) (b : Q) : bool :=
  match x with Some a => negb (Qle_bool a b) | None => false end.

Definition ge (a : Q) (x : option Q) : bool :=
  match x with Some t => Qle_bool t a | None => false end.

Definition isNaN (x : option Q) : bool :=
  match x with Some _ => false | None => true end.

Definition Math_max (a b : Q) : Q := if Qle_bool a b then b else a.
Definition Math_min (a b : Q) : Q := if Qle_bool a b then a else b.

Definition setIsPlaying (b : bool) (st : State) : State :=
  {| isPlaying := b; progress := progress st; duration := duration st |}.

Definition handleTimeUpdate (audio : option Audio) (st : State) : State :=
  match audio with
  | None => st
  | Some a =>
      let current := currentTime a in
      let total := audio_duration a in
      let st1 :=
        if gt total 0 && negb (isNaN total) then
          {| isPlaying := isPlaying st;
             progress := progressPercent current (default 0%Q total);
             duration := default 0%Q total |}
        else st in
      if ge current total && gt total 0 then setIsPlaying false st1
      else st1
  end.

(** [handleSeek]: [clientX] is the pointer position, [rectLeft] and [width]
    the bounding rectangle of the bar.  Returns the audio element (whose
    [currentTime] it sets) and the state. *)
Definition handleSeek (audio : option Audio) (clientX rectLeft width : Q)
    (st : State) : option Audio * State :=
  match audio with
  | None => (audio, st)
  | Some a =>
      if Qeq_bool (duration st) 0 then (audio, st)
      else
        let clickX := (clientX - rectLeft)%Q in
        let percentage := Math_min (Math_max 0 (clickX / width)%Q) 1 in
        let newTime := (percentage * duration st)%Q in
        (Some {| currentTime := newTime;
                 audio_duration := audio_duration a |},
         {| isPlaying := isPlaying st;
            progress := (percentage * 100)%Q;
            duration := duration st |})
  end.

(** [s.padStart(n, c)] for a one-character filler. *)
Definition padStart (n : nat) (c : ascii) (s : string) : string :=
  Js.ofChars (replicate (n - String.length s) c) +:+ s.

(** [a % b] on numbers: the remainder has the sign of the dividend. *)
Definition truncate (q : Q) : Z :=
  if Qle_bool 0 q then Qfloor q else Qceiling q.

Definition remainder (a b : Q) : Q :=
  (a - b * inject_Z (truncate (a / b)))%Q.

(** The text of an integral number: its decimal digits below 10^21 in
    size; from there on the text has an exponent, which is left out
    ([None]). *)
Definition numberToString (z : Z) : option string :=
  if Z.abs z <? 10 ^ 21 then Some (pretty z) else None.

(** [formatTime(time)]; the argument [None] is a [time] that is NaN or
    not finite. *)
Definition formatTime (time : option Q) : option string :=
  match time with
  | None => Some "0:00"
  | Some t =>
      let mins := Qfloor (t / 60) in
      let secs := Qfloor (remainder t 60) in
      match numberToString mins, numberToString secs with
      | Some m, Some s => Some (m +:+ ":" +:+ padStart 2 "0" s)
      | _, _ => None
      end
  end.

(** The events of the player: a [timeupdate] of the audio element with
    what it reads then, a click on the progress bar, the play button, the
    end of the audio and a new audio URL. *)
Inductive Event :=
| TimeUpdate (audio : Audio)
| Seek (audio : Audio) (clientX rectLeft width : Q)
| TogglePlay
| Ended
| NewAudio.

Definition step (st : State) (e : Event) : State :=
  match e with
  | TimeUpdate audio => handleTimeUpdate (Some audio) st
  | Seek audio clientX rectLeft width =>
      snd (handleSeek (Some audio) clientX rectLeft width st)
  | TogglePlay => setIsPlaying (negb (isPlaying st)) st
  | Ended => setIsPlaying false st
  | NewAudio => initial
  end.

Definition run (es : list Event) : State := fold_left step es initial.

End Player.

(* ================================================================== *)
(** * [components/CourseOutline.tsx]: the searchable outline           *)
(* ================================================================== *)

Module CourseOutline.
Import Course LessonPlayer.

(** [toLowerCase] on code units below 256: the letters A-Z and the
    accented capitals 192-222 (without the multiplication sign 215) move
    up by 32. *)
Definition lowerCode (c : ascii) : ascii :=
  let n := N_of_ascii c in
  if ((65 <=? n) && (n <=? 90)
      || (192 <=? n) && (n <=? 222) && negb (n =? 215))%N
  then ascii_of_N (n + 32) else c.

Definition toLowerCase (s : string) : string :=
  Js.ofChars (map lowerCode (Js.chars s)).

(** The test of the topic filter. *)
Definition topicMatches (lowerQuery : string) (topic : Topic) : bool :=
  Js.includes lowerQuery (toLowerCase (title topic))
  || Js.includes lowerQuery (toLowerCase (description topic)).

(** [filteredChapters], for the chapters and the search query. *)
Definition filteredChapters (chapters : list Chapter) (searchQuery : string)
  : list Chapter :=
  if negb (trimTruthy searchQuery) then chapters
  else
    let lowerQuery := toLowerCase searchQuery in
    filter (fun chapter => (0 <? length (topics chapter))%nat)
      (map (fun chapter =>
              {| ch_id := ch_id chapter; ch_title := ch_title chapter;
                 topics := filter (topicMatches lowerQuery) (topics chapter) |})
           chapters).

End CourseOutline.

(* ================================================================== *)
(** * [components/FeedbackModal.tsx] and the feedback handlers of      *)
(** * [App.tsx]                                                       *)
(* ================================================================== *)

Module Feedback.
Import Course.

Inductive FeedbackType := lesson | quiz.

Record Feedback := {
  fb_id : string;
  topicId : string;
  topicTitle : string;
  fb_type : FeedbackType;
  rating : Z;
  comment : string;
  createdAt : string
}.

(** What the clock gives when a feedback is created:
    [Date.now().toString()] and [new Date().toISOString()]. *)
Record Clock := { now : string; isoString : string }.

(** The state of the modal itself. *)
Record Modal := { m_rating : Z; m_comment : string }.

Definition emptyModal : Modal := {| m_rating := 0; m_comment := "" |}.

(** The modal together with the state of [App] that the feedback handlers
    read and write. *)
Record State := {
  modal : Modal;
  feedbacks : list Feedback;
  feedbackModalOpen : bool;
  feedbackType : FeedbackType;
  currentTopic : option Topic
}.

Definition openFeedbackModal (type : FeedbackType) (st : State) : State :=
  {| modal := modal st; feedbacks := feedbacks st;
     feedbackModalOpen := true; feedbackType := type;
     currentTopic := currentTopic st |}.

Definition handleFeedbackSubmit (clock : Clock) (rating : Z)
    (comment : string) (st : State) : State :=
  match currentTopic st with
  | None => st
  | Some topic =>
      let newFeedback :=
        {| fb_id := now clock;
           topicId := id topic;
           topicTitle := title topic;
           fb_type := feedbackType st;
           rating := rating;
           comment := comment;
           createdAt := isoString clock |} in
      {| modal := modal st; feedbacks := feedbacks st ++ [newFeedback];
         feedbackModalOpen := feedbackModalOpen st;
         feedbackType := feedbackType st;
         currentTopic := currentTopic st |}
  end.

(** [handleSubmit] of the modal: [onSubmit], reset, [onClose]. *)
Definition handleSubmit (clock : Clock) (st : State) : State :=
  let st1 :=
    handleFeedbackSubmit clock (m_rating (modal st)) (m_comment (modal st))
      st in
  {| modal := emptyModal; feedbacks := feedbacks st1;
     feedbackModalOpen := false; feedbackType := feedbackType st1;
     currentTopic := currentTopic st1 |}.

Definition setModal (m : Modal) (st : State) : State :=
  {| modal := m; feedbacks := feedbacks st;
     feedbackModalOpen := feedbackModalOpen st;
     feedbackType := feedbackType st; currentTopic := currentTopic st |}.

(** The star buttons that the modal renders. *)
Definition stars : list Z := [1; 2; 3; 4; 5].

(** The events: the feedback buttons of the lesson and quiz views, the
    controls of the modal, and a change of the current topic.  The modal
    renders nothing while it is closed, its submit button is disabled while
    the rating is 0, and there is a star button for each of [stars]. *)
Inductive Event :=
| Open (type : FeedbackType)
| ClickStar (star : Z)
| ChangeComment (text : string)
| Submit (clock : Clock)
| Close
| SetTopic (topic : option Topic).

Definition step (st : State) (e : Event) : State :=
  match e with
  | Open type => openFeedbackModal type st
  | ClickStar star =>
      if feedbackModalOpen st && existsb (Z.eqb star) stars
      then setModal {| m_rating := star;
                       m_comment := m_comment (modal st) |} st
      else st
  | ChangeComment text =>
      if feedbackModalOpen st
      then setModal {| m_rating := m_rating (modal st);
                       m_comment := text |} st
      else st
  | Submit clock =>
      if feedbackModalOpen st && negb (m_rating (modal st) =? 0)
      then handleSubmit clock st
      else st
  | Close =>
      {| modal := modal st; feedbacks := feedbacks st;
         feedbackModalOpen := false; feedbackType := feedbackType st;
         currentTopic := currentTopic st |}
  | SetTopic topic =>
      {| modal := modal st; feedbacks := feedbacks st;
         feedbackModalOpen := feedbackModalOpen st;
         feedbackType := feedbackType st; currentTopic := topic |}
  end.

Definition run (st : State) (es : list Event) : State :=
  fold_left step es st.

End Feedback.

(* ================================================================== *)
(** * [localStorage]                                                   *)
(* ================================================================== *)

Module Storage.

(** The storage area: a map from keys to strings. *)
Definition Store := gmap string string.

Definition getItem (key : string) (store : Store) : option string :=
  store !! key.

Definition removeItem (key : string) (store : Store) : Store :=
  delete key store.

(** [setItem] stores the value or, when the quota does not allow it,
    throws and leaves the area as it is ([None]); [fits] is the browser's
    decision. *)
Definition setItem (fits : Store -> string -> string -> bool)
    (key value : string) (store : Store) : option Store :=
  if fits store key value then Some (<[key := value]> store) else None.

End Storage.

(* ================================================================== *)
(** * [App.tsx]: loading and saving the state of a user                *)
(* ================================================================== *)

Module Persistence.
Import Course Storage.

Record User := {
  user_id : string;
  username : string;
  avatar : string;
  user_createdAt : string
}.

Definition STORAGE_KEY_PREFIX : string := "ready2learn_state_".
Definition FEEDBACK_KEY_PREFIX : string := "ready2learn_feedback_".

Definition DEFAULT_TUTOR : Generation.TutorProfile :=
  {| Generation.region := "American"; Generation.gender := "Male";
     Generation.name := "Alex" |}.

(** The object kept under the state key of a user; a field that is
    missing or [null] is [None]. *)
Record Saved := {
  saved_courseStructure : option CourseStructure;
  saved_pdfBase64 : option string;
  saved_tutorProfile : option Generation.TutorProfile
}.

(** The state of [App] that logging in, saving and resetting touch. *)
Record State := {
  currentUser : option User;
  appState : App.AppState;
  pdfBase64 : option string;
  courseStructure : option CourseStructure;
  currentTopic : option Topic;
  isSidebarOpen : bool;
  uploadError : option string;
  tutorProfile : Generation.TutorProfile;
  feedbacks : list Feedback.Feedback
}.

Definition setAppState (a : App.AppState) (st : State) : State :=
  {| currentUser := currentUser st; appState := a;
     pdfBase64 := pdfBase64 st; courseStructure := courseStructure st;
     currentTopic := currentTopic st; isSidebarOpen := isSidebarOpen st;
     uploadError := uploadError st; tutorProfile := tutorProfile st;
     feedbacks := feedbacks st |}.

Definition setPdfBase64 (p : option string) (st : State) : State :=
  {| currentUser := currentUser st; appState := appState st;
     pdfBase64 := p; courseStructure := courseStructure st;
     currentTopic := currentTopic st; isSidebarOpen := isSidebarOpen st;
     uploadError := uploadError st; tutorProfile := tutorProfile st;
     feedbacks := feedbacks st |}.

Definition setCourseStructure (c : option CourseStructure) (st : State)
  : State :=
  {| currentUser := currentUser st; appState := appState st;
     pdfBase64 := pdfBase64 st; courseStructure := c;
     currentTopic := currentTopic st; isSidebarOpen := isSidebarOpen st;
     uploadError := uploadError st; tutorProfile := tutorProfile st;
     feedbacks := feedbacks st |}.

Definition setTutorProfile (t : Generation.TutorProfile) (st : State)
  : State :=
  {| currentUser := currentUser st; appState := appState st;
     pdfBase64 := pdfBase64 st; courseStructure := courseStructure st;
     currentTopic := currentTopic st; isSidebarOpen := isSidebarOpen st;
     uploadError := uploadError st; tutorProfile := t;
     feedbacks := feedbacks st |}.

Definition setFeedbacks (f : list Feedback.Feedback) (st : State) : State :=
  {| currentUser := currentUser st; appState := appState st;
     pdfBase64 := pdfBase64 st; courseStructure := courseStructure st;
     currentTopic := currentTopic st; isSidebarOpen := isSidebarOpen st;
     uploadError := uploadError st; tutorProfile := tutorProfile st;
     feedbacks := f |}.

Definition handleLogin (user : User) (st : State) : State :=
  {| currentUser := Some user; appState := appState st;
     pdfBase64 := pdfBase64 st; courseStructure := courseStructure st;
     currentTopic := currentTopic st; isSidebarOpen := isSidebarOpen st;
     uploadError := uploadError st; tutorProfile := tutorProfile st;
     feedbacks := feedbacks st |}.

Definition handleLogout (st : State) : State :=
  {| currentUser := None; appState := App.UPLOAD;
     pdfBase64 := None; courseStructure := None;
     currentTopic := None; isSidebarOpen := isSidebarOpen st;
     uploadError := uploadError st; tutorProfile := tutorProfile st;
     feedbacks := [] |}.

(** [handleReset]; [confirmed] is the answer to [window.confirm]. *)
Definition handleReset (confirmed : bool) (store : Store) (st : State)
  : Store * State :=
  if confirmed then
    let store' :=
      match currentUser st with
      | Some user =>
          let userStorageKey := STORAGE_KEY_PREFIX +:+ user_id user in
          let userFeedbackKey := FEEDBACK_KEY_PREFIX +:+ user_id user in
          removeItem userFeedbackKey (removeItem userStorageKey store)
      | None => store
      end in
    (store',
     {| currentUser := currentUser st; appState := App.UPLOAD;
        pdfBase64 := None; courseStructure := None;
        currentTopic := None; isSidebarOpen := false;
        uploadError := None; tutorProfile := tutorProfile st;
        feedbacks := [] |})
  else (store, st).

Section Effects.
Variable fits : Store -> string -> string -> bool.
Variable stringifyState : Saved -> string.
Variable parseState : string -> Js.Error + Saved.
Variable stringifyFeedbacks : list Feedback.Feedback -> string.
Variable parseFeedbacks : string -> Js.Error + list Feedback.Feedback.

(** Effect 1, run when the user changes: load the data of the user.
    [parseState] stands for [JSON.parse] and the reading of the fields of
    its result. *)
Definition loadEffect (store : Store) (st : State) : State :=
  match currentUser st with
  | None => st
  | Some user =>
      let userStorageKey := STORAGE_KEY_PREFIX +:+ user_id user in
      let userFeedbackKey := FEEDBACK_KEY_PREFIX +:+ user_id user in
      let savedData := getItem userStorageKey store in
      let st1 :=
        if Js.truthy savedData then
          match parseState (default "" savedData) with
          | inr parsed =>
              let st2 :=
                match saved_courseStructure parsed with
                | Some structure =>
                    let st3 := setCourseStructure (Some structure) st in
                    if Js.truthy (saved_pdfBase64 parsed) then
                      setAppState App.DASHBOARD
                        (setPdfBase64 (saved_pdfBase64 parsed) st3)
                    else setAppState App.UPLOAD st3
                | None => setAppState App.UPLOAD st
                end in
              match saved_tutorProfile parsed with
              | Some tutor => setTutorProfile tutor st2
              | None => setTutorProfile DEFAULT_TUTOR st2
              end
          | inl _ => setAppState App.UPLOAD st
          end
        else
          setTutorProfile DEFAULT_TUTOR
            (setPdfBase64 None
               (setCourseStructure None (setAppState App.UPLOAD st))) in
      let savedFeedback := getItem userFeedbackKey store in
      if Js.truthy savedFeedback then
        match parseFeedbacks (default "" savedFeedback) with
        | inr parsed => setFeedbacks parsed st1
        | inl _ => setFeedbacks [] st1
        end
      else setFeedbacks [] st1
  end.

(** Effect 2, run when the saved state changes: write it, without the
    PDF when the quota does not allow the whole, or not at all.  The tutor
    profile is an object, so [courseStructure || tutorProfile] holds. *)
Definition saveEffect (store : Store) (st : State) : Store :=
  match currentUser st with
  | None => store
  | Some user =>
      let userStorageKey := STORAGE_KEY_PREFIX +:+ user_id user in
      if match courseStructure st with Some _ => true | None => false end
         || true
      then
        match setItem fits userStorageKey
                (stringifyState
                   {| saved_courseStructure := courseStructure st;
                      saved_pdfBase64 := pdfBase64 st;
                      saved_tutorProfile := Some (tutorProfile st) |})
                store with
        | Some store' => store'
        | None =>
            match setItem fits userStorageKey
                    (stringifyState
                       {| saved_courseStructure := courseStructure st;
                          saved_pdfBase64 := None;
                          saved_tutorProfile := Some (tutorProfile st) |})
                    store with
            | Some store' => store'
            | None => store
            end
        end
      else store
  end.

(** Effect 3, run when the feedback changes; [None] when [setItem]
    throws. *)
Definition saveFeedbackEffect (store : Store) (st : State) : option Store :=
  match currentUser st with
  | None => Some store
  | Some user =>
      let userFeedbackKey := FEEDBACK_KEY_PREFIX +:+ user_id user in
      setItem fits userFeedbackKey (stringifyFeedbacks (feedbacks st)) store
  end.

End Effects.

End Persistence.

(* ================================================================== *)
(** * [components/LoginScreen.tsx]: the user profiles                  *)
(* ================================================================== *)

Module LoginScreen.
Import Storage Persistence.

Definition USERS_KEY : string := "ready2learn_users".

Record State := {
  users : list User;
  isCreating : bool;
  newUsername : string;
  selectedAvatar : string
}.

(** [s.trim()]: without the white space at both ends. *)
Fixpoint trimStart (cs : list ascii) : list ascii :=
  match cs with
  | [] => []
  | c :: rest => if Js.isSpace c then trimStart rest else cs
  end.

Definition trim (s : string) : string :=
  Js.ofChars (rev (trimStart (rev (trimStart (Js.chars s))))).

Definition setUsers (us : list User) (st : State) : State :=
  {| users := us; isCreating := isCreating st;
     newUsername := newUsername st; selectedAvatar := selectedAvatar st |}.

Section Handlers.
Variable fits : Store -> string -> string -> bool.
Variable stringifyUsers : list User -> string.

(** [handleCreateUser]: the storage area and state afterwards and the
    argument of [onLogin], if it is called.  When [setItem] throws, the
    list in the state is already extended and [onLogin] is not reached. *)
Definition handleCreateUser (clock : Feedback.Clock) (store : Store)
    (st : State) : Store * State * option User :=
  if negb (Js.truthy (Some (trim (newUsername st)))) then (store, st, None)
  else
    let newUser :=
      {| user_id := Feedback.now clock;
         username := trim (newUsername st);
         avatar := selectedAvatar st;
         user_createdAt := Feedback.isoString clock |} in
    let updatedUsers := users st ++ [newUser] in
    let st' := setUsers updatedUsers st in
    match setItem fits USERS_KEY (stringifyUsers updatedUsers) store with
    | Some store' => (store', st', Some newUser)
    | None => (store, st', None)
    end.

(** [handleDeleteUser]; [confirmed] is the answer to [window.confirm].
    When [setItem] throws, the data of the user is not removed. *)
Definition handleDeleteUser (confirmed : bool) (userId : string)
    (store : Store) (st : State) : Store * State :=
  if confirmed then
    let updatedUsers :=
      filter (fun u => negb (String.eqb (user_id u) userId)) (users st) in
    let st' := setUsers updatedUsers st in
    match setItem fits USERS_KEY (stringifyUsers updatedUsers) store with
    | Some store' =>
        (removeItem (FEEDBACK_KEY_PREFIX +:+ userId)
           (removeItem (STORAGE_KEY_PREFIX +:+ userId) store'),
         st')
    | None => (store, st')
    end
  else (store, st).

End Handlers.

End LoginScreen.

(* ================================================================== *)
(** * Vocabulary of the statements and sample inputs                  *)
(* ================================================================== *)

Section WavVocabulary.
Import Buffer Wav.

(** The four little-endian bytes of [ToUint32 v], and the two of
    [ToUint16 v]. *)
Definition le32 (v : Z) : list byte :=
  let w := v mod 2 ^ 32 in
  [u8 w; u8 (Z.shiftr w 8); u8 (Z.shiftr w 16); u8 (Z.shiftr w 24)].

Definition le16 (v : Z) : list byte :=
  let w := v mod 2 ^ 16 in [u8 w; u8 (Z.shiftr w 8)].

(** The header that the writes of [pcmToWav] leave in the first 44 bytes. *)
Definition headerBytes (sampleRate dataSize : Z) : list byte :=
  map u8 (charCodes "RIFF") ++ le32 (36 + dataSize)
  ++ map u8 (charCodes "WAVE") ++ map u8 (charCodes "fmt ")
  ++ le32 16 ++ le16 1 ++ le16 numChannels
  ++ le32 sampleRate ++ le32 (sampleRate * numChannels * bitsPerSample / 8)
  ++ le16 (numChannels * bitsPerSample / 8) ++ le16 bitsPerSample
  ++ map u8 (charCodes "data") ++ le32 dataSize.

(** The layout and round trip that the container encoder is asked to
    deliver for a buffer [B] and a rate [R]. *)
Definition container_layout (B : list byte) (R : Z) : Prop :=
  exists header wav,
    pcmToWav B R = Some wav
    /\ wav = header ++ B
    /\ length header = 44%nat
    /\ getUint32 4 wav = Some (36 + Z.of_nat (length B))
    /\ getUint16 22 wav = Some 1
    /\ getUint32 24 wav = Some R
    /\ getUint32 28 wav = Some (R * 2)
    /\ getUint16 32 wav = Some 2
    /\ getUint16 34 wav = Some 16
    /\ getUint32 40 wav = Some (Z.of_nat (length B))
    /\ decodeWav wav = Some (B, R).

End WavVocabulary.

Section ProgressionVocabulary.
Import Course App.

(** The topic found at flattened position [i] after advancing on the
    topic at position [k]: completed at [k], unlocked at [k + 1],
    untouched elsewhere. *)
Definition advanced (k i : nat) (u : Topic) : Topic :=
  if decide (i = k) then complete u
  else if decide (i = S k) then unlock u
  else u.

(** What advancing on position [k] makes of the topic [u] found at
    position [i], field by field: [v] has the identifier, title and
    description of [u]; it is completed if [i = k] and as completed as [u]
    otherwise; it is unlocked if [i = k + 1] and as locked as [u]
    otherwise. *)
Definition advanced_topic (k i : nat) (u v : Topic) : Prop :=
  id v = id u
  /\ title v = title u
  /\ description v = description u
  /\ isCompleted v = (if decide (i = k) then true else isCompleted u)
  /\ isLocked v = (if decide (i = S k) then false else isLocked u).

(** [cs'] is [cs] advanced on the topic at flattened position [k]: the
    same title, summary and chapters with the same number of topics; the
    topic at [k] is completed, the topic at [k + 1] (if any) is unlocked,
    and position by position nothing else differs ([advanced_topic]); when
    [k] is the last position no locked flag differs. *)
Definition advanced_outline (k : nat) (cs cs' : CourseStructure) : Prop :=
  cs_title cs' = cs_title cs
  /\ summary cs' = summary cs
  /\ map ch_id (chapters cs') = map ch_id (chapters cs)
  /\ map ch_title (chapters cs') = map ch_title (chapters cs)
  /\ map (fun ch => length (topics ch)) (chapters cs')
     = map (fun ch => length (topics ch)) (chapters cs)
  /\ length (allTopics cs') = length (allTopics cs)
  /\ (exists v, allTopics cs' !! k = Some v /\ isCompleted v = true)
  /\ (forall n, allTopics cs !! S k = Some n ->
        exists v, allTopics cs' !! S k = Some v /\ isLocked v = false)
  /\ (forall i u, allTopics cs !! i = Some u ->
        exists v, allTopics cs' !! i = Some v /\ advanced_topic k i u v)
  /\ (length (allTopics cs) = S k ->
      map isLocked (allTopics cs') = map isLocked (allTopics cs)).

(** A two-chapter outline as [analyzePdfStructure] leaves it, and the state
    of the component while [topic] is the current topic. *)
Definition demoTopic (n : nat) (locked : bool) : Topic :=
  {| id := "topic-" +:+ pretty n; title := "Topic"; description := "About";
     isCompleted := false; isLocked := locked |}.

Definition demoOutline : CourseStructure :=
  {| cs_title := "Course"; summary := "Summary";
     chapters :=
       [ {| ch_id := "ch-0"; ch_title := "One";
            topics := [demoTopic 0 false; demoTopic 1 true] |};
         {| ch_id := "ch-1"; ch_title := "Two";
            topics := [demoTopic 2 true] |} ] |}.

Definition demoState (topic : Topic) : State :=
  {| courseStructure := Some demoOutline;
     currentTopic := Some topic;
     appState := QUIZ |}.

Definition ghostTopic : Topic :=
  {| id := "topic-9"; title := "Gone"; description := "Not in the outline";
     isCompleted := false; isLocked := false |}.

(** An outline all of whose topics are locked, with a current topic that
    is not one of them. *)
Definition lockedOutline : CourseStructure :=
  {| cs_title := "Course"; summary := "Summary";
     chapters :=
       [ {| ch_id := "ch-0"; ch_title := "One";
            topics := [demoTopic 0 true; demoTopic 1 true] |};
         {| ch_id := "ch-1"; ch_title := "Two";
            topics := [demoTopic 2 true] |} ] |}.

Definition ghostState : State :=
  {| courseStructure := Some lockedOutline;
     currentTopic := Some ghostTopic;
     appState := QUIZ |}.

(** The scenario of one chapter with three topics: passing the topics in
    order turns [unlocked, locked, locked] into all completed. *)
Definition threeTopics : CourseStructure :=
  {| cs_title := "Course"; summary := "Summary";
     chapters :=
       [ {| ch_id := "ch-0"; ch_title := "One";
            topics := [demoTopic 0 false; demoTopic 1 true; demoTopic 2 true] |} ] |}.

Definition passTopic (n : nat) (cs : option CourseStructure)
  : option CourseStructure :=
  courseStructure
    (handleQuizFinish true
       {| courseStructure := cs; currentTopic := Some (demoTopic n true);
          appState := QUIZ |}).

Definition flags (cs : option CourseStructure) : list (bool * bool) :=
  match cs with
  | Some cs => map (fun t => (isCompleted t, isLocked t)) (allTopics cs)
  | None => []
  end.

End ProgressionVocabulary.

Section OutlineVocabulary.
Import Course Service.

Definition topicId (n : nat) : string := "topic-" +:+ pretty n.

Definition chapterId (n : nat) : string := "ch-" +:+ pretty n.

(** Number of topics of a raw outline, flattened. *)
Definition rawTopicCount (chs : list RawChapter) : nat :=
  length (flat_map rawch_topics chs).

(** A response in which the first chapter has no topic: the schema of the
    request allows an empty [topics] array. *)
Definition emptyFirstChapter : RawCourse :=
  {| raw_cs_title := "Course";
     raw_summary := "Summary";
     raw_chapters :=
       [ {| rawch_title := "Preface"; rawch_topics := [] |};
         {| rawch_title := "Basics";
            rawch_topics :=
              [ {| raw_title := "First steps";
                   raw_description := "Getting started" |} ] |} ] |}.

(** A service that answers every call with a text, and a parser that reads
    that text as [emptyFirstChapter]. *)
Definition answering (_ : Request) (s : unit)
  : (Js.Error + Response) * unit :=
  (inr {| text := Some "{...}"; candidates := None |}, s).

Definition parsesTo (rawData : RawCourse) (_ : string) : Js.Error + RawCourse :=
  inr rawData.

End OutlineVocabulary.

Section RetryVocabulary.
Import Async Retry.

(** The failures that [withRetry] retries. *)
Definition transient (error : Js.Error) : bool :=
  isNetworkError error || isServerError error.

(** A status of the 5xx class. *)
Definition is5xx (error : Js.Error) : bool :=
  match Js.status error with
  | Some s => (500 <=? s) && (s <=? 599)
  | None => false
  end.

(** An operation that answers its successive calls from a script and
    rejects with [last] once the script is used up; the state is what is
    left of the script. *)
Definition scripted {T} (last : Js.Error) (script : list (Js.Error + T))
  : (Js.Error + T) * list (Js.Error + T) :=
  match script with
  | [] => (inl last, [])
  | outcome :: rest => (outcome, rest)
  end.

Definition networkDown : Js.Error :=
  {| Js.message := Some "Failed to fetch"; Js.status := None |}.

Definition unavailable : Js.Error :=
  {| Js.message := Some "The model is overloaded"; Js.status := Some 503 |}.

Definition forbidden : Js.Error :=
  {| Js.message := Some "Permission denied"; Js.status := Some 403 |}.

Definition badGateway : Js.Error :=
  {| Js.message := Some "Bad Gateway"; Js.status := Some 502 |}.

End RetryVocabulary.

Section PipelineVocabulary.
Import Async Retry Service Course.

(** The two translations of the [catch] block of the structure request. *)
Definition unreadable (error : Js.Error) : bool :=
  Js.messageIncludes "document has no pages" error || Js.statusIs 400 error.

Definition sizeClass (error : Js.Error) : bool :=
  Js.messageIncludes "xhr" error
  || Js.messageIncludes "Rpc failed" error
  || Js.statusIs 500 error.

(** What the [catch] block throws for a failure of the call. *)
Definition translated (error : Js.Error) : Js.Error :=
  if unreadable error then Js.newError unreadableMessage
  else if sizeClass error then Js.newError tooLargeMessage
  else error.

End PipelineVocabulary.

Section PipelineSamples.
Import Async Retry Service Course.

(** The structure request against a service that answers from a script. *)
Definition scriptedService (_ : Request) (script : list (Js.Error + Response))
  : (Js.Error + Response) * list (Js.Error + Response) :=
  scripted forbidden script.

Definition analyzeScripted (script : list (Js.Error + Response))
  : (Js.Error + CourseStructure) * World (list (Js.Error + Response)) :=
  analyzePdfStructure scriptedService (parsesTo emptyFirstChapter) "JVBERi0x"
    {| ext := script; slept := [] |}.

Definition noPages : Js.Error :=
  {| Js.message := Some "The document has no pages."; Js.status := Some 400 |}.

Definition internalError : Js.Error :=
  {| Js.message := Some "Internal error encountered."; Js.status := Some 500 |}.

Definition textResponse : Response :=
  {| text := Some "{...}"; candidates := None |}.

End PipelineSamples.

Section ImageVocabulary.
Import Async Service.





End ImageVocabulary.

Section QuizVocabulary.
Import QuizView.

Definition demoQuestion (n correct : Z) : QuizQuestion :=
  {| q_id := n; question := "Which one?"; options := ["a"; "b"; "c"; "d"];
     correctOptionIndex := correct; explanation := "Because." |}.

Definition demoQuiz : list QuizQuestion :=
  [demoQuestion 1 0; demoQuestion 2 3; demoQuestion 3 1].

End QuizVocabulary.

Section HighlightVocabulary.
Import Double LessonPlayer Highlight.



(** The classes of the words of the view, in reading order. *)
Definition classes (T : Transcript) (progress : Number) : list WordClass :=
  map snd (concat (renderTranscript T progress)).

Definition helloTranscript : string :=
  "Hello world" +:+ String newline "Second line".

End HighlightVocabulary.

Section PlaybackVocabulary.
Import Double Playback.

(** A rational that is a number of the program: rounding leaves it as it
    is. *)
Definition representable (q : Q) : Prop :=
  exists r, round q = Finite r /\ (r == q)%Q.

(** Sample inputs: a minute of audio, playing. *)
Definition playingMinute : State :=
  {| isPlaying := true; progress := Finite 50; duration := Finite 60 |}.

Definition audioAt (current total : Q) : Audio :=
  {| currentTime := Finite current; audio_duration := Finite total |}.

Definition unloaded : Audio :=
  {| currentTime := Finite 0; audio_duration := NaN |}.

End PlaybackVocabulary.

Section ProgressNumberVocabulary.
Import Double.

(** The number next below 1 and the least positive share of 2^53
    topics. *)
Definition belowOne : Q := 9007199254740991 # 9007199254740992.
Definition leastShare : Q := 1 # 9007199254740992.

End ProgressNumberVocabulary.

Section DisciplineVocabulary.
Import Course App Service.

(** The outlines the application can hold after the analysis of
    [rawData]: the one [analyzePdfStructure] returns, and the one left by
    [handleQuizFinish] after a quiz on a topic that could be selected (the
    outline view only lets unlocked topics be selected; flags never go back,
    so the topic is still in the outline and unlocked when the quiz ends). *)
Inductive reachable (rawData : RawCourse) : CourseStructure -> Prop :=
| reach_init : reachable rawData (addIds rawData)
| reach_quiz (cs cs' : CourseStructure) (t cur : Topic) (passed : bool) :
    reachable rawData cs ->
    t ∈ allTopics cs ->
    isLocked t = false ->
    id cur = id t ->
    courseStructure
      (handleQuizFinish passed
         {| courseStructure := Some cs; currentTopic := Some cur;
            appState := QUIZ |}) = Some cs' ->
    reachable rawData cs'.

(** The unlocked topics are the first [a] ones in flattened order, and a
    completed topic is unlocked together with its successor. *)
Definition lock_discipline (cs : CourseStructure) : Prop :=
  NoDup (map id (allTopics cs))
  /\ exists a : nat,
      (a <= length (allTopics cs))%nat
      /\ forall i t, allTopics cs !! i = Some t ->
           (isLocked t = false <-> (i < a)%nat)
           /\ (isCompleted t = true ->
               (i < a)%nat
               /\ ((S i < length (allTopics cs))%nat -> (S i < a)%nat)).

(** Number of completed topics. *)
Definition completedCount (ts : list Topic) : nat :=
  length (filter (fun t => isCompleted t = true) ts).

End DisciplineVocabulary.

Section DisciplineSamples.
Import Course App Service.

(** A response with two chapters of two and one topics. *)
Definition twoChapters : RawCourse :=
  {| raw_cs_title := "Course";
     raw_summary := "Summary";
     raw_chapters :=
       [ {| rawch_title := "Basics";
            rawch_topics :=
              [ {| raw_title := "First steps"; raw_description := "Start" |};
                {| raw_title := "Next steps"; raw_description := "Go on" |} ] |};
         {| rawch_title := "More";
            rawch_topics :=
              [ {| raw_title := "Last steps"; raw_description := "End" |} ] |} ] |}.

End DisciplineSamples.

Section TranscriptVocabulary.
Import LessonPlayer.

(** A character that is not white space. *)
Definition nonSpace (c : ascii) : bool := negb (Js.isSpace c).

(** The indexes [para.start + wIdx] that the transcript view gives to the
    words of a paragraph. *)
Definition globalIndexes (p : Paragraph) : list nat :=
  map (fun wIdx => (p_start p + wIdx)%nat) (seq 0 (length (words p))).

(** A word as the view expects it: not empty and without white space. *)
Definition properWord (w : string) : Prop :=
  w <> "" /\ Forall (fun c => nonSpace c = true) (Js.chars w).

End TranscriptVocabulary.

Section GenerationVocabulary.
Import Async Retry Service Generation.

(** The world after awaiting a timer of [delay] milliseconds. *)
Definition awaited {S} (delay : Z) (w : World S) : World S :=
  {| ext := ext w; slept := slept w ++ [delay] |}.

(** What the [catch] block of the lesson request throws. *)
Definition lessonTranslated (error : Js.Error) : Js.Error :=
  if Js.messageIncludes "document has no pages" error
  then Js.newError lessonUnreadableMessage
  else if Js.messageIncludes "xhr" error
          || Js.messageIncludes "Rpc failed" error
          || Js.statusIs 500 error
  then Js.newError lessonConnectionMessage
  else error.

(** What the [catch] block of the quiz request throws. *)
Definition quizTranslated (error : Js.Error) : Js.Error :=
  if Js.messageIncludes "xhr" error || Js.messageIncludes "Rpc failed" error
  then Js.newError quizConnectionMessage
  else if Js.messageIncludes "document has no pages" error
  then Js.newError quizPdfMessage
  else error.

(** The bytes [generateLessonAudio] copies out of a decoded binary
    string. *)
Definition bytesOf (binaryString : string) : list byte :=
  map Buffer.u8 (Buffer.charCodes binaryString).

(** Sample failures, responses and platform functions. *)
Definition xhrFailure : Js.Error :=
  {| Js.message := Some "Rpc failed due to xhr error"; Js.status := None |}.

Definition badRequest : Js.Error :=
  {| Js.message := Some "Invalid argument"; Js.status := Some 400 |}.

Definition notBase64 : Js.Error :=
  {| Js.message := Some "The string to be decoded is not correctly encoded.";
     Js.status := None |}.

Definition scriptedGeneration (_ : Generation.Request)
    (script : list (Js.Error + Response))
  : (Js.Error + Response) * list (Js.Error + Response) :=
  scripted forbidden script.

Definition audioResponse (base64Audio : string) : Response :=
  {| text := None;
     candidates :=
       Some [ {| content :=
                   Some {| parts :=
                     Some [ {| inlineData :=
                                 Some {| mimeType := Some "audio/L16";
                                         data := Some base64Audio |} |} ] |} |} ] |}.

(** A stand-in for [atob] that accepts one text, and one for
    [URL.createObjectURL] that leaves the service alone. *)
Definition atobSample (s : string) : Js.Error + string :=
  if String.eqb s "AQID" then inr (String (ascii_of_N 1) (String (ascii_of_N 2)
                                     (String (ascii_of_N 3) "")))
  else inl notBase64.

Definition blobUrl (_ : list byte) (script : list (Js.Error + Response))
  : string * list (Js.Error + Response) :=
  ("blob:lesson-audio", script).

Definition sampleLesson : LessonContent :=
  {| script := "Hello, I am Alex."; visualPrompt := "A diagram";
     keyPoints := ["One"; "Two"; "Three"] |}.

End GenerationVocabulary.

Section GenerationSamples.
Import Async Retry Service Generation.

Definition alexTutor : TutorProfile :=
  {| region := "American"; gender := "Male"; name := "Alex" |}.

Definition amaTutor : TutorProfile :=
  {| region := "African"; gender := "Female"; name := "Ama" |}.

Definition lessonScripted (script : list (Js.Error + Response))
  : (Js.Error + LessonContent) * World (list (Js.Error + Response)) :=
  generateLessonContent scriptedGeneration (fun _ => inr sampleLesson)
    "Cells" "JVBERi0x" alexTutor {| ext := script; slept := [] |}.

Definition quizScripted (script : list (Js.Error + Response))
  : (Js.Error + list QuizView.QuizQuestion)
    * World (list (Js.Error + Response)) :=
  generateQuiz scriptedGeneration (fun _ => inr demoQuiz)
    "Cells" "JVBERi0x" {| ext := script; slept := [] |}.

Definition speechScripted (script : list (Js.Error + Response))
  : (Js.Error + string) * World (list (Js.Error + Response)) :=
  generateLessonAudio scriptedGeneration atobSample blobUrl
    "Hello, I am Alex." alexTutor {| ext := script; slept := [] |}.

End GenerationSamples.

Section QuizInvariantVocabulary.
Import QuizView.

(** What holds of every state the quiz view can reach: the score counts
    at most the questions answered so far, the question shown exists once
    it is answered, and the result view comes only after the answer to the
    last question. *)
Definition quiz_invariant (questions : list QuizQuestion) (st : State)
  : Prop :=
  (score st <= currentIndex st + (if isAnswered st then 1 else 0))%nat
  /\ (currentIndex st + (if isAnswered st then 1 else 0)
      <= length questions)%nat
  /\ (showResult st = true ->
      isAnswered st = true /\ S (currentIndex st) = length questions).

End QuizInvariantVocabulary.

Section UploadVocabulary.
Import Async Service Upload.

(** A file that passes the three checks made before it is read. *)
Definition acceptedFile (file : File) : Prop :=
  file_type file = "application/pdf"
  /\ file_size file <> 0
  /\ file_size file <= 4194304.

(** The message shown for an error thrown by the analysis. *)
Definition analysisErrorMessage (err : Js.Error) : string :=
  if Js.truthy (Js.message err) then default "" (Js.message err)
  else "Failed to analyze PDF. Please ensure it is a valid text-based PDF.".

(** Sample inputs. *)
Definition pdfFile : File :=
  {| file_type := "application/pdf"; file_size := 4194304 |}.

Definition hugeFile : File :=
  {| file_type := "application/pdf"; file_size := 4194305 |}.

Definition textFile : File :=
  {| file_type := "text/plain"; file_size := 12 |}.

Definition emptyFile : File :=
  {| file_type := "application/pdf"; file_size := 0 |}.

Definition freshUpload : Upload.State :=
  {| uploadError := Some "Error reading file."; appState := App.UPLOAD;
     pdfBase64 := None; courseStructure := None |}.

Definition resumingUpload : Upload.State :=
  {| uploadError := None; appState := App.UPLOAD;
     pdfBase64 := None; courseStructure := Some demoOutline |}.

Definition fixedSample (_ : Q) : string := "4.00".

Definition uploadScripted (file : File) (read : ReadOutcome)
    (st : Upload.State) (script : list (Js.Error + Response))
  : (Js.Error + Upload.State) * World (list (Js.Error + Response)) :=
  handleFileUpload scriptedService (parsesTo twoChapters) fixedSample
    file read st {| ext := script; slept := [] |}.

End UploadVocabulary.

Section PlayerVocabulary.
Import LessonPlayer Player.

(** What the audio element and the layout guarantee for an event: the
    position is within the audio, the bar has a width. *)
Definition plausible (e : Event) : Prop :=
  match e with
  | TimeUpdate a =>
      (0 <= currentTime a)%Q
      /\ match audio_duration a with
         | Some total => (currentTime a <= total)%Q
         | None => True
         end
  | Seek _ _ _ width => (0 < width)%Q
  | TogglePlay | Ended | NewAudio => True
  end.

(** What holds of the playback state at any time. *)
Definition player_invariant (st : Player.State) : Prop :=
  (0 <= progress st <= 100)%Q
  /\ (0 <= duration st)%Q
  /\ ((0 < progress st)%Q -> (0 < duration st)%Q).

(** A number below 100 written with two decimal digits. *)
Definition digit (d : Z) : ascii := ascii_of_N (48 + Z.to_N d).

Definition twoDigits (s : Z) : string :=
  String (digit (s / 10)) (String (digit (s mod 10)) "").

(** Sample inputs. *)
Definition halfway : Audio :=
  {| currentTime := 30; audio_duration := Some 60%Q |}.

Definition loading : Audio :=
  {| currentTime := 0; audio_duration := None |}.

End PlayerVocabulary.

Section FeedbackVocabulary.
Import Course Feedback.

(** A rating as the type of a feedback documents it: 1 to 5. *)
Definition validRating (f : Feedback.Feedback) : Prop := 1 <= rating f <= 5.

(** The number of submit events of a run. *)
Definition isSubmit (e : Feedback.Event) : bool :=
  match e with Submit _ => true | _ => false end.

Definition submits (es : list Feedback.Event) : nat :=
  length (filter (fun e => isSubmit e) es).

(** Sample inputs. *)
Definition noon : Clock :=
  {| now := "1700000000000"; isoString := "2023-11-14T22:13:20.000Z" |}.

Definition feedbackStart : Feedback.State :=
  {| modal := emptyModal; feedbacks := []; feedbackModalOpen := false;
     feedbackType := lesson; currentTopic := None |}.

End FeedbackVocabulary.

Section PersistenceVocabulary.
Import Course Storage Persistence LoginScreen.

Definition stateKey (userId : string) : string :=
  STORAGE_KEY_PREFIX +:+ userId.

Definition feedbackKey (userId : string) : string :=
  FEEDBACK_KEY_PREFIX +:+ userId.

(** What the save effect writes for a state, with and without the PDF. *)
Definition savedWhole (st : Persistence.State) : Saved :=
  {| saved_courseStructure := courseStructure st;
     saved_pdfBase64 := pdfBase64 st;
     saved_tutorProfile := Some (tutorProfile st) |}.

Definition savedWithoutPdf (st : Persistence.State) : Saved :=
  {| saved_courseStructure := courseStructure st;
     saved_pdfBase64 := None;
     saved_tutorProfile := Some (tutorProfile st) |}.

(** The course can be continued at once: outline and PDF are both
    there. *)
Definition resumable (st : Persistence.State) : bool :=
  match courseStructure st with Some _ => true | None => false end
  && Js.truthy (pdfBase64 st).

(** The state in which the login screen hands over to [user]: the one
    left by [handleLogout]. *)
Definition loggingIn (user : User) (st0 : Persistence.State)
  : Persistence.State :=
  handleLogin user (handleLogout st0).

(** A string without white space at its ends. *)
Definition trimmed (s : string) : Prop :=
  match Js.chars s with
  | [] => True
  | c :: _ => Js.isSpace c = false
  end
  /\ match rev (Js.chars s) with
     | [] => True
     | c :: _ => Js.isSpace c = false
     end.

(** Sample inputs. *)
Definition ada : User :=
  {| user_id := "1700000000000"; username := "Ada"; avatar := "A";
     user_createdAt := "2023-11-14T22:13:20.000Z" |}.

Definition bob : User :=
  {| user_id := "1700000000001"; username := "Bob"; avatar := "B";
     user_createdAt := "2023-11-14T22:13:20.001Z" |}.

Definition studying : Persistence.State :=
  {| currentUser := Some ada; appState := App.DASHBOARD;
     pdfBase64 := Some "JVBERi0x"; courseStructure := Some demoOutline;
     currentTopic := None; isSidebarOpen := false; uploadError := None;
     tutorProfile := DEFAULT_TUTOR; feedbacks := [] |}.

(** The same with one recorded feedback. *)
Definition praise : Feedback.Feedback :=
  {| Feedback.fb_id := "1700000000002"; Feedback.topicId := "topic-0";
     Feedback.topicTitle := "Topic"; Feedback.fb_type := Feedback.quiz;
     Feedback.rating := 4; Feedback.comment := "Clear";
     Feedback.createdAt := "2023-11-14T22:13:20.002Z" |}.

Definition rated : Persistence.State :=
  {| currentUser := Some ada; appState := App.DASHBOARD;
     pdfBase64 := Some "JVBERi0x"; courseStructure := Some demoOutline;
     currentTopic := None; isSidebarOpen := false; uploadError := None;
     tutorProfile := DEFAULT_TUTOR; feedbacks := [praise] |}.

Definition writeFeedbacks (fs : list Feedback.Feedback) : string :=
  "feedbacks:" +:+ pretty (length fs).

Definition readFeedbacks (text : string)
  : Js.Error + list Feedback.Feedback :=
  if String.eqb text "feedbacks:1" then inr [praise]
  else inl (Js.newError "Unexpected token").

Definition roomy (_ : Store) (_ _ : string) : bool := true.

(** A quota that only lets short values in. *)
Definition tight (_ : Store) (_ value : string) : bool :=
  (String.length value <? 8)%nat.

Definition writeSample (s : Saved) : string :=
  match saved_pdfBase64 s with Some _ => "with-pdf" | None => "no-pdf" end.

Definition readSample (text : string) : Js.Error + Saved :=
  if String.eqb text "with-pdf" then inr (savedWhole studying)
  else inr (savedWithoutPdf studying).

Definition writeUsers (us : list User) : string :=
  "users:" +:+ pretty (length us).

End PersistenceVocabulary.

(* ================================================================== *)
(** * Properties of [pcmToWav]                                         *)
(* ================================================================== *)

Section WavProperties.
Import Buffer Wav.

Lemma byte_val_u8 (z : Z) : byte_val (u8 z) = z mod 256.
Proof.
  unfold byte_val, u8.
  assert (Hr : 0 <= z mod 256 < 256) by (apply Z.mod_pos_bound; lia).
  destruct (Byte.of_N (Z.to_N (z mod 256))) as [b|] eqn:Hb.
  - apply Byte.to_of_N in Hb. rewrite Hb. lia.
  - apply Byte.of_N_None_iff in Hb. lia.
Qed.

Lemma byte_val_range (b : byte) : 0 <= byte_val b < 256.
Proof.
  unfold byte_val. pose proof (Byte.to_N_bounded b). lia.
Qed.

Lemma headerBytes_length (R n : Z) : length (headerBytes R n) = 44%nat.
Proof. reflexivity. Qed.

Lemma writeHeader_spec (R n : Z) (rest : list byte) :
  writeHeader R n (replicate 44 x00 ++ rest) = Some (headerBytes R n ++ rest).
Proof.
  unfold writeHeader, headerBytes, le32, le16.
  cbn -[Z.modulo Z.shiftr Z.pow Z.add Z.mul Z.div u8].
  reflexivity.
Qed.

(** The produced container, for every buffer and every integral rate. *)
Lemma pcmToWav_spec (B : list byte) (R : Z) :
  pcmToWav B R = Some (headerBytes R (Z.of_nat (length B)) ++ B).
Proof.
  unfold pcmToWav, ArrayBuffer.
  rewrite replicate_add, writeHeader_spec. cbn [mbind option_bind].
  unfold setFrom.
  rewrite length_app, headerBytes_length, length_replicate.
  replace ((44 <=? 44 + length B)%nat) with true
    by (symmetry; apply Nat.leb_le; lia).
  replace ((length B <=? 44 + length B - 44)%nat) with true
    by (symmetry; apply Nat.leb_le; lia).
  cbn [andb]. f_equal.
  rewrite (take_app_length' (headerBytes R (Z.of_nat (length B))) _ 44
             (headerBytes_length R (Z.of_nat (length B)))).
  rewrite drop_ge by (rewrite length_app, headerBytes_length, length_replicate; lia).
  by rewrite app_nil_r.
Qed.

(** Two samples' worth of bytes at the default rate: 24000 is [C0 5D 00 00]
    and the byte rate 48000 is [80 BB 00 00]. *)
Example pcmToWav_two_bytes :
  pcmToWav_default [x01; x02]
  = Some (map u8
            [82; 73; 70; 70;  38; 0; 0; 0;  87; 65; 86; 69;
             102; 109; 116; 32;  16; 0; 0; 0;  1; 0;  1; 0;
             192; 93; 0; 0;  128; 187; 0; 0;  2; 0;  16; 0;
             100; 97; 116; 97;  2; 0; 0; 0]
          ++ [x01; x02]).
Proof. vm_compute. reflexivity. Qed.

Lemma le32_value (w : Z) :
  0 <= w < 2 ^ 32 ->
  w mod 256 + 2 ^ 8 * (Z.shiftr w 8 mod 256)
  + 2 ^ 16 * (Z.shiftr w 16 mod 256) + 2 ^ 24 * (Z.shiftr w 24 mod 256) = w.
Proof.
  intros Hw. rewrite !Z.shiftr_div_pow2 by lia.
  change (2 ^ 8) with 256. change (2 ^ 16) with 65536.
  change (2 ^ 24) with 16777216. change (2 ^ 32) with 4294967296 in Hw.
  pose proof (Z.div_mod w 256 ltac:(lia)).
  pose proof (Z.mod_pos_bound w 256 ltac:(lia)).
  pose proof (Z.div_mod (w / 256) 256 ltac:(lia)).
  pose proof (Z.mod_pos_bound (w / 256) 256 ltac:(lia)).
  pose proof (Z.div_mod (w / 65536) 256 ltac:(lia)).
  pose proof (Z.mod_pos_bound (w / 65536) 256 ltac:(lia)).
  replace (w / 65536) with (w / 256 / 256) in *
    by (rewrite Z.div_div by lia; reflexivity).
  replace (w / 16777216) with (w / 256 / 256 / 256)
    by (rewrite !Z.div_div by lia; reflexivity).
  assert (0 <= w / 256 / 256 / 256 < 256).
  { split; [repeat apply Z.div_pos; lia|].
    repeat (apply Z.div_lt_upper_bound; [lia|]). lia. }
  rewrite (Z.mod_small (w / 256 / 256 / 256)) by lia.
  lia.
Qed.

Lemma le16_value (w : Z) :
  0 <= w < 2 ^ 16 ->
  w mod 256 + 2 ^ 8 * (Z.shiftr w 8 mod 256) = w.
Proof.
  intros Hw. rewrite Z.shiftr_div_pow2 by lia.
  change (2 ^ 8) with 256. change (2 ^ 16) with 65536 in Hw.
  pose proof (Z.div_mod w 256 ltac:(lia)).
  assert (0 <= w / 256 < 256).
  { split; [apply Z.div_pos; lia|apply Z.div_lt_upper_bound; lia]. }
  rewrite (Z.mod_small (w / 256)) by lia.
  lia.
Qed.

(** Reading back a 32-bit field that starts at [length pre]. *)
Lemma getUint32_le32 (pre post : list byte) (v : Z) :
  getUint32 (length pre) (pre ++ le32 v ++ post) = Some (v mod 2 ^ 32).
Proof.
  unfold getUint32.
  rewrite (lookup_app_r pre _ (length pre)) by lia.
  rewrite (lookup_app_r pre _ (length pre + 1)) by lia.
  rewrite (lookup_app_r pre _ (length pre + 2)) by lia.
  rewrite (lookup_app_r pre _ (length pre + 3)) by lia.
  replace (length pre - length pre)%nat with 0%nat by lia.
  replace (length pre + 1 - length pre)%nat with 1%nat by lia.
  replace (length pre + 2 - length pre)%nat with 2%nat by lia.
  replace (length pre + 3 - length pre)%nat with 3%nat by lia.
  cbn [le32 app lookup list_lookup].
  rewrite !byte_val_u8. f_equal.
  apply le32_value, Z.mod_pos_bound. lia.
Qed.

Lemma getUint16_le16 (pre post : list byte) (v : Z) :
  getUint16 (length pre) (pre ++ le16 v ++ post) = Some (v mod 2 ^ 16).
Proof.
  unfold getUint16.
  rewrite (lookup_app_r pre _ (length pre)) by lia.
  rewrite (lookup_app_r pre _ (length pre + 1)) by lia.
  replace (length pre - length pre)%nat with 0%nat by lia.
  replace (length pre + 1 - length pre)%nat with 1%nat by lia.
  cbn [le16 app lookup list_lookup].
  rewrite !byte_val_u8. f_equal.
  apply le16_value, Z.mod_pos_bound. lia.
Qed.

Ltac read_field :=
  unfold headerBytes, getUint32, getUint16, le32, le16;
  cbn -[Z.modulo Z.shiftr Z.pow Z.add Z.mul Z.div u8 byte_val];
  rewrite !byte_val_u8; f_equal.

(** What each header field reads back as, for every rate and size. *)
Lemma header_fields (R n : Z) (B : list byte) :
  let wav := headerBytes R n ++ B in
  getUint32 4 wav = Some ((36 + n) mod 2 ^ 32)
  /\ getUint16 20 wav = Some 1
  /\ getUint16 22 wav = Some 1
  /\ getUint32 24 wav = Some (R mod 2 ^ 32)
  /\ getUint32 28 wav = Some ((R * 2) mod 2 ^ 32)
  /\ getUint16 32 wav = Some 2
  /\ getUint16 34 wav = Some 16
  /\ getUint32 40 wav = Some (n mod 2 ^ 32).
Proof.
  assert (Hrate : R * numChannels * bitsPerSample / 8 = R * 2).
  { unfold numChannels, bitsPerSample.
    replace (R * 1 * 16) with (R * 2 * 8) by lia.
    apply Z.div_mul. lia. }
  cbv zeta.
  (* the 16-bit fields hold constants and are closed by computation *)
  repeat split.
  - read_field. apply le32_value, Z.mod_pos_bound. lia.
  - read_field. apply le32_value, Z.mod_pos_bound. lia.
  - unfold headerBytes. rewrite Hrate.
    read_field. apply le32_value, Z.mod_pos_bound. lia.
  - read_field. apply le32_value, Z.mod_pos_bound. lia.
Qed.

Lemma header_tags (R n : Z) (B : list byte) :
  let wav := headerBytes R n ++ B in
  tagAt 0 "RIFF" wav && tagAt 8 "WAVE" wav
  && tagAt 12 "fmt " wav && tagAt 36 "data" wav = true.
Proof. reflexivity. Qed.

(** Decoding the produced container, for every rate and size: the rate
    and the size come back reduced modulo [2 ^ 32]. *)
Lemma decodeWav_header (R n : Z) (B : list byte) :
  n mod 2 ^ 32 <= Z.of_nat (length B) ->
  decodeWav (headerBytes R n ++ B)
  = Some (take (Z.to_nat (n mod 2 ^ 32)) B, R mod 2 ^ 32).
Proof.
  intros Hn. unfold decodeWav.
  rewrite (header_tags R n B).
  destruct (header_fields R n B) as (_ & Hfmt & _ & Hrate & _ & _ & _ & Hsize).
  cbv zeta in Hfmt, Hrate, Hsize. rewrite Hfmt, Hrate, Hsize.
  cbn [mbind option_bind]. rewrite length_app, headerBytes_length.
  replace (n mod 2 ^ 32 <=? Z.of_nat (44 + length B) - 44) with true
    by (symmetry; apply Z.leb_le; lia).
  cbn [Z.eqb Pos.eqb andb].
  rewrite (drop_app_length' (headerBytes R n) B 44 (headerBytes_length R n)).
  reflexivity.
Qed.

(** C1 (as amended): for every PCM buffer [B] and every integral sample
    rate [R] such that the values fit their 32-bit fields
    ([0 <= R], [2 * R < 2 ^ 32] and [36 + |B| < 2 ^ 32]), [pcmToWav]
    produces exactly 44 header bytes followed by [B] unchanged; the
    header holds, little-endian, [36 + |B|] at offset 4, channel count 1
    at 22, [R] at 24, byte rate [R * 2] at 28, block alignment 2 at 32,
    16 bits per sample at 34 and [|B|] at 40; and decoding the container
    gives back [B] and [R]. *)
Theorem pcmToWav_container (B : list byte) (R : Z) :
  0 <= R ->
  2 * R < 2 ^ 32 ->
  36 + Z.of_nat (length B) < 2 ^ 32 ->
  container_layout B R.
Proof.
  intros HR0 HR Hlen.
  set (n := Z.of_nat (length B)) in *.
  exists (headerBytes R n), (headerBytes R n ++ B).
  destruct (header_fields R n B)
    as (Hriff & _ & Hch & Hrate & Hbyte & Halign & Hbits & Hsize).
  cbv zeta in *.
  assert (Hn : n mod 2 ^ 32 = n) by (apply Z.mod_small; lia).
  rewrite Z.mod_small in Hriff by lia.
  rewrite Z.mod_small in Hrate by lia.
  rewrite Z.mod_small in Hbyte by lia.
  rewrite Hn in Hsize.
  repeat split; try assumption.
  - apply pcmToWav_spec.
  - rewrite decodeWav_header by lia.
    rewrite Hn, Z.mod_small by lia.
    unfold n. rewrite Nat2Z.id, firstn_all. reflexivity.
Qed.

Lemma pcmToWav_container_witness : container_layout [x01; x02; x03; x04] 24000.
Proof.
  apply (pcmToWav_container [x01; x02; x03; x04] 24000); simpl; lia.
Defined.

(** C1 as stated fails where a value does not fit its field: at the rate
    [2 ^ 31] the byte-rate field at offset 28 holds 0, not [2 ^ 32]. *)
Lemma pcmToWav_byte_rate_wraps :
  (exists wav, pcmToWav [] (2 ^ 31) = Some wav
               /\ getUint32 28 wav = Some 0)
  /\ ~ container_layout [] (2 ^ 31).
Proof.
  split.
  - eexists. split; [vm_compute; reflexivity|]. vm_compute. reflexivity.
  - intros (header & wav & Hwav & _ & _ & _ & _ & _ & Hbyte & _).
    vm_compute in Hwav. injection Hwav as <-.
    vm_compute in Hbyte. discriminate Hbyte.
Qed.

End WavProperties.

(* ================================================================== *)
(** * Properties of [handleQuizFinish]                                 *)
(* ================================================================== *)

Section Progression.
Import Course App.

Lemma flat_map_topics_map (f : Topic -> Topic) (chs : list Chapter) :
  flat_map topics
    (map (fun ch => {| ch_id := ch_id ch; ch_title := ch_title ch;
                       topics := map f (topics ch) |}) chs)
  = map f (flat_map topics chs).
Proof.
  induction chs as [|ch chs IH]; [reflexivity|].
  cbn [map flat_map topics]. by rewrite IH, map_app.
Qed.

Lemma findIndexFrom_first {A} (p : A -> bool) (l : list A) (k : nat) (x : A) :
  l !! k = Some x ->
  p x = true ->
  (forall j y, (j < k)%nat -> l !! j = Some y -> p y = false) ->
  forall i, findIndexFrom p i l = i + Z.of_nat k.
Proof.
  revert k. induction l as [|a l IH]; intros k Hk Hp Hbefore i.
  - discriminate Hk.
  - destruct k as [|k]; cbn [findIndexFrom].
    + injection Hk as ->. rewrite Hp. lia.
    + rewrite (Hbefore 0%nat a) by (lia || reflexivity).
      rewrite (IH k Hk Hp).
      * lia.
      * intros j y Hj Hy. apply (Hbefore (S j) y); [lia|exact Hy].
Qed.

Lemma findIndexFrom_absent {A} (p : A -> bool) (l : list A) :
  (forall y, y ∈ l -> p y = false) ->
  forall i, findIndexFrom p i l = -1.
Proof.
  induction l as [|a l IH]; intros Hall i; [reflexivity|].
  cbn [findIndexFrom]. rewrite (Hall a) by left.
  apply IH. intros y Hy. apply Hall. by right.
Qed.

Lemma at_nat {A} (l : list A) (n : nat) : at_ l (Z.of_nat n) = l !! n.
Proof.
  unfold at_. destruct (Z.ltb_spec (Z.of_nat n) 0); [lia|].
  by rewrite Nat2Z.id.
Qed.

(** Identifiers tell the positions of a duplicate-free list apart. *)
Lemma id_lookup_inj (l : list Topic) (i j : nat) (u v : Topic) :
  NoDup (map id l) ->
  l !! i = Some u -> l !! j = Some v -> id u = id v -> i = j.
Proof.
  intros Hnd Hi Hj Hid.
  apply (NoDup_lookup (map id l) i j (id u)); [exact Hnd| |].
  - change (map id l) with (id <$> l). by rewrite list_lookup_fmap, Hi.
  - change (map id l) with (id <$> l). by rewrite list_lookup_fmap, Hj, Hid.
Qed.

(** The outline after a passed quiz, whatever the current topic is. *)
Lemma handleQuizFinish_true (st : State) (cs : CourseStructure) (cur : Topic) :
  courseStructure st = Some cs ->
  currentTopic st = Some cur ->
  let next :=
    at_ (allTopics cs)
        (findIndex (fun t => String.eqb (id t) (id cur)) (allTopics cs) + 1) in
  exists cs',
    courseStructure (handleQuizFinish true st) = Some cs'
    /\ cs_title cs' = cs_title cs
    /\ summary cs' = summary cs
    /\ map ch_id (chapters cs') = map ch_id (chapters cs)
    /\ map ch_title (chapters cs') = map ch_title (chapters cs)
    /\ map (fun ch => length (topics ch)) (chapters cs')
       = map (fun ch => length (topics ch)) (chapters cs)
    /\ allTopics cs' = map (updateTopic cur next) (allTopics cs).
Proof.
  intros Hcs Hcur next. unfold handleQuizFinish. rewrite Hcs, Hcur.
  eexists. split; [reflexivity|]. cbn [courseStructure cs_title summary chapters].
  repeat split.
  - rewrite map_map. reflexivity.
  - rewrite map_map. reflexivity.
  - rewrite map_map. apply map_ext. intros ch. cbn [topics].
    apply length_map.
  - unfold allTopics, allTopicsOf. cbn [chapters].
    apply flat_map_topics_map.
Qed.

Lemma updateTopic_advanced (cs : CourseStructure) (cur t : Topic) (k : nat) :
  NoDup (map id (allTopics cs)) ->
  allTopics cs !! k = Some t ->
  id t = id cur ->
  forall i u, allTopics cs !! i = Some u ->
    updateTopic cur (allTopics cs !! S k) u = advanced k i u.
Proof.
  intros Hnd Hk Hid i u Hi. unfold updateTopic, advanced.
  destruct (decide (i = k)) as [->|Hik].
  - rewrite Hk in Hi. injection Hi as <-.
    rewrite Hid, String.eqb_refl. reflexivity.
  - destruct (String.eqb_spec (id u) (id cur)) as [Heq|_].
    { exfalso. apply Hik.
      apply (id_lookup_inj _ i k u t Hnd Hi Hk). congruence. }
    destruct (decide (i = S k)) as [->|HiS].
    + rewrite Hi, String.eqb_refl. reflexivity.
    + destruct (allTopics cs !! S k) as [n|] eqn:Hn; [|reflexivity].
      destruct (String.eqb_spec (id u) (id n)) as [Heq|_]; [|reflexivity].
      exfalso. apply HiS. exact (id_lookup_inj _ i (S k) u n Hnd Hi Hn Heq).
Qed.

(** C2: for an outline with unique topic identifiers and the topic at
    flattened position [k], advancing on its identifier with
    [passed = true] completes exactly that topic, clears the locked flag
    of the topic at position [k + 1] when there is one, and changes no
    other topic; for the last topic no locked flag changes. *)
Theorem handleQuizFinish_pass
  (st : State) (cs : CourseStructure) (cur t : Topic) (k : nat) :
  courseStructure st = Some cs ->
  currentTopic st = Some cur ->
  NoDup (map id (allTopics cs)) ->
  allTopics cs !! k = Some t ->
  id t = id cur ->
  exists cs',
    courseStructure (handleQuizFinish true st) = Some cs'
    /\ advanced_outline k cs cs'.
Proof.
  intros Hcs Hcur Hnd Hk Hid.
  destruct (handleQuizFinish_true st cs cur Hcs Hcur)
    as (cs' & Hres & Htitle & Hsum & Hids & Htitles & Hlens & Hall).
  assert (Hidx : findIndex (fun t => String.eqb (id t) (id cur)) (allTopics cs)
                 = Z.of_nat k).
  { unfold findIndex.
    rewrite (findIndexFrom_first _ _ k t Hk); [lia|by rewrite Hid, String.eqb_refl|].
    intros j y Hj Hy. destruct (String.eqb_spec (id y) (id cur)) as [Heq|]; [|done].
    exfalso. assert (j = k); [|lia].
    apply (id_lookup_inj _ j k y t Hnd Hy Hk). congruence. }
  rewrite Hidx in Hall.
  replace (Z.of_nat k + 1) with (Z.of_nat (S k)) in Hall by lia.
  rewrite at_nat in Hall.
  exists cs'. split; [exact Hres|].
  assert (Hpos : forall i u, allTopics cs !! i = Some u ->
            exists v, allTopics cs' !! i = Some v /\ advanced_topic k i u v).
  { intros i u Hi. exists (advanced k i u). split.
    - rewrite Hall.
      change (map ?f ?l) with (f <$> l). rewrite list_lookup_fmap, Hi.
      cbn [fmap option_fmap option_map]. f_equal.
      exact (updateTopic_advanced cs cur t k Hnd Hk Hid i u Hi).
    - unfold advanced_topic, advanced, complete, unlock.
      destruct (decide (i = k)) as [->|Hik].
      + rewrite decide_False by lia. by cbn.
      + destruct (decide (i = S k)); by cbn. }
  unfold advanced_outline.
  split; [exact Htitle|]. split; [exact Hsum|]. split; [exact Hids|].
  split; [exact Htitles|]. split; [exact Hlens|].
  split; [rewrite Hall; apply length_map|].
  split.
  { destruct (Hpos k t Hk) as (v & Hv & _ & _ & _ & Hc & _).
    exists v. split; [exact Hv|]. by rewrite Hc, decide_True. }
  split.
  { intros n Hn. destruct (Hpos (S k) n Hn) as (v & Hv & _ & _ & _ & _ & Hl).
    exists v. split; [exact Hv|]. by rewrite Hl, decide_True. }
  split; [exact Hpos|].
  intros Hlast. rewrite Hall, map_map.
    rewrite (lookup_ge_None_2 (allTopics cs) (S k)) by lia.
    apply map_ext. intros u. unfold updateTopic.
    destruct (String.eqb (id u) (id cur)); reflexivity.
Qed.

(** C7: with [passed = false] the outline (and the current topic) is
    left exactly as it was. *)
Theorem handleQuizFinish_fail (st : State) :
  courseStructure (handleQuizFinish false st) = courseStructure st
  /\ currentTopic (handleQuizFinish false st) = currentTopic st.
Proof.
  unfold handleQuizFinish.
  destruct (courseStructure st) as [cs|] eqn:Hcs;
    destruct (currentTopic st) as [cur|] eqn:Hcur; cbn; auto.
Qed.

(** C10: when the current topic's identifier does not occur in the
    outline, advancing with [passed = true] completes no topic and
    clears the locked flag of the first topic in flattened order (the
    missing identifier gives index [-1], so position 0 is taken as the
    next topic); topics with another identifier than the first are
    left as they were. *)
Theorem handleQuizFinish_unknown_topic
  (st : State) (cs : CourseStructure) (cur : Topic) :
  courseStructure st = Some cs ->
  currentTopic st = Some cur ->
  (forall t, t ∈ allTopics cs -> id t <> id cur) ->
  exists cs',
    courseStructure (handleQuizFinish true st) = Some cs'
    /\ findIndex (fun t => String.eqb (id t) (id cur)) (allTopics cs) = -1
    /\ length (allTopics cs') = length (allTopics cs)
    /\ map isCompleted (allTopics cs') = map isCompleted (allTopics cs)
    /\ (forall first, allTopics cs !! 0%nat = Some first ->
          allTopics cs' !! 0%nat = Some (unlock first))
    /\ (forall first i u,
          allTopics cs !! 0%nat = Some first ->
          allTopics cs !! i = Some u ->
          id u <> id first ->
          allTopics cs' !! i = Some u).
Proof.
  intros Hcs Hcur Habsent.
  destruct (handleQuizFinish_true st cs cur Hcs Hcur)
    as (cs' & Hres & _ & _ & _ & _ & _ & Hall).
  assert (Hidx : findIndex (fun t => String.eqb (id t) (id cur)) (allTopics cs)
                 = -1).
  { apply findIndexFrom_absent. intros y Hy.
    apply String.eqb_neq. by apply Habsent. }
  rewrite Hidx in Hall. change (-1 + 1) with (Z.of_nat 0) in Hall.
  rewrite at_nat in Hall.
  assert (Hupd : forall u, u ∈ allTopics cs ->
            updateTopic cur (allTopics cs !! 0%nat) u
            = match allTopics cs !! 0%nat with
              | Some first =>
                  if String.eqb (id u) (id first) then unlock u else u
              | None => u
              end).
  { intros u Hu. unfold updateTopic.
    destruct (String.eqb_spec (id u) (id cur)) as [Heq|_]; [|reflexivity].
    by destruct (Habsent u Hu). }
  exists cs'. split; [exact Hres|]. split; [exact Hidx|].
  rewrite Hall. repeat split.
  - apply length_map.
  - rewrite map_map. apply map_ext_in. intros u Hu.
    rewrite Hupd by (by apply list_elem_of_In).
    destruct (allTopics cs !! 0%nat) as [first|]; [|reflexivity].
    destruct (String.eqb (id u) (id first)); reflexivity.
  - intros first Hfirst.
    change (map ?f ?l) with (f <$> l). rewrite list_lookup_fmap, Hfirst.
    cbn [fmap option_fmap option_map]. f_equal.
    rewrite <- Hfirst at 1.
    rewrite Hupd by (apply list_elem_of_lookup; eauto).
    rewrite Hfirst, String.eqb_refl. reflexivity.
  - intros first i u Hfirst Hi Hne.
    change (map ?f ?l) with (f <$> l). rewrite list_lookup_fmap, Hi.
    cbn [fmap option_fmap option_map]. f_equal.
    rewrite Hupd by (apply list_elem_of_lookup; eauto).
    rewrite Hfirst.
    by destruct (String.eqb_spec (id u) (id first)).
Qed.

Lemma handleQuizFinish_pass_witness :
  flags (Some demoOutline) = [(false, false); (false, true); (false, true)]
  /\ flags (courseStructure
              (handleQuizFinish true (demoState (demoTopic 1 true))))
     = [(false, false); (true, true); (false, false)]
  /\ exists cs',
       courseStructure (handleQuizFinish true (demoState (demoTopic 1 true)))
       = Some cs'
       /\ advanced_outline 1 demoOutline cs'.
Proof.
  split; [reflexivity|]. split; [reflexivity|].
  apply (handleQuizFinish_pass (demoState (demoTopic 1 true)) demoOutline
           (demoTopic 1 true) (demoTopic 1 true) 1).
  - reflexivity.
  - reflexivity.
  - apply (bool_decide_unpack _). vm_compute. exact I.
  - reflexivity.
  - reflexivity.
Defined.

Lemma handleQuizFinish_unknown_topic_witness :
  exists cs',
    courseStructure (handleQuizFinish true ghostState) = Some cs'
    /\ map isLocked (allTopics lockedOutline) = [true; true; true]
    /\ map isCompleted (allTopics cs') = [false; false; false]
    /\ map isLocked (allTopics cs') = [false; true; true].
Proof.
  destruct (handleQuizFinish_unknown_topic ghostState lockedOutline
              ghostTopic eq_refl eq_refl) as (cs' & Hres & _).
  - apply Forall_forall. apply (bool_decide_unpack _). vm_compute. exact I.
  - exists cs'. split; [exact Hres|].
    vm_compute in Hres. injection Hres as <-. repeat split.
Defined.

(** One chapter with three topics, passed in order. *)

Example three_topics_scenario :
  flags (Some threeTopics) = [(false, false); (false, true); (false, true)]
  /\ flags (passTopic 0 (Some threeTopics))
     = [(true, false); (false, false); (false, true)]
  /\ flags (passTopic 1 (passTopic 0 (Some threeTopics)))
     = [(true, false); (true, false); (false, false)]
  /\ flags (passTopic 2 (passTopic 1 (passTopic 0 (Some threeTopics))))
     = [(true, false); (true, false); (true, false)].
Proof. repeat split; vm_compute; reflexivity. Qed.

End Progression.

(* ================================================================== *)
(** * Properties of the outline built by [analyzePdfStructure]         *)
(* ================================================================== *)

Section InitialOutline.
Import Course Service.

Lemma topicId_inj (a b : nat) : topicId a = topicId b -> a = b.
Proof.
  unfold topicId. cbn [String.append]. intros H.
  injection H as H. by apply (inj pretty).
Qed.

Lemma chapterId_inj (a b : nat) : chapterId a = chapterId b -> a = b.
Proof.
  unfold chapterId. cbn [String.append]. intros H.
  injection H as H. by apply (inj pretty).
Qed.

Lemma NoDup_map_seq (f : nat -> string) (start len : nat) :
  (forall a b, f a = f b -> a = b) -> NoDup (map f (seq start len)).
Proof.
  intros Hinj. change (map f (seq start len)) with (f <$> seq start len).
  apply NoDup_fmap_2; [intros a b; apply Hinj|apply NoDup_seq].
Qed.

Lemma map_seq_const {A} (x : A) (start len : nat) :
  map (fun _ => x) (seq start len) = replicate len x.
Proof.
  revert start. induction len as [|n IH]; intros start; [reflexivity|].
  cbn [seq map replicate]. by rewrite IH.
Qed.

Lemma mapTopics_spec (cIdx tIdx counter : nat) (ts : list RawTopic) :
  let r := mapTopics cIdx tIdx counter ts in
  snd r = (counter + length ts)%nat
  /\ length (fst r) = length ts
  /\ map id (fst r) = map topicId (seq counter (length ts))
  /\ map isCompleted (fst r) = replicate (length ts) false
  /\ map isLocked (fst r)
     = map (fun j => negb ((cIdx =? 0) && (j =? 0))%nat) (seq tIdx (length ts)).
Proof.
  revert tIdx counter. induction ts as [|t ts IH]; intros tIdx counter.
  - cbn. repeat split; lia.
  - cbn [mapTopics].
    specialize (IH (S tIdx) (S counter)). cbv zeta in IH.
    destruct (mapTopics cIdx (S tIdx) (S counter) ts) as [rest' counter'].
    cbn [fst snd] in *.
    destruct IH as (Hc & Hlen & Hid & Hdone & Hlock).
    cbn [length map seq replicate id isCompleted isLocked].
    rewrite Hlen, Hid, Hdone, Hlock.
    repeat split; (lia || reflexivity).
Qed.

Lemma mapChapters_ids (cIdx counter : nat) (chs : list RawChapter) :
  map ch_id (mapChapters cIdx counter chs)
  = map chapterId (seq cIdx (length chs)).
Proof.
  revert cIdx counter. induction chs as [|ch chs IH]; intros cIdx counter.
  - reflexivity.
  - cbn [mapChapters].
    destruct (mapTopics cIdx 0 counter (rawch_topics ch)) as [ts counter'].
    cbn [map length seq ch_id]. by rewrite IH.
Qed.

Lemma mapChapters_topics (cIdx counter : nat) (chs : list RawChapter) :
  let all := allTopicsOf (mapChapters cIdx counter chs) in
  length all = rawTopicCount chs
  /\ map id all = map topicId (seq counter (rawTopicCount chs))
  /\ map isCompleted all = replicate (rawTopicCount chs) false.
Proof.
  revert cIdx counter. induction chs as [|ch chs IH]; intros cIdx counter.
  - cbn. auto.
  - cbn [mapChapters].
    destruct (mapTopics_spec cIdx 0 counter (rawch_topics ch))
      as (Hc & Hlen & Hid & Hdone & _). cbv zeta in *.
    destruct (mapTopics cIdx 0 counter (rawch_topics ch)) as [ts counter'].
    cbn [fst snd] in *. subst counter'.
    destruct (IH (S cIdx) (counter + length (rawch_topics ch))%nat)
      as (IHlen & IHid & IHdone).
    unfold allTopicsOf, rawTopicCount in *.
    cbn [flat_map topics].
    rewrite !map_app, !length_app, seq_app, map_app, replicate_add.
    rewrite Hlen, Hid, Hdone, IHlen, IHid, IHdone. auto.
Qed.

(** Chapters after the first have all their topics locked. *)
Lemma mapChapters_locked_later (cIdx counter : nat) (chs : list RawChapter) :
  (0 < cIdx)%nat ->
  map isLocked (allTopicsOf (mapChapters cIdx counter chs))
  = replicate (rawTopicCount chs) true.
Proof.
  revert cIdx counter. induction chs as [|ch chs IH]; intros cIdx counter Hpos.
  - reflexivity.
  - cbn [mapChapters].
    destruct (mapTopics_spec cIdx 0 counter (rawch_topics ch))
      as (_ & Hlen & _ & _ & Hlock). cbv zeta in *.
    destruct (mapTopics cIdx 0 counter (rawch_topics ch)) as [ts counter'].
    cbn [fst snd] in *.
    unfold allTopicsOf, rawTopicCount in *. cbn [flat_map topics].
    rewrite map_app, length_app, replicate_add, Hlock, (IH (S cIdx)) by lia.
    f_equal.
    destruct cIdx as [|c]; [lia|]. cbn [Nat.eqb andb negb].
    apply map_seq_const.
Qed.

Lemma map_seq_nonzero (start len : nat) :
  map (fun j => negb ((0 =? 0) && (j =? 0))%nat) (seq (S start) len)
  = replicate len true.
Proof.
  revert start. induction len as [|n IH]; intros start; [reflexivity|].
  cbn [seq map replicate]. rewrite (IH (S start)). reflexivity.
Qed.

(** The part of the initial-state rule that holds for every accepted
    response: chapter identifiers [ch-0, ch-1, ...] in input order, topic
    identifiers [topic-0, topic-1, ...] in flattened order, all of them
    distinct, no topic completed; and, when the first chapter has a topic,
    that topic is the only unlocked one. *)
Lemma addIds_initial_state (rawData : RawCourse) :
  let out := addIds rawData in
  let N := rawTopicCount (raw_chapters rawData) in
  map ch_id (chapters out)
  = map chapterId (seq 0 (length (raw_chapters rawData)))
  /\ length (allTopics out) = N
  /\ map id (allTopics out) = map topicId (seq 0 N)
  /\ NoDup (map ch_id (chapters out))
  /\ NoDup (map id (allTopics out))
  /\ map isCompleted (allTopics out) = replicate N false
  /\ (forall ch rest,
        raw_chapters rawData = ch :: rest ->
        rawch_topics ch <> [] ->
        map isLocked (allTopics out) = false :: replicate (N - 1) true).
Proof.
  cbv zeta. unfold addIds, allTopics. cbn [chapters].
  destruct (mapChapters_topics 0 0 (raw_chapters rawData)) as (Hlen & Hid & Hdone).
  cbv zeta in *.
  rewrite mapChapters_ids, Hlen, Hid, Hdone.
  repeat split; try reflexivity.
  - apply NoDup_map_seq, chapterId_inj.
  - apply NoDup_map_seq, topicId_inj.
  - intros ch rest Hraw Hne. rewrite Hraw. cbn [mapChapters].
    destruct (mapTopics_spec 0 0 0 (rawch_topics ch))
      as (_ & Hl & _ & _ & Hlock). cbv zeta in *.
    destruct (mapTopics 0 0 0 (rawch_topics ch)) as [ts counter'].
    cbn [fst snd] in *.
    unfold allTopicsOf, rawTopicCount. cbn [flat_map topics].
    rewrite map_app, Hlock, (mapChapters_locked_later 1) by lia.
    rewrite length_app.
    destruct (rawch_topics ch) as [|t ts0]; [done|].
    cbn [length seq map Nat.eqb andb negb app].
    rewrite map_seq_nonzero, <- replicate_add. do 2 f_equal.
    unfold rawTopicCount. lia.
Qed.

(** C3 at a response whose first chapter is empty: [analyzePdfStructure]
    accepts it and returns an outline with one topic, [topic-0], not
    completed, and locked; no topic is unlocked (the test
    [cIdx === 0 && tIdx === 0] is never true). *)
Theorem analyzePdfStructure_empty_first_chapter :
  exists out,
    fst (analyzePdfStructure answering (parsesTo emptyFirstChapter) "JVBERi0x"
           {| Async.ext := tt; Async.slept := [] |}) = inr out
    /\ map ch_id (chapters out) = ["ch-0"; "ch-1"]
    /\ map id (allTopics out) = ["topic-0"]
    /\ map isCompleted (allTopics out) = [false]
    /\ map isLocked (allTopics out) = [true]
    /\ filter (fun t => negb (isLocked t)) (allTopics out) = [].
Proof.
  eexists. split; [vm_compute; reflexivity|].
  repeat split.
Qed.

End InitialOutline.

(* ================================================================== *)
(** * Properties of [withRetry]                                        *)
(* ================================================================== *)

Section RetryProperties.
Import Async Retry.

Lemma withRetry_succ {S T} (operation : Async S T) (r : nat) (d : Z)
    (w : World S) :
  withRetry operation (Datatypes.S r) d w
  = match operation w with
    | (inr v, w') => (inr v, w')
    | (inl e, w') =>
        if transient e
        then withRetry operation r (d * 2)
               {| ext := ext w'; slept := slept w' ++ [d] |}
        else (inl e, w')
    end.
Proof.
  cbn [withRetry]. unfold tryCatch, transient.
  destruct (operation w) as [[e|v] w']; [|reflexivity].
  destruct (isNetworkError e || isServerError e); reflexivity.
Qed.

Lemma withRetry_zero {S T} (operation : Async S T) (d : Z) (w : World S) :
  withRetry operation 0 d w = operation w.
Proof.
  cbn [withRetry]. unfold tryCatch.
  by destruct (operation w) as [[e|v] w'].
Qed.

Lemma extern_run {S T} (op : S -> (Js.Error + T) * S) (s s' : S)
    (r : Js.Error + T) (sl : list Z) :
  op s = (r, s') ->
  extern op {| ext := s; slept := sl |} = (r, {| ext := s'; slept := sl |}).
Proof. intros H. unfold extern. cbn [ext slept]. by rewrite H. Qed.

(** C4 (as amended): with the default budget, where a failure is
    transient when its message contains [xhr], [fetch] or [NetworkError]
    or its status is exactly 500 or 503: (a) an operation that fails twice
    with a transient error and then succeeds gives the success value after
    exactly two retries, with delays 1000 and 2000; (b) a failure that is
    not transient is propagated as it is, at once, with no retry; (c) after
    two retries the error of the third attempt is propagated as it is. *)
Theorem withRetry_default_behaviour {S T} (op : S -> (Js.Error + T) * S) :
  (forall s0 s1 s2 s3 e1 e2 v sl,
      op s0 = (inl e1, s1) -> op s1 = (inl e2, s2) -> op s2 = (inr v, s3) ->
      transient e1 = true -> transient e2 = true ->
      withRetry_default (extern op) {| ext := s0; slept := sl |}
      = (inr v, {| ext := s3; slept := sl ++ [1000; 2000] |}))
  /\ (forall s0 s1 e sl,
      op s0 = (inl e, s1) -> transient e = false ->
      withRetry_default (extern op) {| ext := s0; slept := sl |}
      = (inl e, {| ext := s1; slept := sl |}))
  /\ (forall s0 s1 s2 s3 e1 e2 e3 sl,
      op s0 = (inl e1, s1) -> op s1 = (inl e2, s2) -> op s2 = (inl e3, s3) ->
      transient e1 = true -> transient e2 = true ->
      withRetry_default (extern op) {| ext := s0; slept := sl |}
      = (inl e3, {| ext := s3; slept := sl ++ [1000; 2000] |})).
Proof.
  unfold withRetry_default. repeat split.
  - intros s0 s1 s2 s3 e1 e2 v sl H0 H1 H2 T1 T2.
    rewrite withRetry_succ, (extern_run op _ _ _ _ H0), T1. cbn [ext slept].
    rewrite withRetry_succ, (extern_run op _ _ _ _ H1), T2. cbn [ext slept].
    rewrite withRetry_zero, (extern_run op _ _ _ _ H2).
    by rewrite <- app_assoc.
  - intros s0 s1 e sl H0 T0.
    by rewrite withRetry_succ, (extern_run op _ _ _ _ H0), T0.
  - intros s0 s1 s2 s3 e1 e2 e3 sl H0 H1 H2 T1 T2.
    rewrite withRetry_succ, (extern_run op _ _ _ _ H0), T1. cbn [ext slept].
    rewrite withRetry_succ, (extern_run op _ _ _ _ H1), T2. cbn [ext slept].
    rewrite withRetry_zero, (extern_run op _ _ _ _ H2).
    by rewrite <- app_assoc.
Qed.

Lemma withRetry_default_behaviour_witness :
  withRetry_default (extern (scripted (T := nat) forbidden))
    {| ext := [inl networkDown; inl unavailable; inr 7%nat]; slept := [] |}
  = (inr 7%nat, {| ext := []; slept := [1000; 2000] |})
  /\ withRetry_default (extern (scripted (T := nat) forbidden))
       {| ext := [inl forbidden; inr 7%nat]; slept := [] |}
     = (inl forbidden, {| ext := [inr 7%nat]; slept := [] |})
  /\ withRetry_default (extern (scripted (T := nat) forbidden))
       {| ext := [inl networkDown; inl unavailable; inl networkDown; inr 7%nat];
          slept := [] |}
     = (inl networkDown, {| ext := [inr 7%nat]; slept := [1000; 2000] |}).
Proof.
  destruct (withRetry_default_behaviour (scripted (T := nat) forbidden))
    as (Ha & Hb & Hc).
  split; [|split].
  - apply (Ha [inl networkDown; inl unavailable; inr 7%nat]
              [inl unavailable; inr 7%nat] [inr 7%nat] []
              networkDown unavailable 7%nat []); reflexivity.
  - apply (Hb [inl forbidden; inr 7%nat] [inr 7%nat] forbidden []);
      reflexivity.
  - apply (Hc [inl networkDown; inl unavailable; inl networkDown; inr 7%nat]
              [inl unavailable; inl networkDown; inr 7%nat]
              [inl networkDown; inr 7%nat] [inr 7%nat]
              networkDown unavailable networkDown []); reflexivity.
Defined.

(** C4 as stated fails for a 5xx status other than 500 and 503: an
    operation that fails twice with status 502 and then would succeed is
    not retried; its first error is propagated at once. *)
Lemma withRetry_502_not_retried :
  is5xx badGateway = true
  /\ withRetry_default (extern (scripted (T := nat) forbidden))
       {| ext := [inl badGateway; inl badGateway; inr 7%nat]; slept := [] |}
     = (inl badGateway,
        {| ext := [inl badGateway; inr 7%nat]; slept := [] |})
  /\ withRetry_default (extern (scripted (T := nat) forbidden))
       {| ext := [inl badGateway; inl badGateway; inr 7%nat]; slept := [] |}
     <> (inr 7%nat, {| ext := []; slept := [1000; 2000] |}).
Proof.
  split; [reflexivity|]. split; [vm_compute; reflexivity|].
  vm_compute. discriminate.
Qed.

End RetryProperties.

(* ================================================================== *)
(** * Failures of [analyzePdfStructure] and [generateLessonImage]      *)
(* ================================================================== *)

Section PipelineProperties.
Import Async Retry Service Course.

Context {S : Type}.
Variable generateContent : Request -> S -> (Js.Error + Response) * S.
Variable JSON_parse : string -> Js.Error + RawCourse.

Let analyze := analyzePdfStructure generateContent JSON_parse.
Let request (base64Pdf : string) := AnalyzeRequest (cleanBase64 base64Pdf).

Lemma analyzeOperation_failure (pdf : string) (s0 s1 : S) (e : Js.Error)
    (sl : list Z) :
  generateContent (request pdf) s0 = (inl e, s1) ->
  analyzeOperation generateContent JSON_parse pdf {| ext := s0; slept := sl |}
  = (inl (translated e), {| ext := s1; slept := sl |}).
Proof.
  intros Hcall. unfold analyzeOperation, tryCatch, bind.
  rewrite (extern_run _ _ _ _ _ Hcall).
  unfold translated, unreadable, sizeClass, throw.
  destruct (Js.messageIncludes "document has no pages" e || Js.statusIs 400 e);
    [reflexivity|].
  destruct (Js.messageIncludes "xhr" e || Js.messageIncludes "Rpc failed" e
            || Js.statusIs 500 e); reflexivity.
Qed.

Lemma analyzeOperation_success (pdf : string) (s0 s1 : S) (txt : string)
    (cands : option (list Candidate)) (rawData : RawCourse) (sl : list Z) :
  generateContent (request pdf) s0
  = (inr {| text := Some txt; candidates := cands |}, s1) ->
  txt <> "" ->
  JSON_parse txt = inr rawData ->
  analyzeOperation generateContent JSON_parse pdf {| ext := s0; slept := sl |}
  = (inr (addIds rawData), {| ext := s1; slept := sl |}).
Proof.
  intros Hcall Htxt Hparse. unfold analyzeOperation, tryCatch, bind.
  rewrite (extern_run _ _ _ _ _ Hcall). cbn [text].
  destruct txt as [|c txt]; [done|].
  cbn [Js.truthy negb from_option Datatypes.id]. unfold liftEither.
  rewrite Hparse.
  reflexivity.
Qed.

(** C6 (as amended): what structure analysis does with a failing call.
    (a) A failure whose message contains [document has no pages] or whose
    status is 400 is surfaced after that single call, without retry, as the
    message saying the PDF is empty, encrypted or corrupted.  (b) Otherwise,
    a failure whose message contains [xhr] or [Rpc failed] or whose status
    is 500 is surfaced after that single call, without retry, as the
    too-large message.  (c) A failure translated by neither rule and
    transient for [withRetry] (message containing [fetch] or
    [NetworkError], or status 503) is retried with delays 1000 and 2000,
    and after the third such failure the last error is surfaced as it is;
    (d) if the call after such a failure succeeds, the outline is
    returned.  (e) Any other failure is surfaced as it is without retry.
    (f) The two messages differ; the first names the empty, encrypted or
    corrupted document and the second asks for a smaller PDF. *)
Theorem analyzePdfStructure_failures :
  (forall pdf s0 s1 e sl,
      generateContent (request pdf) s0 = (inl e, s1) ->
      unreadable e = true ->
      analyze pdf {| ext := s0; slept := sl |}
      = (inl (Js.newError unreadableMessage), {| ext := s1; slept := sl |}))
  /\ (forall pdf s0 s1 e sl,
      generateContent (request pdf) s0 = (inl e, s1) ->
      unreadable e = false -> sizeClass e = true ->
      analyze pdf {| ext := s0; slept := sl |}
      = (inl (Js.newError tooLargeMessage), {| ext := s1; slept := sl |}))
  /\ (forall pdf s0 s1 s2 s3 e1 e2 e3 sl,
      generateContent (request pdf) s0 = (inl e1, s1) ->
      generateContent (request pdf) s1 = (inl e2, s2) ->
      generateContent (request pdf) s2 = (inl e3, s3) ->
      translated e1 = e1 -> translated e2 = e2 -> translated e3 = e3 ->
      transient e1 = true -> transient e2 = true ->
      analyze pdf {| ext := s0; slept := sl |}
      = (inl e3, {| ext := s3; slept := sl ++ [1000; 2000] |}))
  /\ (forall pdf s0 s1 s2 e1 txt cands rawData sl,
      generateContent (request pdf) s0 = (inl e1, s1) ->
      translated e1 = e1 -> transient e1 = true ->
      generateContent (request pdf) s1
      = (inr {| text := Some txt; candidates := cands |}, s2) ->
      txt <> "" -> JSON_parse txt = inr rawData ->
      analyze pdf {| ext := s0; slept := sl |}
      = (inr (addIds rawData), {| ext := s2; slept := sl ++ [1000] |}))
  /\ (forall pdf s0 s1 e sl,
      generateContent (request pdf) s0 = (inl e, s1) ->
      translated e = e -> transient e = false ->
      analyze pdf {| ext := s0; slept := sl |}
      = (inl e, {| ext := s1; slept := sl |}))
  /\ (unreadableMessage <> tooLargeMessage
      /\ Js.includes "empty, encrypted, or corrupted" unreadableMessage = true
      /\ Js.includes "too large" tooLargeMessage = true
      /\ Js.includes "try a smaller PDF" tooLargeMessage = true).
Proof.
  unfold analyze, analyzePdfStructure, withRetry_default.
  split; [|split; [|split; [|split; [|split]]]].
  - intros pdf s0 s1 e sl Hcall Hu.
    rewrite withRetry_succ, (analyzeOperation_failure _ _ _ _ _ Hcall).
    unfold translated. rewrite Hu. reflexivity.
  - intros pdf s0 s1 e sl Hcall Hu Hs.
    rewrite withRetry_succ, (analyzeOperation_failure _ _ _ _ _ Hcall).
    unfold translated. rewrite Hu, Hs. reflexivity.
  - intros pdf s0 s1 s2 s3 e1 e2 e3 sl H0 H1 H2 P1 P2 P3 T1 T2.
    rewrite withRetry_succ, (analyzeOperation_failure _ _ _ _ _ H0), P1, T1.
    cbn [ext slept].
    rewrite withRetry_succ, (analyzeOperation_failure _ _ _ _ _ H1), P2, T2.
    cbn [ext slept].
    rewrite withRetry_zero, (analyzeOperation_failure _ _ _ _ _ H2), P3.
    by rewrite <- app_assoc.
  - intros pdf s0 s1 s2 e1 txt cands rawData sl H0 P1 T1 H1 Htxt Hparse.
    rewrite withRetry_succ, (analyzeOperation_failure _ _ _ _ _ H0), P1, T1.
    cbn [ext slept].
    rewrite withRetry_succ.
    by rewrite (analyzeOperation_success _ _ _ _ _ _ _ H1 Htxt Hparse).
  - intros pdf s0 s1 e sl Hcall P T0.
    by rewrite withRetry_succ, (analyzeOperation_failure _ _ _ _ _ Hcall), P, T0.
  - repeat split. discriminate.
Qed.

End PipelineProperties.

Section PipelineRuns.
Import Async Retry Service Course.

Lemma analyzePdfStructure_failures_witness :
  analyzeScripted [inl noPages; inr textResponse]
  = (inl (Js.newError unreadableMessage),
     {| ext := [inr textResponse]; slept := [] |})
  /\ analyzeScripted [inl internalError; inr textResponse]
     = (inl (Js.newError tooLargeMessage),
        {| ext := [inr textResponse]; slept := [] |})
  /\ analyzeScripted [inl unavailable; inl networkDown; inl unavailable;
                      inr textResponse]
     = (inl unavailable,
        {| ext := [inr textResponse]; slept := [1000; 2000] |})
  /\ analyzeScripted [inl unavailable; inr textResponse]
     = (inr (addIds emptyFirstChapter), {| ext := []; slept := [1000] |})
  /\ analyzeScripted [inl forbidden; inr textResponse]
     = (inl forbidden, {| ext := [inr textResponse]; slept := [] |}).
Proof.
  destruct (analyzePdfStructure_failures scriptedService
              (parsesTo emptyFirstChapter))
    as (Ha & Hb & Hc & Hd & He & _).
  unfold analyzeScripted.
  split; [|split; [|split; [|split]]].
  - apply (Ha "JVBERi0x" [inl noPages; inr textResponse] [inr textResponse]
              noPages []); reflexivity.
  - apply (Hb "JVBERi0x" [inl internalError; inr textResponse]
              [inr textResponse] internalError []); reflexivity.
  - apply (Hc "JVBERi0x"
              [inl unavailable; inl networkDown; inl unavailable;
               inr textResponse]
              [inl networkDown; inl unavailable; inr textResponse]
              [inl unavailable; inr textResponse] [inr textResponse]
              unavailable networkDown unavailable []); reflexivity.
  - apply (Hd "JVBERi0x" [inl unavailable; inr textResponse]
              [inr textResponse] [] unavailable "{...}" None
              emptyFirstChapter []); (reflexivity || discriminate).
  - apply (He "JVBERi0x" [inl forbidden; inr textResponse]
              [inr textResponse] forbidden []); reflexivity.
Defined.

(** C6 as stated fails for a server failure with status 500 (and likewise
    for a transport failure whose message contains [xhr]): [withRetry]
    alone would retry it, but the [catch] block of the request turns it
    into the too-large error first, which is surfaced after the single
    call, with no retry. *)
Lemma analyzePdfStructure_500_not_retried :
  is5xx internalError = true
  /\ transient internalError = true
  /\ analyzeScripted [inl internalError; inl internalError; inl internalError]
     = (inl (Js.newError tooLargeMessage),
        {| ext := [inl internalError; inl internalError]; slept := [] |})
  /\ slept (snd (analyzeScripted
                   [inl internalError; inl internalError; inl internalError]))
     <> [1000; 2000].
Proof.
  split; [reflexivity|]. split; [reflexivity|].
  split; [vm_compute; reflexivity|].
  vm_compute. discriminate.
Qed.

End PipelineRuns.

Section ImageProperties.
Import Async Service.

Context {S : Type}.
Variable generateContent : Request -> S -> (Js.Error + Response) * S.




End ImageProperties.

Section ImageRuns.
Import Async Service.


End ImageRuns.

(* ================================================================== *)
(** * The pass signal of the quiz                                      *)
(* ================================================================== *)

Section QuizProperties.
Import QuizView.

(** The pass mark in integers: [ceil (0.6 * n) = (3 * n + 4) / 5]. *)
Lemma passMark_integral (questions : list QuizQuestion) :
  passMark questions = (3 * Z.of_nat (length questions) + 4) / 5.
Proof.
  unfold passMark, Qceiling, Qfloor, Qopp, Qmult, inject_Z.
  cbn [Qnum Qden Pos.mul].
  set (n := Z.of_nat (length questions)).
  Z.to_euclidean_division_equations. lia.
Qed.

Lemma drop_lookup_cons {A} (l : list A) (i : nat) (x : A) :
  l !! i = Some x -> drop i l = x :: drop (S i) l.
Proof.
  revert i. induction l as [|a l IH]; intros [|i] H; try discriminate.
  - by injection H as ->.
  - cbn [drop]. by apply IH.
Qed.

(** Answering the remaining questions from a state that waits for an
    answer to question [currentIndex st]. *)
Lemma run_answerAll (questions : list QuizQuestion) (answers : list Z) :
  forall st,
    isAnswered st = false ->
    showResult st = false ->
    (currentIndex st + length answers = length questions)%nat ->
    (0 < length answers)%nat ->
    exists st',
      run questions (answerAll answers) st = Some st'
      /\ showResult st' = true
      /\ score st'
         = (score st
            + correctCount (drop (currentIndex st) questions) answers)%nat.
Proof.
  induction answers as [|a rest IH]; intros st Hans Hres Hlen Hpos.
  - cbn in Hpos. lia.
  - cbn [length] in Hlen.
    destruct (lookup_lt_is_Some_2 questions (currentIndex st)) as [q Hq]; [lia|].
    rewrite (drop_lookup_cons _ _ _ Hq).
    cbn [answerAll flat_map app run correctCount].
    unfold step at 1. rewrite Hres, Hans.
    unfold handleOptionClick. rewrite Hans, Hq.
    unfold step at 1. cbn [showResult isAnswered]. rewrite Hres.
    unfold handleNext. cbn [currentIndex score selectedOption isAnswered showResult].
    destruct rest as [|b rest'].
    + (* the last question: the result view *)
      cbn [length] in Hlen.
      destruct (Z.ltb_spec (Z.of_nat (currentIndex st))
                           (Z.of_nat (length questions) - 1)); [lia|].
      cbn [flat_map run]. eexists. split; [reflexivity|].
      cbn [showResult score]. split; [reflexivity|].
      destruct (drop (S (currentIndex st)) questions);
        destruct (a =? correctOptionIndex q); cbn [correctCount]; lia.
    + destruct (Z.ltb_spec (Z.of_nat (currentIndex st))
                           (Z.of_nat (length questions) - 1));
        [|cbn [length] in Hlen; lia].
      match goal with
      | |- context [run questions _ ?st1] =>
          destruct (IH st1) as (st' & Hrun & Hshow & Hscore)
      end; cbn [isAnswered showResult currentIndex length] in *;
        try (reflexivity || assumption || lia).
      exists st'. split; [exact Hrun|]. split; [exact Hshow|].
      rewrite Hscore. cbn [score].
      destruct (a =? correctOptionIndex q); lia.
Qed.

(** A run that ends in the result view has answered every remaining
    question once, in order: from a state that waits for an answer the
    events are [answerAll answers]; from a state that shows an answer they
    are [Next] followed by such a list. *)
Lemma run_to_result (questions : list QuizQuestion) (evs : list Event) :
  (forall st st',
      isAnswered st = false -> showResult st = false ->
      run questions evs st = Some st' -> showResult st' = true ->
      exists answers,
        evs = answerAll answers
        /\ (0 < length answers)%nat
        /\ (currentIndex st + length answers = length questions)%nat)
  /\ (forall st st',
      isAnswered st = true -> showResult st = false ->
      (currentIndex st < length questions)%nat ->
      run questions evs st = Some st' -> showResult st' = true ->
      exists answers,
        evs = Next :: answerAll answers
        /\ (currentIndex st + 1 + length answers = length questions)%nat).
Proof.
  induction evs as [|ev rest [IHwait IHshown]]; split;
    intros st st' Hans Hres.
  - intros Hrun Hshow. injection Hrun as <-. congruence.
  - intros _ Hrun Hshow. injection Hrun as <-. congruence.
  - cbn [run]. unfold step. rewrite Hres, Hans.
    destruct ev as [a|]; [|discriminate].
    unfold handleOptionClick. rewrite Hans.
    destruct (questions !! currentIndex st) as [q|] eqn:Hq; [|discriminate].
    apply lookup_lt_Some in Hq.
    intros Hrun Hshow.
    apply IHshown in Hrun as (answers & -> & Hlen);
      cbn [isAnswered showResult currentIndex]; try assumption; try reflexivity.
    cbn [currentIndex] in Hlen.
    exists (a :: answers). cbn [answerAll flat_map app length].
    repeat split; lia.
  - intros Hidx. cbn [run]. unfold step. rewrite Hres, Hans.
    destruct ev as [a|]; [discriminate|].
    unfold handleNext.
    destruct (Z.ltb_spec (Z.of_nat (currentIndex st))
                         (Z.of_nat (length questions) - 1)) as [Hlt|Hge].
    + intros Hrun Hshow.
      apply IHwait in Hrun as (answers & -> & Hpos & Hlen);
        cbn [isAnswered showResult currentIndex]; try assumption;
        try reflexivity.
      cbn [currentIndex] in Hlen. exists answers. split; [reflexivity|lia].
    + destruct rest as [|ev' rest'].
      * intros _ _. exists []. split; [reflexivity|]. cbn [length]. lia.
      * cbn [run]. unfold step. cbn [showResult]. discriminate.
Qed.

(** C9: for a quiz of [n >= 1] questions, (a) answering the questions once
    each, in order, reaches the result view with the score equal to the
    number of correct answers, and the value handed to [onFinish] there is
    [ceil (0.6 * n) <= correct]; for three questions it is [true] exactly
    when at least two answers are correct; (b) every sequence of clicks
    that reaches the result view is such a sequence of answers, so the
    value handed to [onFinish] is always the one of (a). *)
Theorem quiz_pass_signal (questions : list QuizQuestion) :
  (1 <= length questions)%nat ->
  (forall answers,
      length answers = length questions ->
      exists st,
        run questions (answerAll answers) initial = Some st
        /\ showResult st = true
        /\ score st = correctCount questions answers
        /\ onFinishArg questions st
           = Some (Qceiling (inject_Z (Z.of_nat (length questions)) * (6 # 10))
                   <=? Z.of_nat (correctCount questions answers))
        /\ (length questions = 3%nat ->
            (onFinishArg questions st = Some true
             <-> (2 <= correctCount questions answers)%nat)))
  /\ (forall evs st,
      run questions evs initial = Some st ->
      showResult st = true ->
      exists answers,
        evs = answerAll answers
        /\ length answers = length questions
        /\ onFinishArg questions st
           = Some (Qceiling (inject_Z (Z.of_nat (length questions)) * (6 # 10))
                   <=? Z.of_nat (correctCount questions answers))).
Proof.
  intros Hn.
  assert (Hreach : forall answers,
             length answers = length questions ->
             exists st,
               run questions (answerAll answers) initial = Some st
               /\ showResult st = true
               /\ score st = correctCount questions answers
               /\ onFinishArg questions st
                  = Some (passMark questions
                          <=? Z.of_nat (correctCount questions answers))).
  { intros answers Hlen.
    destruct (run_answerAll questions answers initial)
      as (st & Hrun & Hshow & Hscore); try reflexivity;
      [cbn [currentIndex initial]; lia|lia|].
    cbn [initial currentIndex score drop] in Hscore. cbn [Nat.add] in Hscore.
    exists st. repeat split; try assumption.
    unfold onFinishArg, passed. by rewrite Hshow, Hscore. }
  split.
  - intros answers Hlen.
    destruct (Hreach answers Hlen) as (st & Hrun & Hshow & Hscore & Harg).
    exists st. split; [exact Hrun|]. split; [exact Hshow|].
    split; [exact Hscore|]. split; [exact Harg|].
    intros H3. rewrite Harg, passMark_integral, H3.
    change ((3 * Z.of_nat 3 + 4) / 5) with 2.
    split.
    + intros H. injection H as H. apply Z.leb_le in H. lia.
    + intros H. f_equal. apply Z.leb_le. lia.
  - intros evs st Hrun Hshow.
    destruct (proj1 (run_to_result questions evs) initial st)
      as (answers & -> & _ & Hlen); try reflexivity; try assumption.
    cbn [initial currentIndex] in Hlen.
    exists answers. split; [reflexivity|]. split; [lia|].
    destruct (Hreach answers) as (st2 & Hrun2 & _ & _ & Harg); [lia|].
    rewrite Hrun in Hrun2. injection Hrun2 as <-. exact Harg.
Qed.

Lemma quiz_pass_signal_witness :
  exists st,
    run demoQuiz (answerAll [0; 2; 1]) initial = Some st
    /\ score st = 2%nat
    /\ onFinishArg demoQuiz st = Some true.
Proof.
  destruct (quiz_pass_signal demoQuiz) as (Hreach & _).
  - simpl. lia.
  - destruct (Hreach [0; 2; 1] eq_refl) as (st & Hrun & _ & Hscore & _ & H3).
    exists st. split; [exact Hrun|]. split; [exact Hscore|].
    apply (H3 eq_refl). simpl. lia.
Defined.

End QuizProperties.

(* ================================================================== *)
(** * Properties of rounding                                           *)
(* ================================================================== *)

Section DoubleProperties.
Import Double.

Lemma Qeq_bool_false (a b : Q) : ~ (a == b)%Q -> Qeq_bool a b = false.
Proof.
  intros H. destruct (Qeq_bool a b) eqn:E; [|reflexivity].
  by apply Qeq_bool_iff in E.
Qed.

Lemma pow2_pos (e : Z) : (0 < 2 ^ e)%Q.
Proof. by apply Qpower_0_lt. Qed.

Lemma pow2_add (a b : Z) : (2 ^ (a + b) == 2 ^ a * 2 ^ b)%Q.
Proof. by apply Qpower_plus. Qed.

Lemma pow2_succ (a : Z) : (2 ^ (a + 1) == 2 * 2 ^ a)%Q.
Proof. rewrite pow2_add. change (2 ^ 1)%Q with 2%Q. ring. Qed.

Lemma pow2_le (a b : Z) : a <= b -> (2 ^ a <= 2 ^ b)%Q.
Proof. intros H. by apply Qpower_le_compat_l. Qed.

Lemma pow2_lt_inv (a b : Z) : (2 ^ a < 2 ^ b)%Q -> a < b.
Proof. intros H. by apply (Qpower_lt_compat_l_inv 2). Qed.

Lemma pow2_Z (n : Z) : 0 <= n -> (inject_Z (2 ^ n) == 2 ^ n)%Q.
Proof. intros H. by rewrite Zpower_Qpower. Qed.

Lemma ilog2_spec (x : Q) :
  (0 < x)%Q -> (2 ^ ilog2 x <= x)%Q /\ (x < 2 ^ (ilog2 x + 1))%Q.
Proof.
  intros Hx. unfold ilog2.
  destruct x as [n d]. cbn [Qnum Qden].
  assert (Hn : 0 < n). { unfold Qlt in Hx. cbn in Hx. lia. }
  set (a := Z.log2 n). set (b := Z.log2 (Z.pos d)).
  destruct (Z.log2_spec n Hn) as [Ha1 Ha2]. fold a in Ha1, Ha2.
  destruct (Z.log2_spec (Z.pos d) ltac:(lia)) as [Hb1 Hb2].
  fold b in Hb1, Hb2.
  assert (Ha0 : 0 <= a) by apply Z.log2_nonneg.
  assert (Hb0 : 0 <= b) by apply Z.log2_nonneg.
  assert (Hx' : ((n # d) * inject_Z (Z.pos d) == inject_Z n)%Q).
  { unfold Qeq, Qmult, inject_Z. cbn. lia. }
  set (X := (n # d)%Q) in *.
  set (D := inject_Z (Z.pos d)) in *. set (Nn := inject_Z n) in *.
  assert (HD : (0 < D)%Q). { unfold D. change 0%Q with (inject_Z 0). rewrite <- Zlt_Qlt. lia. }
  assert (HPa : (2 ^ a <= Nn)%Q /\ (Nn < 2 * 2 ^ a)%Q).
  { rewrite <- pow2_succ, <- !pow2_Z by lia. unfold Nn.
    rewrite <- Zle_Qle, <- Zlt_Qlt. replace (a + 1) with (Z.succ a) by lia. done. }
  assert (HPb : (2 ^ b <= D)%Q /\ (D < 2 * 2 ^ b)%Q).
  { rewrite <- pow2_succ, <- !pow2_Z by lia. unfold D.
    rewrite <- Zle_Qle, <- Zlt_Qlt. replace (b + 1) with (Z.succ b) by lia. done. }
  assert (Hk : (2 ^ (a - b) * 2 ^ b == 2 ^ a)%Q).
  { rewrite <- pow2_add. by replace (a - b + b) with a by lia. }
  pose proof (pow2_pos (a - b)) as Hk0. pose proof (pow2_pos b) as Hb00.
  set (Pk := (2 ^ (a - b))%Q) in *. set (Pb := (2 ^ b)%Q) in *.
  set (Pa := (2 ^ a)%Q) in *.
  assert (Hup : (X < 2 * Pk)%Q).
  { apply (Qmult_lt_r _ _ D HD). rewrite Hx'. nra. }
  assert (Hlow : (Pk < 2 * X)%Q).
  { apply (Qmult_lt_r _ _ D HD).
    setoid_replace (2 * X * D)%Q with (2 * (X * D))%Q using relation Qeq by ring.
    rewrite Hx'. nra. }
  destruct (Qle_bool Pk X) eqn:Hle.
  - apply Qle_bool_iff in Hle. split; [exact Hle|].
    rewrite pow2_succ. exact Hup.
  - assert (Hlt : (X < Pk)%Q).
    { apply Qnot_le_lt. intros H. apply Qle_bool_iff in H. congruence. }
    replace (a - b - 1 + 1) with (a - b) by lia.
    split; [|exact Hlt].
    assert (Hh : (2 * 2 ^ (a - b - 1) == Pk)%Q).
    { rewrite <- pow2_succ. unfold Pk. by replace (a - b - 1 + 1) with (a - b) by lia. }
    lra.
Qed.

Lemma ilog2_monotone (x y : Q) :
  (0 < x)%Q -> (x <= y)%Q -> ilog2 x <= ilog2 y.
Proof.
  intros Hx Hxy.
  destruct (ilog2_spec x Hx) as [Hx1 _].
  destruct (ilog2_spec y ltac:(lra)) as [_ Hy2].
  assert (H : ilog2 x < ilog2 y + 1); [|lia].
  apply pow2_lt_inv. lra.
Qed.

Lemma roundHalfEven_bounds (y : Q) :
  Qfloor y <= roundHalfEven y <= Qfloor y + 1.
Proof.
  unfold roundHalfEven.
  destruct (y - inject_Z (Qfloor y) ?= 1 # 2)%Q; [|lia|lia].
  destruct (Z.even (Qfloor y)); lia.
Qed.

Lemma roundHalfEven_monotone (y z : Q) :
  (y <= z)%Q -> roundHalfEven y <= roundHalfEven z.
Proof.
  intros Hyz. pose proof (Qfloor_resp_le y z Hyz) as Hf.
  destruct (Z.eq_dec (Qfloor y) (Qfloor z)) as [Heq|Hne].
  - unfold roundHalfEven. rewrite <- Heq.
    destruct (y - inject_Z (Qfloor y) ?= 1 # 2)%Q eqn:Hy;
      destruct (z - inject_Z (Qfloor y) ?= 1 # 2)%Q eqn:Hz;
      try (destruct (Z.even (Qfloor y)); lia); try lia.
    + apply Qeq_alt in Hy. apply Qlt_alt in Hz. lra.
    + apply Qgt_alt in Hy. apply Qeq_alt in Hz. lra.
    + apply Qgt_alt in Hy. apply Qlt_alt in Hz. lra.
  - pose proof (roundHalfEven_bounds y). pose proof (roundHalfEven_bounds z).
    lia.
Qed.

Lemma roundHalfEven_Z (y : Q) (z : Z) :
  (y == inject_Z z)%Q -> roundHalfEven y = z.
Proof.
  intros Hy. unfold roundHalfEven.
  assert (Hf : Qfloor y = z).
  { rewrite (Qfloor_comp _ _ Hy). apply Qfloor_Z. }
  rewrite Hf.
  destruct (Qcompare_spec (y - inject_Z z) (1 # 2)) as [H|H|H];
    [lra|reflexivity|lra].
Qed.

Lemma roundHalfEven_ge (y : Q) (z : Z) :
  (inject_Z z <= y)%Q -> z <= roundHalfEven y.
Proof.
  intros H. transitivity (roundHalfEven (inject_Z z)).
  - by rewrite (roundHalfEven_Z (inject_Z z) z).
  - by apply roundHalfEven_monotone.
Qed.

Lemma roundHalfEven_le (y : Q) (z : Z) :
  (y <= inject_Z z)%Q -> roundHalfEven y <= z.
Proof.
  intros H. transitivity (roundHalfEven (inject_Z z)).
  - by apply roundHalfEven_monotone.
  - by rewrite (roundHalfEven_Z (inject_Z z) z).
Qed.

Lemma exponent_monotone (x y : Q) :
  (0 < x)%Q -> (x <= y)%Q -> exponent x <= exponent y.
Proof.
  intros Hx Hxy. unfold exponent.
  pose proof (ilog2_monotone x y Hx Hxy). lia.
Qed.

(** Rounding to the nearest value of the format does not change the
    order. *)
Lemma nearest_monotone (x y : Q) :
  (0 < x)%Q -> (x <= y)%Q -> (nearest x <= nearest y)%Q.
Proof.
  intros Hx Hxy. unfold nearest.
  pose proof (exponent_monotone x y Hx Hxy) as He.
  pose proof (pow2_pos (exponent x)) as Hpx.
  pose proof (pow2_pos (exponent y)) as Hpy.
  destruct (Z.eq_dec (exponent x) (exponent y)) as [Heq|Hne].
  - rewrite <- Heq. apply Qmult_le_compat_r; [|lra].
    rewrite <- Zle_Qle. apply roundHalfEven_monotone.
    apply Qmult_le_compat_r; [exact Hxy|].
    apply Qlt_le_weak, Qinv_lt_0_compat, Hpx.
  - assert (Hlt : exponent x < exponent y) by lia.
    destruct (ilog2_spec x Hx) as [_ Hx2].
    destruct (ilog2_spec y ltac:(lra)) as [Hy1 _].
    assert (Hey : exponent y = ilog2 y - 52) by (unfold exponent in *; lia).
    assert (Hex : ilog2 x + 1 <= exponent x + 53) by (unfold exponent; lia).
    (* the value for [x] is at most 2^(exponent x + 53) *)
    assert (Hvx : (inject_Z (roundHalfEven (x / 2 ^ exponent x))
                   * 2 ^ exponent x <= 2 ^ (exponent x + 53))%Q).
    { rewrite pow2_add, Qmult_comm.
      apply Qmult_le_l; [exact Hpx|].
      rewrite <- (pow2_Z 53) by lia. rewrite <- Zle_Qle.
      apply roundHalfEven_le. rewrite (pow2_Z 53) by lia.
      apply Qle_shift_div_r; [exact Hpx|].
      rewrite Qmult_comm, <- pow2_add.
      pose proof (pow2_le _ _ Hex). lra. }
    assert (Hvy : (2 ^ (exponent y + 52)
                   <= inject_Z (roundHalfEven (y / 2 ^ exponent y))
                      * 2 ^ exponent y)%Q).
    { rewrite pow2_add, (Qmult_comm (2 ^ exponent y)).
      apply Qmult_le_compat_r; [|lra].
      rewrite <- (pow2_Z 52) by lia. rewrite <- Zle_Qle.
      apply roundHalfEven_ge. rewrite (pow2_Z 52) by lia.
      apply Qle_shift_div_l; [exact Hpy|].
      rewrite Qmult_comm, <- pow2_add.
      replace (exponent y + 52) with (ilog2 y) by lia. exact Hy1. }
    assert (Hmid : (2 ^ (exponent x + 53) <= 2 ^ (exponent y + 52))%Q)
      by (apply pow2_le; lia).
    lra.
Qed.

Lemma nearest_nonneg (x : Q) : (0 < x)%Q -> (0 <= nearest x)%Q.
Proof.
  intros Hx. unfold nearest. pose proof (pow2_pos (exponent x)) as Hp.
  apply Qmult_le_0_compat; [|lra].
  change 0%Q with (inject_Z 0). rewrite <- Zle_Qle.
  apply roundHalfEven_ge. change (inject_Z 0) with 0%Q.
  apply Qle_shift_div_l; [exact Hp|lra].
Qed.

Lemma roundPositive_cases (x : Q) :
  (roundPositive x = PosInfinity /\ (2 ^ 1024 <= nearest x)%Q)
  \/ (roundPositive x = Finite (Qred (nearest x))
      /\ (nearest x < 2 ^ 1024)%Q).
Proof.
  unfold roundPositive. cbv zeta.
  destruct (Qle_bool (2 ^ 1024) (nearest x)) eqn:H.
  - left. split; [reflexivity|]. by apply Qle_bool_iff.
  - right. split; [reflexivity|].
    apply Qnot_le_lt. intros Hle. apply Qle_bool_iff in Hle. congruence.
Qed.

Lemma leq_Finite (x y : Q) : leq (Finite x) (Finite y) = true <-> (x <= y)%Q.
Proof. apply Qle_bool_iff. Qed.

Lemma roundPositive_monotone (x y : Q) :
  (0 < x)%Q -> (x <= y)%Q ->
  leq (roundPositive x) (roundPositive y) = true.
Proof.
  intros Hx Hxy. pose proof (nearest_monotone x y Hx Hxy) as Hn.
  destruct (roundPositive_cases x) as [[-> Hvx]|[-> Hvx]];
    destruct (roundPositive_cases y) as [[-> Hvy]|[-> Hvy]];
    try reflexivity.
  - lra.
  - apply leq_Finite. by rewrite !Qred_correct.
Qed.

Lemma roundPositive_nonneg (x : Q) :
  (0 < x)%Q -> leq (Finite 0) (roundPositive x) = true.
Proof.
  intros Hx. pose proof (nearest_nonneg x Hx).
  destruct (roundPositive_cases x) as [[-> _]|[-> _]]; [reflexivity|].
  apply leq_Finite. by rewrite Qred_correct.
Qed.

Lemma leq_neg (a b : Number) :
  leq a b = true -> leq (neg b) (neg a) = true.
Proof.
  destruct a as [x| | |], b as [y| | |]; cbn; try done.
  rewrite !Qle_bool_iff, !Qred_correct. lra.
Qed.

Lemma leq_trans (a b c : Number) :
  leq a b = true -> leq b c = true -> leq a c = true.
Proof.
  destruct a as [x| | |], b as [y| | |], c as [z| | |]; cbn; try done.
  rewrite !Qle_bool_iff. lra.
Qed.

Lemma sign_Qnum (r : Q) :
  match Qnum r with
  | Z0 => (r == 0)%Q
  | Zpos _ => (0 < r)%Q
  | Zneg _ => (r < 0)%Q
  end.
Proof.
  destruct r as [[|p|p] d]; unfold Qeq, Qlt; cbn; lia.
Qed.

Lemma round_comp (x y : Q) : (x == y)%Q -> round x = round y.
Proof. intros H. unfold round. by rewrite (Qred_complete x y H). Qed.

(** Rounding keeps the order: what makes range and order facts about
    exact values carry over to the computed ones. *)
Lemma round_monotone (x y : Q) :
  (x <= y)%Q -> leq (round x) (round y) = true.
Proof.
  intros Hxy. unfold round. cbv zeta.
  pose proof (Qred_correct x) as Hrx. pose proof (Qred_correct y) as Hry.
  pose proof (sign_Qnum (Qred x)) as Hsx.
  pose proof (sign_Qnum (Qred y)) as Hsy.
  destruct (Qnum (Qred x)) as [|px|px]; destruct (Qnum (Qred y)) as [|py|py];
    try lra.
  - reflexivity.
  - by apply roundPositive_nonneg.
  - apply roundPositive_monotone; lra.
  - change (Finite 0) with (neg (Finite 0)). apply leq_neg.
    apply roundPositive_nonneg. lra.
  - apply (leq_trans _ (Finite 0)).
    + change (Finite 0) with (neg (Finite 0)). apply leq_neg.
      apply roundPositive_nonneg. lra.
    + by apply roundPositive_nonneg.
  - apply leq_neg. apply roundPositive_monotone; lra.
Qed.

Lemma Qred_inject_Z (z : Z) : Qred (inject_Z z) = inject_Z z.
Proof.
  apply Qcanon.Qred_identity. cbn. apply Z.gcd_1_r.
Qed.

Lemma nearest_Z (z : Z) :
  0 < z <= 2 ^ 53 -> (nearest (inject_Z z) == inject_Z z)%Q.
Proof.
  intros Hz. unfold nearest.
  assert (Hq : (0 < inject_Z z)%Q).
  { change 0%Q with (inject_Z 0). rewrite <- Zlt_Qlt. lia. }
  destruct (ilog2_spec (inject_Z z) Hq) as [Hlo Hhi].
  set (e := exponent (inject_Z z)).
  pose proof (pow2_pos e) as Hp.
  assert (Hle : ilog2 (inject_Z z) <= 53).
  { assert (H : ilog2 (inject_Z z) < 54); [|lia].
    apply pow2_lt_inv. eapply Qle_lt_trans; [exact Hlo|].
    rewrite <- (pow2_Z 54) by lia. rewrite <- Zlt_Qlt. lia. }
  assert (Hint : exists m, (inject_Z z / 2 ^ e == inject_Z m)%Q).
  { destruct (Z.le_gt_cases e 0) as [He|He].
    - exists (z * 2 ^ (- e)).
      rewrite inject_Z_mult, (pow2_Z (- e)) by lia.
      rewrite Qpower_opp. reflexivity.
    - assert (He1 : e = 1) by (unfold e, exponent in *; lia).
      assert (Hz53 : z = 2 ^ 53).
      { assert (H53 : ilog2 (inject_Z z) = 53)
          by (unfold e, exponent in *; lia).
        rewrite H53 in Hlo. rewrite <- (pow2_Z 53) in Hlo by lia.
        rewrite <- Zle_Qle in Hlo. lia. }
      exists (2 ^ 52). rewrite He1, Hz53. reflexivity. }
  destruct Hint as (m & Hm).
  rewrite (roundHalfEven_Z _ m Hm), <- Hm. field. lra.
Qed.

(** Integers up to 2^53 in size are numbers of the format. *)
Lemma round_Z (z : Z) :
  - 2 ^ 53 <= z <= 2 ^ 53 -> round (inject_Z z) = Finite (inject_Z z).
Proof.
  intros Hz. unfold round. cbv zeta. rewrite Qred_inject_Z.
  assert (Hpos : forall p, Z.pos p <= 2 ^ 53 ->
            roundPositive (inject_Z (Z.pos p)) = Finite (inject_Z (Z.pos p))).
  { intros p Hp.
    pose proof (nearest_Z (Z.pos p) ltac:(lia)) as Hn.
    destruct (roundPositive_cases (inject_Z (Z.pos p))) as [[_ Hv]|[-> _]].
    - exfalso. rewrite Hn in Hv. rewrite <- (pow2_Z 1024) in Hv by lia.
      rewrite <- Zle_Qle in Hv.
      assert (2 ^ 53 < 2 ^ 1024) by (apply Z.pow_lt_mono_r; lia). lia.
    - by rewrite (Qred_complete _ _ Hn), Qred_inject_Z. }
  destruct z as [|p|p]; cbn [inject_Z Qnum].
  - reflexivity.
  - apply Hpos. lia.
  - change (- inject_Z (Z.neg p))%Q with (inject_Z (Z.pos p)).
    rewrite Hpos by lia. cbn [neg].
    change (- inject_Z (Z.pos p))%Q with (inject_Z (Z.neg p)).
    by rewrite Qred_inject_Z.
Qed.

Lemma round_between (x : Q) (a b : Z) :
  - 2 ^ 53 <= a <= 2 ^ 53 -> - 2 ^ 53 <= b <= 2 ^ 53 ->
  (inject_Z a <= x <= inject_Z b)%Q ->
  exists q, round x = Finite q /\ (inject_Z a <= q <= inject_Z b)%Q.
Proof.
  intros Ha Hb [Hax Hxb].
  pose proof (round_monotone _ _ Hax) as H1.
  pose proof (round_monotone _ _ Hxb) as H2.
  rewrite round_Z in H1, H2 by done.
  destruct (round x) as [q| | |]; try done.
  exists q. split; [reflexivity|].
  by rewrite <- !leq_Finite.
Qed.

End DoubleProperties.

(* ================================================================== *)
(** * The highlighted word                                             *)
(* ================================================================== *)

Section HighlightProperties.
Import Double LessonPlayer Highlight.

(** The accumulator of [mapParagraphs] counts the words of the
    paragraphs. *)
Lemma mapParagraphs_total (acc : nat) (ps : list string) :
  snd (mapParagraphs acc ps)
  = (acc + length (flat_map words (fst (mapParagraphs acc ps))))%nat.
Proof.
  revert acc. induction ps as [|text ps IH]; intros acc.
  - cbn. lia.
  - cbn [mapParagraphs].
    specialize (IH (acc + length
      (filter (fun w => (0 <? String.length w)%nat) (splitSpaces text)))%nat).
    destruct (mapParagraphs _ ps) as [rest total].
    cbn [fst snd flat_map words] in *. rewrite length_app. lia.
Qed.

Lemma totalWords_flat (script : option string) :
  totalWords (transcriptData script)
  = length (flat_map words (paragraphs (transcriptData script))).
Proof.
  unfold transcriptData.
  destruct (negb (Js.truthy script)); [reflexivity|].
  pose proof (mapParagraphs_total 0
                (filter trimTruthy (splitLines (default "" script)))) as H.
  destruct (mapParagraphs 0 _) as [ps total].
  cbn [fst snd paragraphs totalWords] in *. lia.
Qed.

Lemma ofZ_exact (z : Z) :
  - 2 ^ 53 <= z <= 2 ^ 53 -> ofZ z = Finite (inject_Z z).
Proof. apply round_Z. Qed.

Lemma div_hundred (p : Q) : div (Finite p) (ofZ 100) = round (p / 100).
Proof. rewrite (ofZ_exact 100) by lia. reflexivity. Qed.

Lemma mul_hundred (f : Q) : mul (Finite f) (ofZ 100) = round (f * 100).
Proof. rewrite (ofZ_exact 100) by lia. reflexivity. Qed.

Lemma mul_words (f : Q) (N : nat) :
  Z.of_nat N <= 2 ^ 53 ->
  mul (Finite f) (ofNat N) = round (f * inject_Z (Z.of_nat N)).
Proof.
  intros HN. unfold ofNat. rewrite ofZ_exact by lia. reflexivity.
Qed.

(** The steps of [currentWordIndex] on a progress between 0 and 100: the
    share [f] is a number between 0 and 1, the product [g] a number
    between 0 and [N], and the index its floor. *)
Lemma index_steps (p : Q) (N : nat) :
  Z.of_nat N <= 2 ^ 53 -> (0 <= p <= 100)%Q ->
  exists f g,
    round (p / 100) = Finite f /\ (0 <= f <= 1)%Q
    /\ round (f * inject_Z (Z.of_nat N)) = Finite g
    /\ (0 <= g <= inject_Z (Z.of_nat N))%Q
    /\ currentWordIndex (Finite p) N = Finite (inject_Z (Qfloor g)).
Proof.
  intros HN Hp.
  assert (HNq : (0 <= inject_Z (Z.of_nat N))%Q).
  { change 0%Q with (inject_Z 0). rewrite <- Zle_Qle. lia. }
  destruct (round_between (p / 100) 0 1) as (f & Hf & Hf01); [lia|lia| |].
  { change (inject_Z 0) with 0%Q. change (inject_Z 1) with 1%Q.
    split; [apply Qle_shift_div_l|apply Qle_shift_div_r]; lra. }
  change (inject_Z 0) with 0%Q in Hf01. change (inject_Z 1) with 1%Q in Hf01.
  destruct (round_between (f * inject_Z (Z.of_nat N)) 0 (Z.of_nat N))
    as (g & Hg & Hg0N); [lia|lia| |].
  { change (inject_Z 0) with 0%Q. nra. }
  change (inject_Z 0) with 0%Q in Hg0N.
  exists f, g. split; [exact Hf|]. split; [exact Hf01|].
  split; [exact Hg|]. split; [exact Hg0N|].
  unfold currentWordIndex.
  by rewrite div_hundred, Hf, mul_words, Hg.
Qed.

Lemma index_range (p : Q) (N : nat) :
  Z.of_nat N <= 2 ^ 53 -> (0 <= p <= 100)%Q ->
  exists k, currentWordIndex (Finite p) N = Finite (inject_Z k)
            /\ 0 <= k <= Z.of_nat N.
Proof.
  intros HN Hp.
  destruct (index_steps p N HN Hp)
    as (f & g & _ & _ & _ & Hg & Hidx).
  exists (Qfloor g). split; [exact Hidx|]. split.
  - change 0 with (Qfloor (inject_Z 0)). apply Qfloor_resp_le.
    change (inject_Z 0) with 0%Q. lra.
  - rewrite <- (Qfloor_Z (Z.of_nat N)). apply Qfloor_resp_le. lra.
Qed.


Lemma index_ends (N : nat) :
  Z.of_nat N <= 2 ^ 53 ->
  currentWordIndex (Finite 0) N = Finite 0
  /\ currentWordIndex (Finite 100) N = Finite (inject_Z (Z.of_nat N)).
Proof.
  intros HN. unfold currentWordIndex. rewrite !div_hundred.
  rewrite (round_comp (0 / 100) (inject_Z 0)) by reflexivity.
  rewrite (round_comp (100 / 100) (inject_Z 1)) by reflexivity.
  rewrite !round_Z by lia. rewrite !mul_words by exact HN.
  rewrite (round_comp (inject_Z 0 * inject_Z (Z.of_nat N)) (inject_Z 0))
    by ring.
  rewrite (round_comp (inject_Z 1 * inject_Z (Z.of_nat N))
             (inject_Z (Z.of_nat N))) by ring.
  rewrite !round_Z by lia. cbn [floor]. by rewrite !Qfloor_Z.
Qed.

(** The stored progress at [current] of [total] seconds. *)
Lemma progressOf_steps (c t : Q) :
  (0 < t)%Q -> (0 <= c <= t)%Q ->
  exists f p,
    round (c / t) = Finite f /\ (0 <= f <= 1)%Q
    /\ progressOf (Finite c) (Finite t) = Finite p
    /\ round (f * 100) = Finite p /\ (0 <= p <= 100)%Q.
Proof.
  intros Ht Hc.
  destruct (round_between (c / t) 0 1) as (f & Hf & Hf01); [lia|lia| |].
  { change (inject_Z 0) with 0%Q. change (inject_Z 1) with 1%Q.
    split; [apply Qle_shift_div_l|apply Qle_shift_div_r]; lra. }
  change (inject_Z 0) with 0%Q in Hf01. change (inject_Z 1) with 1%Q in Hf01.
  destruct (round_between (f * 100) 0 100) as (p & Hp & Hp100); [lia|lia| |].
  { change (inject_Z 0) with 0%Q. change (inject_Z 100) with 100%Q. lra. }
  change (inject_Z 0) with 0%Q in Hp100.
  change (inject_Z 100) with 100%Q in Hp100.
  exists f, p. split; [exact Hf|]. split; [exact Hf01|].
  split; [|split; [exact Hp|exact Hp100]].
  unfold progressOf. cbn [div].
  rewrite (Qeq_bool_false t 0) by lra.
  by rewrite Hf, mul_hundred.
Qed.

Lemma progressOf_monotone (c c' t p p' : Q) :
  (0 < t)%Q -> (0 <= c)%Q -> (c <= c')%Q -> (c' <= t)%Q ->
  progressOf (Finite c) (Finite t) = Finite p ->
  progressOf (Finite c') (Finite t) = Finite p' ->
  (p <= p')%Q.
Proof.
  intros Ht H0 Hcc Hct Hp Hp'.
  destruct (progressOf_steps c t Ht ltac:(lra))
    as (f & q & Hf & _ & Hq & Hfq & _).
  destruct (progressOf_steps c' t Ht ltac:(lra))
    as (f' & q' & Hf' & _ & Hq' & Hfq' & _).
  rewrite Hq in Hp. rewrite Hq' in Hp'.
  injection Hp as ->. injection Hp' as ->.
  assert (Hff : (f <= f')%Q).
  { apply leq_Finite. rewrite <- Hf, <- Hf'. apply round_monotone.
    apply Qmult_le_compat_r; [exact Hcc|].
    apply Qlt_le_weak, Qinv_lt_0_compat, Ht. }
  apply leq_Finite. rewrite <- Hfq, <- Hfq'. apply round_monotone. lra.
Qed.

Lemma progressOf_ends (t : Q) :
  (0 < t)%Q ->
  progressOf (Finite 0) (Finite t) = Finite 0
  /\ progressOf (Finite t) (Finite t) = Finite 100.
Proof.
  intros Ht. unfold progressOf. cbn [div].
  rewrite (Qeq_bool_false t 0) by lra.
  rewrite (round_comp (0 / t) (inject_Z 0)) by (field; lra).
  rewrite (round_comp (t / t) (inject_Z 1)) by (field; lra).
  rewrite !round_Z by lia. rewrite !mul_hundred.
  rewrite (round_comp (inject_Z 0 * 100) (inject_Z 0)) by reflexivity.
  rewrite (round_comp (inject_Z 1 * 100) (inject_Z 100)) by reflexivity.
  by rewrite !round_Z by lia.
Qed.





End HighlightProperties.

(* ================================================================== *)
(** * Progress and the lock discipline                                 *)
(* ================================================================== *)

Section ProgressProperties.
Import Course App Service Progress.

Lemma countTopic_fold (ts : list Topic) (total completed : nat) :
  fold_left countTopic ts (total, completed)
  = ((total + length ts)%nat, (completed + completedCount ts)%nat).
Proof.
  revert total completed. unfold completedCount.
  induction ts as [|t ts IH]; intros total completed.
  - cbn. f_equal; lia.
  - cbn [fold_left countTopic]. rewrite IH, filter_cons.
    destruct (isCompleted t); cbn [length].
    + rewrite decide_True by reflexivity. cbn [length]. f_equal; lia.
    + rewrite decide_False by discriminate. f_equal; lia.
Qed.

Lemma countChapters_flat (chs : list Chapter) :
  countChapters chs
  = (length (allTopicsOf chs), completedCount (allTopicsOf chs)).
Proof.
  unfold countChapters.
  assert (H : forall total completed,
             fold_left (fun acc c => fold_left countTopic (topics c) acc)
               chs (total, completed)
             = ((total + length (allTopicsOf chs))%nat,
                (completed + completedCount (allTopicsOf chs))%nat)).
  { induction chs as [|c chs IH]; intros total completed.
    - cbn. f_equal; lia.
    - cbn [fold_left]. rewrite countTopic_fold, IH.
      unfold allTopicsOf, completedCount. cbn [flat_map].
      rewrite length_app, filter_app, length_app. f_equal; lia. }
  apply H.
Qed.

Lemma completedCount_le (ts : list Topic) :
  (completedCount ts <= length ts)%nat.
Proof. apply length_filter. Qed.

Lemma completedCount_all (ts : list Topic) :
  completedCount ts = length ts <-> Forall (fun t => isCompleted t = true) ts.
Proof.
  unfold completedCount. induction ts as [|t ts IH].
  - split; [constructor|reflexivity].
  - rewrite filter_cons. destruct (decide (isCompleted t = true)) as [Ht|Ht].
    + cbn [length]. split.
      * intros H. constructor; [exact Ht|]. apply IH. lia.
      * intros H. inversion H; subst. f_equal. by apply IH.
    + pose proof (length_filter (fun t => isCompleted t = true) ts) as Hf.
      cbn [length]. split; [lia|]. intros H. by inversion H.
Qed.

(** The percentage as a quotient of the two counts. *)
Lemma percent_le (c c' n : nat) :
  (c <= c')%nat ->
  (inject_Z (Z.of_nat c) / inject_Z (Z.of_nat (S n)) * 100
   <= inject_Z (Z.of_nat c') / inject_Z (Z.of_nat (S n)) * 100)%Q.
Proof.
  intros Hc. apply Qmult_le_compat_r; [|discriminate].
  apply Qmult_le_compat_r.
  - rewrite <- Zle_Qle. lia.
  - apply Qinv_le_0_compat. change 0%Q with (inject_Z 0).
    rewrite <- Zle_Qle. lia.
Qed.

Lemma completedCount_none (ts : list Topic) :
  completedCount ts = 0%nat
  <-> Forall (fun t => isCompleted t = false) ts.
Proof.
  unfold completedCount. induction ts as [|t ts IH]; [by split|].
  rewrite filter_cons, Forall_cons.
  destruct (decide (isCompleted t = true)) as [Ht|Ht]; cbn [length].
  - split; [lia|]. intros [H _]. congruence.
  - rewrite IH. split; [|by intros [_ H]].
    intros H. split; [|exact H]. by destruct (isCompleted t).
Qed.

End ProgressProperties.

(* ================================================================== *)
(** * The progress as the number the program computes                  *)
(* ================================================================== *)

Section ProgressNumberProperties.
Import Course App Service Progress Double Highlight ProgressNumber.

Lemma share_bounds (c t : Z) :
  0 < t <= 2 ^ 53 -> 0 <= c <= t ->
  let x := (inject_Z c / inject_Z t)%Q in
  (0 <= x <= 1)%Q
  /\ (c < t -> (x <= belowOne)%Q)
  /\ (0 < c -> (leastShare <= x)%Q).
Proof.
  intros Ht Hc. cbv zeta.
  assert (Ht0 : (0 < inject_Z t)%Q).
  { change 0%Q with (inject_Z 0). rewrite <- Zlt_Qlt. lia. }
  assert (Ht1 : (inject_Z t <= 9007199254740992)%Q).
  { change 9007199254740992%Q with (inject_Z (2 ^ 53)).
    rewrite <- Zle_Qle. lia. }
  assert (Hc0 : (0 <= inject_Z c)%Q).
  { change 0%Q with (inject_Z 0). rewrite <- Zle_Qle. lia. }
  assert (Hc1 : (inject_Z c <= inject_Z t)%Q) by (rewrite <- Zle_Qle; lia).
  split; [split|split].
  - apply Qle_shift_div_l; [exact Ht0|lra].
  - apply Qle_shift_div_r; [exact Ht0|lra].
  - intros Hlt.
    assert (Hc2 : (inject_Z c <= inject_Z t - 1)%Q).
    { setoid_replace (inject_Z t - 1)%Q with (inject_Z (t - 1)) using relation Qeq; [rewrite <- Zle_Qle; lia|]. unfold Z.sub. rewrite inject_Z_plus. reflexivity. }
    apply Qle_shift_div_r; [exact Ht0|]. unfold belowOne. lra.
  - intros Hpos.
    assert (Hc2 : (1 <= inject_Z c)%Q).
    { change 1%Q with (inject_Z 1). rewrite <- Zle_Qle. lia. }
    apply Qle_shift_div_l; [exact Ht0|]. unfold leastShare. lra.
Qed.

(** The percentage of [c] completed topics among [t]. *)
Lemma calculateProgress_percent (c t : nat) :
  (0 < t)%nat -> (c <= t)%nat -> Z.of_nat t <= 2 ^ 53 ->
  exists p,
    mul (div (ofNat c) (ofNat t)) (ofZ 100) = Finite p
    /\ (0 <= p <= 100)%Q
    /\ ((p == 100)%Q <-> c = t)
    /\ ((p == 0)%Q <-> c = 0%nat).
Proof.
  intros Ht Hc Hbound.
  unfold ofNat. rewrite !ofZ_exact by lia.
  assert (Hpos : (0 < inject_Z (Z.of_nat t))%Q).
  { change 0%Q with (inject_Z 0). rewrite <- Zlt_Qlt. lia. }
  destruct (share_bounds (Z.of_nat c) (Z.of_nat t)) as (Hx & Hlt & Hgt);
    [lia|lia|]. cbv zeta in Hx, Hlt, Hgt.
  fold (progressOf (Finite (inject_Z (Z.of_nat c)))
          (Finite (inject_Z (Z.of_nat t)))).
  assert (Hc0 : (0 <= inject_Z (Z.of_nat c) <= inject_Z (Z.of_nat t))%Q).
  { split; [change 0%Q with (inject_Z 0)|]; rewrite <- Zle_Qle; lia. }
  destruct (progressOf_steps _ _ Hpos Hc0) as (f & p & Ef & Hf & Ep & Efp & Hp).
  destruct (progressOf_ends _ Hpos) as [E0 E1].
  exists p. split; [exact Ep|]. split; [exact Hp|]. split; split.
  - intros H100. destruct (decide (c = t)) as [|Hne]; [done|]. exfalso.
    assert (Hb : (inject_Z (Z.of_nat c) / inject_Z (Z.of_nat t)
                  <= belowOne)%Q) by (apply Hlt; lia).
    pose proof (round_monotone _ _ Hb) as M. rewrite Ef in M.
    change (round belowOne) with (Finite belowOne) in M.
    apply leq_Finite in M.
    assert (Hb' : (f * 100 <= belowOne * 100)%Q) by lra.
    pose proof (round_monotone _ _ Hb') as M'. rewrite Efp in M'.
    assert (Ev : round (belowOne * 100)
                 = Finite (7036874417766399 # 70368744177664))
      by (vm_compute; reflexivity).
    rewrite Ev in M'. apply leq_Finite in M'.
    assert (Hv : (7036874417766399 # 70368744177664 < 100)%Q) by reflexivity.
    lra.
  - intros ->. rewrite E1 in Ep. by injection Ep as <-.
  - intros H0. destruct c as [|c']; [done|]. exfalso.
    assert (Hb : (leastShare <= inject_Z (Z.of_nat (S c'))
                                / inject_Z (Z.of_nat t))%Q)
      by (apply Hgt; lia).
    pose proof (round_monotone _ _ Hb) as M. rewrite Ef in M.
    assert (Ev0 : round leastShare = Finite leastShare)
      by (vm_compute; reflexivity).
    rewrite Ev0 in M. apply leq_Finite in M.
    assert (Hb' : (leastShare * 100 <= f * 100)%Q) by lra.
    pose proof (round_monotone _ _ Hb') as M'. rewrite Efp in M'.
    assert (Ev : round (leastShare * 100)
                 = Finite (25 # 2251799813685248))
      by (vm_compute; reflexivity).
    rewrite Ev in M'. apply leq_Finite in M'.
    assert (Hv : (0 < 25 # 2251799813685248)%Q) by reflexivity.
    lra.
  - intros ->. change (inject_Z (Z.of_nat 0)) with 0%Q in Ep.
    rewrite E0 in Ep. by injection Ep as <-.
Qed.

(** X1: the two counters of [calculateProgress] end as the number of
    topics and the number of completed topics.  The result is 0 without an
    outline or without topics; it always lies between 0 and 100; it is 100
    exactly when there is a topic and every topic is completed, and 0
    exactly when no topic is completed. *)
Theorem calculateProgress_range (cs : CourseStructure) :
  Z.of_nat (length (allTopics cs)) <= 2 ^ 53 ->
  calculateProgress None = Finite 0
  /\ countChapters (chapters cs)
     = (length (allTopics cs), completedCount (allTopics cs))
  /\ (allTopics cs = [] -> calculateProgress (Some cs) = Finite 0)
  /\ exists p,
       calculateProgress (Some cs) = Finite p
       /\ (0 <= p <= 100)%Q
       /\ ((p == 100)%Q
           <-> allTopics cs <> []
               /\ Forall (fun t => isCompleted t = true) (allTopics cs))
       /\ ((p == 0)%Q
           <-> Forall (fun t => isCompleted t = false) (allTopics cs)).
Proof.
  intros Hbound.
  split; [reflexivity|]. split; [apply countChapters_flat|].
  unfold calculateProgress, allTopics in *. rewrite countChapters_flat.
  set (ts := allTopicsOf (chapters cs)) in *.
  pose proof (completedCount_le ts) as Hle.
  pose proof (completedCount_all ts) as Hall.
  pose proof (completedCount_none ts) as Hnone.
  destruct (decide (ts = [])) as [Hnil|Hcons].
  - rewrite Hnil in *. cbn [length Nat.eqb].
    split; [reflexivity|]. exists 0%Q.
    split; [reflexivity|]. split; [lra|].
    split; [split; [discriminate|by intros [H _]]|].
    split; [constructor|reflexivity].
  - assert (Hlen : (0 < length ts)%nat).
    { destruct ts; [done|cbn [length]; lia]. }
    split; [done|].
    destruct (length ts =? 0)%nat eqn:Hz; [apply Nat.eqb_eq in Hz; lia|].
    destruct (calculateProgress_percent (completedCount ts) (length ts) Hlen Hle Hbound)
      as (p & Ep & Hp & H100 & H0).
    exists p. split; [exact Ep|]. split; [exact Hp|].
    rewrite H100, H0, Hall, Hnone. split; [|reflexivity].
    split; [intros H|intros [_ H]]; done.
Qed.

Lemma calculateProgress_range_witness :
  calculateProgress (Some threeTopics) = Finite 0
  /\ calculateProgress (passTopic 0 (Some threeTopics))
     = Finite (2345624805922133 # 70368744177664)
  /\ exists cs p,
       passTopic 0 (Some threeTopics) = Some cs
       /\ calculateProgress (Some cs) = Finite p
       /\ (0 <= p <= 100)%Q /\ ~ (p == 100)%Q /\ ~ (p == 0)%Q.
Proof.
  split; [vm_compute; reflexivity|]. split; [vm_compute; reflexivity|].
  assert (Hpass : passTopic 0 (Some threeTopics)
                  = Some {| cs_title := "Course"; summary := "Summary";
                            chapters :=
                              [ {| ch_id := "ch-0"; ch_title := "One";
                                   topics := [complete (demoTopic 0 false);
                                              unlock (demoTopic 1 true);
                                              demoTopic 2 true] |} ] |})
    by (vm_compute; reflexivity).
  rewrite Hpass. eexists. 
  destruct (calculateProgress_range
              {| cs_title := "Course"; summary := "Summary";
                 chapters :=
                   [ {| ch_id := "ch-0"; ch_title := "One";
                        topics := [complete (demoTopic 0 false);
                                   unlock (demoTopic 1 true);
                                   demoTopic 2 true] |} ] |})
    as (_ & _ & _ & p & Ep & Hp & H100 & H0); [discriminate|].
  exists p. split; [reflexivity|]. split; [exact Ep|]. split; [exact Hp|].
  split.
  - intros H. apply H100 in H as [_ Hall].
    apply Forall_cons in Hall as [_ Hall].
    apply Forall_cons in Hall as [Hsecond _]. discriminate Hsecond.
  - intros H. apply H0 in H.
    apply Forall_cons in H as [Hfirst _]. discriminate Hfirst.
Defined.

End ProgressNumberProperties.

Section DisciplineProperties.
Import Course App Service Progress.

(** What [updateTopic] can do to a topic: the identifier, title and
    description stay, a completed topic stays completed and an unlocked
    topic stays unlocked. *)
Lemma updateTopic_forward (cur : Topic) (next : option Topic) (t : Topic) :
  let t' := updateTopic cur next t in
  id t' = id t /\ title t' = title t /\ description t' = description t
  /\ (isCompleted t = true -> isCompleted t' = true)
  /\ (isLocked t = false -> isLocked t' = false).
Proof.
  cbv zeta. unfold updateTopic.
  destruct (String.eqb (id t) (id cur)); [by cbn|].
  destruct next as [n|]; [|by idtac].
  destruct (String.eqb (id t) (id n)); by cbn.
Qed.

Lemma completedCount_map_le (f : Topic -> Topic) (ts : list Topic) :
  (forall t, isCompleted t = true -> isCompleted (f t) = true) ->
  (completedCount ts <= completedCount (map f ts))%nat.
Proof.
  intros Hf. unfold completedCount. induction ts as [|t ts IH]; [done|].
  cbn [map]. rewrite !filter_cons.
  destruct (decide (isCompleted t = true)) as [Ht|Ht].
  - rewrite decide_True by (by apply Hf). cbn [length]. lia.
  - destruct (decide (isCompleted (f t) = true)); cbn [length]; lia.
Qed.

(** X2: whatever the quiz result and the current topic,
    [handleQuizFinish] keeps the outline (when there is one) in shape: the
    same topics in the same order with the same identifiers, titles and
    descriptions; no completed topic becomes incomplete and no unlocked
    topic becomes locked; the progress percentage does not decrease. *)
Theorem handleQuizFinish_forward (passed : bool) (st : State)
    (cs : CourseStructure) :
  courseStructure st = Some cs ->
  exists cs',
    courseStructure (handleQuizFinish passed st) = Some cs'
    /\ length (allTopics cs') = length (allTopics cs)
    /\ map id (allTopics cs') = map id (allTopics cs)
    /\ (forall i t, allTopics cs !! i = Some t ->
          exists t', allTopics cs' !! i = Some t'
            /\ id t' = id t /\ title t' = title t
            /\ description t' = description t
            /\ (isCompleted t = true -> isCompleted t' = true)
            /\ (isLocked t = false -> isLocked t' = false))
    /\ (calculateProgress (Some cs) <= calculateProgress (Some cs'))%Q.
Proof.
  intros Hcs.
  assert (Hsame : forall cs0 : CourseStructure,
            length (allTopics cs0) = length (allTopics cs0)
            /\ map id (allTopics cs0) = map id (allTopics cs0)
            /\ (forall i t, allTopics cs0 !! i = Some t ->
                  exists t', allTopics cs0 !! i = Some t'
                    /\ id t' = id t /\ title t' = title t
                    /\ description t' = description t
                    /\ (isCompleted t = true -> isCompleted t' = true)
                    /\ (isLocked t = false -> isLocked t' = false))
            /\ (calculateProgress (Some cs0) <= calculateProgress (Some cs0))%Q).
  { intros cs0. repeat split; try apply Qle_refl.
    intros i t Hi. exists t. by repeat split. }
  destruct (currentTopic st) as [cur|] eqn:Hcur;
    [destruct passed|].
  - destruct (handleQuizFinish_true st cs cur Hcs Hcur)
      as (cs' & Hres & _ & _ & _ & _ & _ & Hall).
    exists cs'. split; [exact Hres|]. rewrite Hall.
    set (f := updateTopic cur _) in *.
    split; [apply length_map|]. split.
    { rewrite map_map. apply map_ext. intros t.
      apply (updateTopic_forward cur _ t). }
    split.
    { intros i t Hi. exists (f t). split.
      - change (map f ?l) with (f <$> l). by rewrite list_lookup_fmap, Hi.
      - apply (updateTopic_forward cur _ t). }
    unfold calculateProgress, allTopics in *.
    rewrite !countChapters_flat, Hall, length_map.
    destruct (length (allTopicsOf (chapters cs))) as [|n]; [apply Qle_refl|].
    cbn [Nat.eqb]. apply percent_le, completedCount_map_le.
    intros t. apply (updateTopic_forward cur _ t).
  - exists cs. split; [|apply Hsame].
    unfold handleQuizFinish. by rewrite Hcs, Hcur.
  - exists cs. split; [|apply Hsame].
    unfold handleQuizFinish. by rewrite Hcs, Hcur.
Qed.

Lemma handleQuizFinish_forward_witness :
  exists cs',
    courseStructure (handleQuizFinish true (demoState (demoTopic 0 false)))
    = Some cs'
    /\ map id (allTopics cs') = ["topic-0"; "topic-1"; "topic-2"]
    /\ (calculateProgress (Some demoOutline)
        <= calculateProgress (Some cs'))%Q.
Proof.
  destruct (handleQuizFinish_forward true (demoState (demoTopic 0 false))
              demoOutline eq_refl) as (cs' & Hres & _ & Hids & _ & Hprog).
  exists cs'. split; [exact Hres|]. split; [|exact Hprog].
  rewrite Hids. reflexivity.
Defined.

End DisciplineProperties.

Section LockDiscipline.
Import Course App Service.

Lemma lookup_map_flag {B} (f : Topic -> B) (ts : list Topic) (flags : list B)
    (i : nat) (t : Topic) :
  map f ts = flags -> ts !! i = Some t -> flags !! i = Some (f t).
Proof.
  intros <- Hi. change (map f ts) with (f <$> ts).
  by rewrite list_lookup_fmap, Hi.
Qed.

Lemma addIds_not_completed (rawData : RawCourse) (i : nat) (t : Topic) :
  allTopics (addIds rawData) !! i = Some t -> isCompleted t = false.
Proof.
  intros Hi.
  destruct (addIds_initial_state rawData) as (_ & _ & _ & _ & _ & Hdone & _).
  cbv zeta in Hdone.
  apply (lookup_map_flag _ _ _ i t Hdone) in Hi.
  apply lookup_replicate in Hi as [Hi _]. congruence.
Qed.

(** The unlocked topics of a fresh outline: the first one when the first
    chapter has a topic, none otherwise. *)
Lemma addIds_locked_prefix (rawData : RawCourse) :
  exists a : nat,
    (a <= length (allTopics (addIds rawData)))%nat
    /\ forall i t, allTopics (addIds rawData) !! i = Some t ->
         (isLocked t = false <-> (i < a)%nat).
Proof.
  destruct (raw_chapters rawData) as [|ch rest] eqn:Hraw.
  - exists 0%nat. unfold addIds, allTopics. rewrite Hraw. cbn.
    split; [lia|]. intros i t Hi. by rewrite lookup_nil in Hi.
  - destruct (rawch_topics ch) as [|rt rts] eqn:Hts.
    + exists 0%nat. split; [lia|]. intros i t Hi.
      assert (Hlock : map isLocked (allTopics (addIds rawData))
                      = replicate (rawTopicCount rest) true).
      { unfold addIds, allTopics. cbn [chapters]. rewrite Hraw.
        cbn [mapChapters]. rewrite Hts. cbn [mapTopics].
        unfold allTopicsOf. cbn [flat_map topics app].
        apply (mapChapters_locked_later 1). lia. }
      apply (lookup_map_flag _ _ _ i t Hlock) in Hi.
      apply lookup_replicate in Hi as [Hi _]. split; [congruence|lia].
    + destruct (addIds_initial_state rawData)
        as (_ & Hlen & _ & _ & _ & _ & Hlock).
      cbv zeta in Hlen, Hlock.
      specialize (Hlock ch rest Hraw). rewrite Hts in Hlock.
      specialize (Hlock ltac:(discriminate)).
      assert (Hpos : (1 <= length (allTopics (addIds rawData)))%nat).
      { rewrite Hlen, Hraw. unfold rawTopicCount. cbn [flat_map].
        rewrite Hts. cbn [app length]. lia. }
      exists 1%nat. split; [exact Hpos|]. intros i t Hi.
      apply (lookup_map_flag _ _ _ i t Hlock) in Hi.
      destruct i as [|i]; cbn in Hi.
      * injection Hi as <-. split; [lia|reflexivity].
      * apply lookup_replicate in Hi as [Hi _]. split; [congruence|lia].
Qed.

(** The flattened topics after a passed quiz on the topic at position
    [k] of an outline with distinct identifiers. *)
Lemma passed_positions (cs : CourseStructure) (cur t : Topic) (k : nat) :
  NoDup (map id (allTopics cs)) ->
  allTopics cs !! k = Some t ->
  id cur = id t ->
  exists cs',
    courseStructure
      (handleQuizFinish true
         {| courseStructure := Some cs; currentTopic := Some cur;
            appState := QUIZ |}) = Some cs'
    /\ length (allTopics cs') = length (allTopics cs)
    /\ forall i u, allTopics cs !! i = Some u ->
         allTopics cs' !! i = Some (advanced k i u).
Proof.
  intros Hnd Hk Hid.
  destruct (handleQuizFinish_true
              {| courseStructure := Some cs; currentTopic := Some cur;
                 appState := QUIZ |} cs cur eq_refl eq_refl)
    as (cs' & Hres & _ & _ & _ & _ & _ & Hall).
  assert (Hidx : findIndex (fun u => String.eqb (id u) (id cur)) (allTopics cs)
                 = Z.of_nat k).
  { unfold findIndex.
    rewrite (findIndexFrom_first _ _ k t Hk);
      [lia|by rewrite Hid, String.eqb_refl|].
    intros j y Hj Hy.
    destruct (String.eqb_spec (id y) (id cur)) as [Heq|]; [|done].
    exfalso. assert (j = k); [|lia].
    apply (id_lookup_inj _ j k y t Hnd Hy Hk). congruence. }
  rewrite Hidx in Hall.
  replace (Z.of_nat k + 1) with (Z.of_nat (S k)) in Hall by lia.
  rewrite at_nat in Hall.
  exists cs'. split; [exact Hres|]. rewrite Hall.
  split; [apply length_map|].
  intros i u Hi.
  change (map ?f ?l) with (f <$> l). rewrite list_lookup_fmap, Hi.
  cbn [fmap option_fmap option_map]. f_equal.
  by apply (updateTopic_advanced cs cur t k Hnd Hk).
Qed.

Lemma advanced_id (k i : nat) (u : Topic) : id (advanced k i u) = id u.
Proof.
  unfold advanced. destruct (decide (i = k)); [reflexivity|].
  destruct (decide (i = S k)); reflexivity.
Qed.

Lemma lock_discipline_pass (cs cs' : CourseStructure) (k : nat) (t : Topic) :
  lock_discipline cs ->
  allTopics cs !! k = Some t ->
  isLocked t = false ->
  length (allTopics cs') = length (allTopics cs) ->
  (forall i u, allTopics cs !! i = Some u ->
               allTopics cs' !! i = Some (advanced k i u)) ->
  lock_discipline cs'.
Proof.
  intros (Hnd & a & Ha & Hinv) Hk Hunlocked Hlen Hpos.
  assert (Hka : (k < a)%nat) by (by apply (proj1 (Hinv k t Hk))).
  assert (Hids : map id (allTopics cs') = map id (allTopics cs)).
  { apply list_eq. intros i.
    change (map id ?l) with (id <$> l). rewrite !list_lookup_fmap.
    destruct (allTopics cs !! i) as [u|] eqn:Hi.
    - rewrite (Hpos i u Hi). cbn. by rewrite advanced_id.
    - apply lookup_ge_None_1 in Hi.
      rewrite (lookup_ge_None_2 (allTopics cs') i) by lia. reflexivity. }
  split; [by rewrite Hids|].
  exists (if decide (S k = a /\ (a < length (allTopics cs))%nat)
          then S a else a).
  rewrite Hlen. split; [case_decide; lia|].
  intros i t' Hi'.
  assert (Hlt : (i < length (allTopics cs))%nat).
  { apply lookup_lt_Some in Hi'. lia. }
  destruct (lookup_lt_is_Some_2 _ _ Hlt) as [u Hi].
  rewrite (Hpos i u Hi) in Hi'. injection Hi' as <-.
  destruct (Hinv i u Hi) as [Hlock Hdone].
  unfold advanced.
  destruct (decide (i = k)) as [->|Hik].
  - cbn [complete isLocked isCompleted]. split.
    + rewrite Hlock. case_decide; lia.
    + intros _. case_decide; lia.
  - destruct (decide (i = S k)) as [->|HiS].
    + cbn [unlock isLocked isCompleted]. split.
      * split; [intros _|reflexivity]. case_decide; lia.
      * intros Hc. destruct (Hdone Hc). case_decide; lia.
    + split.
      * rewrite Hlock. case_decide; lia.
      * intros Hc. destruct (Hdone Hc). case_decide; lia.
Qed.

(** X3: every outline the application can hold after an analysis keeps
    the lock discipline: topic identifiers are distinct, the unlocked
    topics are an initial segment of the flattened order, every completed
    topic is unlocked, and the topic after a completed one is unlocked. *)
Theorem reachable_lock_discipline (rawData : RawCourse)
    (cs : CourseStructure) :
  reachable rawData cs -> lock_discipline cs.
Proof.
  induction 1 as [|cs cs' t cur passed Hreach IH Ht Hunlocked Hid Hres].
  - split.
    + by destruct (addIds_initial_state rawData) as (_ & _ & _ & _ & Hnd & _).
    + destruct (addIds_locked_prefix rawData) as (a & Ha & Hlock).
      exists a. split; [exact Ha|]. intros i t Hi. split; [by apply Hlock|].
      intros Hc. apply addIds_not_completed in Hi. congruence.
  - destruct passed.
    + apply list_elem_of_lookup in Ht as [k Hk].
      destruct (passed_positions cs cur t k (proj1 IH) Hk Hid)
        as (cs2 & Hres2 & Hlen & Hpos).
      rewrite Hres in Hres2. injection Hres2 as <-.
      by apply (lock_discipline_pass cs cs' k t).
    + cbn in Hres. injection Hres as <-. exact IH.
Qed.

Lemma reachable_lock_discipline_witness :
  exists cs,
    courseStructure
      (handleQuizFinish true
         {| courseStructure := Some (addIds twoChapters);
            currentTopic := Some (demoTopic 0 false);
            appState := QUIZ |}) = Some cs
    /\ lock_discipline cs.
Proof.
  eexists. split; [reflexivity|].
  apply (reachable_lock_discipline twoChapters).
  eapply (reach_quiz twoChapters (addIds twoChapters) _ _
            (demoTopic 0 false) true (reach_init twoChapters)).
  - apply list_elem_of_lookup. exists 0%nat. reflexivity.
  - reflexivity.
  - reflexivity.
  - reflexivity.
Defined.

End LockDiscipline.

(* ================================================================== *)
(** * The words of the transcript                                      *)
(* ================================================================== *)

Section TranscriptProperties.
Import LessonPlayer.

Lemma chars_ofChars (cs : list ascii) : Js.chars (Js.ofChars cs) = cs.
Proof. apply list_ascii_of_string_of_list_ascii. Qed.

Lemma filter_nonSpace_cons (c : ascii) (s : list ascii) :
  filter (fun c => nonSpace c) (c :: s)
  = if Js.isSpace c then filter (fun c => nonSpace c) s
    else c :: filter (fun c => nonSpace c) s.
Proof.
  rewrite filter_cons.
  destruct (decide (nonSpace c)) as [H|H]; unfold nonSpace in H;
    destruct (Js.isSpace c); cbn in H; done.
Qed.

Lemma splitSpacesFrom_chars (cur : list ascii) (inRun : bool) (s : list ascii) :
  concat (map Js.chars (splitSpacesFrom cur inRun s))
  = rev cur ++ filter (fun c => nonSpace c) s.
Proof.
  revert cur inRun. induction s as [|c s IH]; intros cur inRun.
  - cbn. by rewrite chars_ofChars.
  - cbn [splitSpacesFrom]. rewrite filter_nonSpace_cons.
    destruct (Js.isSpace c).
    + destruct inRun; [apply IH|].
      cbn [map concat]. by rewrite chars_ofChars, IH.
    + rewrite IH. cbn [rev]. by rewrite <- app_assoc.
Qed.

Lemma splitSpacesFrom_clean (cur : list ascii) (inRun : bool) (s : list ascii) :
  Forall (fun c => nonSpace c = true) cur ->
  Forall (fun w => Forall (fun c => nonSpace c = true) (Js.chars w))
         (splitSpacesFrom cur inRun s).
Proof.
  revert cur inRun. induction s as [|c s IH]; intros cur inRun Hcur.
  - cbn. constructor; [|constructor].
    rewrite chars_ofChars. by apply Forall_rev.
  - cbn [splitSpacesFrom]. destruct (Js.isSpace c) eqn:Hc.
    + destruct inRun; [by apply IH|].
      constructor; [|by apply IH].
      rewrite chars_ofChars. by apply Forall_rev.
    + apply IH. constructor; [|exact Hcur]. unfold nonSpace. by rewrite Hc.
Qed.

Lemma nonempty_chars (pieces : list string) :
  concat (map Js.chars (filter (fun w => (0 <? String.length w)%nat) pieces))
  = concat (map Js.chars pieces).
Proof.
  induction pieces as [|w ws IH]; [reflexivity|].
  rewrite filter_cons.
  destruct (decide ((0 <? String.length w)%nat)) as [H|H].
  - cbn [map concat]. by rewrite IH.
  - destruct w as [|c w]; [|by destruct H].
    cbn [map concat]. change (Js.chars "") with (@nil ascii). exact IH.
Qed.

(** The words of one paragraph. *)
Lemma paragraph_words (text : string) :
  let ws := filter (fun w => (0 <? String.length w)%nat) (splitSpaces text) in
  Forall properWord ws
  /\ concat (map Js.chars ws) = filter (fun c => nonSpace c) (Js.chars text).
Proof.
  cbv zeta. split.
  - apply Forall_forall. intros w Hw.
    apply list_elem_of_filter in Hw as [Hlen Hw].
    split; [by destruct w|].
    pose proof (splitSpacesFrom_clean [] false (Js.chars text)
                  (List.Forall_nil _)) as Hc.
    rewrite Forall_forall in Hc. by apply Hc.
  - rewrite nonempty_chars. unfold splitSpaces.
    by rewrite splitSpacesFrom_chars.
Qed.

Lemma splitLinesFrom_chars (cur s : list ascii) :
  concat (map (fun l => filter (fun c => nonSpace c) (Js.chars l))
              (splitLinesFrom cur s))
  = filter (fun c => nonSpace c) (rev cur ++ s).
Proof.
  revert cur. induction s as [|c s IH]; intros cur.
  - cbn. by rewrite chars_ofChars, !app_nil_r.
  - cbn [splitLinesFrom]. destruct (Ascii.eqb_spec c newline) as [->|_].
    + cbn [map concat]. rewrite chars_ofChars, IH.
      rewrite (filter_app _ (rev cur)), filter_nonSpace_cons. reflexivity.
    + rewrite IH. cbn [rev]. by rewrite <- app_assoc.
Qed.

Lemma trimTruthy_false (l : string) :
  trimTruthy l = false -> filter (fun c => nonSpace c) (Js.chars l) = [].
Proof.
  unfold trimTruthy. induction (Js.chars l) as [|c s IH]; [reflexivity|].
  cbn [existsb]. intros H. apply orb_false_iff in H as [Hc Hs].
  rewrite filter_nonSpace_cons.
  destruct (Js.isSpace c) eqn:E; [by apply IH|]. cbn in Hc. discriminate.
Qed.

Lemma trimTruthy_true (l : string) :
  trimTruthy l = true -> filter (fun c => nonSpace c) (Js.chars l) <> [].
Proof.
  unfold trimTruthy. induction (Js.chars l) as [|c s IH]; [discriminate|].
  cbn [existsb]. rewrite filter_nonSpace_cons.
  destruct (Js.isSpace c) eqn:E; cbn; [exact IH|discriminate].
Qed.

Lemma kept_lines_chars (ls : list string) :
  concat (map (fun l => filter (fun c => nonSpace c) (Js.chars l))
              (filter trimTruthy ls))
  = concat (map (fun l => filter (fun c => nonSpace c) (Js.chars l)) ls).
Proof.
  induction ls as [|l ls IH]; [reflexivity|].
  rewrite filter_cons.
  destruct (decide (trimTruthy l)) as [Hl|Hl]; cbn [map concat].
  - by rewrite IH.
  - apply Is_true_false in Hl. by rewrite (trimTruthy_false l Hl), IH.
Qed.

(** What [mapParagraphs] builds: paragraph by paragraph the words of the
    text, with [start] the accumulator and [end = start + words.length]. *)
Lemma mapParagraphs_spec (acc : nat) (ps : list string) :
  let r := fst (mapParagraphs acc ps) in
  map p_text r = ps
  /\ Forall (fun p =>
       words p = filter (fun w => (0 <? String.length w)%nat)
                        (splitSpaces (p_text p))
       /\ p_end p = (p_start p + length (words p))%nat) r
  /\ flat_map globalIndexes r = seq acc (length (flat_map words r)).
Proof.
  revert acc. induction ps as [|text ps IH]; intros acc.
  - cbn. repeat split. constructor.
  - cbn [mapParagraphs].
    set (ws := filter (fun w => (0 <? String.length w)%nat) (splitSpaces text)).
    specialize (IH (acc + length ws)%nat). cbv zeta in IH.
    destruct (mapParagraphs (acc + length ws) ps) as [rest total].
    cbn [fst] in *. destruct IH as (Htexts & Hwords & Hidx).
    split; [cbn; by rewrite Htexts|]. split.
    + constructor; [by cbn|exact Hwords].
    + cbn [flat_map]. rewrite Hidx. unfold globalIndexes at 1.
      cbn [p_start words]. rewrite length_app, seq_app. f_equal.
      change (map ?f ?l) with (f <$> l).
      rewrite (fmap_add_seq acc 0). f_equal. lia.
Qed.

Lemma words_chars (ps : list Paragraph) :
  Forall (fun p =>
    words p = filter (fun w => (0 <? String.length w)%nat)
                     (splitSpaces (p_text p))
    /\ p_end p = (p_start p + length (words p))%nat) ps ->
  concat (map Js.chars (flat_map words ps))
  = concat (map (fun l => filter (fun c => nonSpace c) (Js.chars l))
                (map p_text ps)).
Proof.
  induction 1 as [|p ps [Hw _] _ IH]; [reflexivity|].
  cbn [flat_map map concat]. rewrite map_app, concat_app, IH, Hw.
  by rewrite (proj2 (paragraph_words (p_text p))).
Qed.

Lemma transcriptData_paragraphs (script : option string) :
  let T := transcriptData script in
  totalWords T = length (flat_map words (paragraphs T))
  /\ map p_text (paragraphs T)
     = (if Js.truthy script
        then filter trimTruthy (splitLines (default "" script)) else [])
  /\ Forall (fun p =>
       words p = filter (fun w => (0 <? String.length w)%nat)
                        (splitSpaces (p_text p))
       /\ p_end p = (p_start p + length (words p))%nat) (paragraphs T)
  /\ flat_map globalIndexes (paragraphs T)
     = seq 0 (length (flat_map words (paragraphs T))).
Proof.
  cbv zeta. split; [apply totalWords_flat|].
  unfold transcriptData. destruct (Js.truthy script); cbn [negb].
  - pose proof (mapParagraphs_spec 0
      (filter trimTruthy (splitLines (default "" script)))) as H.
    cbv zeta in H. destruct (mapParagraphs 0 _) as [ps total].
    cbn [fst paragraphs] in *. exact H.
  - cbn. repeat split. constructor.
Qed.

(** X4: the indexes [para.start + wIdx] that the transcript view gives to
    the words, paragraph after paragraph, are 0, 1, ..., N-1 with
    N = [totalWords]: every word has one index, in reading order; each
    paragraph ends where the next starts ([end = start + words.length])
    and contains at least one word. *)
Theorem transcript_indexes (script : option string) :
  let T := transcriptData script in
  flat_map globalIndexes (paragraphs T) = seq 0 (totalWords T)
  /\ Forall (fun p => p_end p = (p_start p + length (words p))%nat
                      /\ (p_start p < p_end p)%nat) (paragraphs T).
Proof.
  cbv zeta.
  destruct (transcriptData_paragraphs script) as (Htotal & Htexts & Hps & Hidx).
  cbv zeta in *. split; [by rewrite Htotal|].
  apply Forall_forall. intros p Hp.
  rewrite Forall_forall in Hps. destruct (Hps p Hp) as [Hw Hend].
  split; [exact Hend|].
  assert (Hkept : trimTruthy (p_text p) = true).
  { assert (Hin : p_text p ∈ map p_text (paragraphs (transcriptData script))).
    { change (map p_text ?l) with (p_text <$> l). by apply list_elem_of_fmap_2. }
    rewrite Htexts in Hin. destruct (Js.truthy script).
    - apply list_elem_of_filter in Hin as [Hin _]. by apply Is_true_true.
    - by apply elem_of_nil in Hin. }
  apply trimTruthy_true in Hkept.
  rewrite <- (proj2 (paragraph_words (p_text p))), <- Hw in Hkept.
  destruct (words p); [done|]. cbn [length] in Hend. lia.
Qed.

(** X5: no word of the transcript is empty or contains white space, and
    the words, concatenated in order, are exactly the characters of the
    script that are not white space: splitting loses and invents nothing;
    there are no words exactly when the script is blank. *)
Theorem transcript_words (script : option string) :
  let T := transcriptData script in
  Forall properWord (flat_map words (paragraphs T))
  /\ concat (map Js.chars (flat_map words (paragraphs T)))
     = filter (fun c => nonSpace c) (Js.chars (default "" script))
  /\ (totalWords T = 0%nat
      <-> filter (fun c => nonSpace c) (Js.chars (default "" script)) = []).
Proof.
  cbv zeta.
  destruct (transcriptData_paragraphs script) as (Htotal & Htexts & Hps & _).
  cbv zeta in *.
  assert (Hproper : Forall properWord
                      (flat_map words (paragraphs (transcriptData script)))).
  { apply Forall_flat_map. eapply Forall_impl; [exact Hps|].
    intros p [Hw _]. cbn. rewrite Hw. apply (paragraph_words (p_text p)). }
  assert (Hchars : concat (map Js.chars
                     (flat_map words (paragraphs (transcriptData script))))
                   = filter (fun c => nonSpace c)
                            (Js.chars (default "" script))).
  { rewrite (words_chars _ Hps), Htexts.
    destruct script as [[|c s]|]; cbn [Js.truthy]; try reflexivity.
    rewrite kept_lines_chars. unfold splitLines.
    by rewrite splitLinesFrom_chars. }
  split; [exact Hproper|]. split; [exact Hchars|].
  rewrite Htotal, <- Hchars.
  destruct (flat_map words (paragraphs (transcriptData script))) as [|w ws].
  - done.
  - split; [discriminate|]. intros Hnil. exfalso.
    apply Forall_cons in Hproper as [[Hne _] _].
    cbn [map concat] in Hnil. apply app_eq_nil in Hnil as [Hw _].
    destruct w; [done|discriminate].
Qed.

End TranscriptProperties.

(* ================================================================== *)
(** * Lesson script, quiz and speech: failures and results             *)
(* ================================================================== *)

Section RetryShapes.
Import Async Retry.

(** Three shapes of a run of [withRetry] with its default budget. *)
Lemma retry_default_ok {S T} (op : Async S T) (w w' : World S) (v : T) :
  op w = (inr v, w') -> withRetry_default op w = (inr v, w').
Proof.
  intros H. unfold withRetry_default. by rewrite withRetry_succ, H.
Qed.

Lemma retry_default_stop {S T} (op : Async S T) (w w' : World S)
    (e : Js.Error) :
  op w = (inl e, w') -> transient e = false ->
  withRetry_default op w = (inl e, w').
Proof.
  intros H Ht. unfold withRetry_default. by rewrite withRetry_succ, H, Ht.
Qed.

Lemma retry_default_twice {S T} (op : Async S T) (w0 w1 w2 w3 : World S)
    (e1 e2 : Js.Error) (r : Js.Error + T) :
  op w0 = (inl e1, w1) -> transient e1 = true ->
  op (awaited 1000 w1) = (inl e2, w2) -> transient e2 = true ->
  op (awaited 2000 w2) = (r, w3) ->
  withRetry_default op w0 = (r, w3).
Proof.
  intros H0 T1 H1 T2 H2. unfold withRetry_default, awaited in *.
  rewrite withRetry_succ, H0, T1.
  rewrite withRetry_succ, H1, T2. change (1000 * 2) with 2000.
  by rewrite withRetry_zero, H2.
Qed.

Lemma retry_default_once {S T} (op : Async S T) (w0 w1 w2 : World S)
    (e1 : Js.Error) (v : T) :
  op w0 = (inl e1, w1) -> transient e1 = true ->
  op (awaited 1000 w1) = (inr v, w2) ->
  withRetry_default op w0 = (inr v, w2).
Proof.
  intros H0 T1 H1. unfold withRetry_default, awaited in *.
  rewrite withRetry_succ, H0, T1.
  by rewrite withRetry_succ, H1.
Qed.

End RetryShapes.

Section GenerationProperties.
Import Async Retry Service Generation.

Context {S : Type}.
Variable generateContent :
  Generation.Request -> S -> (Js.Error + Response) * S.
Variable JSON_parse_lesson : string -> Js.Error + LessonContent.
Variable JSON_parse_quiz : string -> Js.Error + list QuizView.QuizQuestion.
Variable atob : string -> Js.Error + string.
Variable createObjectURL : list byte -> S -> string * S.

Let lesson := generateLessonContent generateContent JSON_parse_lesson.
Let quiz := generateQuiz generateContent JSON_parse_quiz.
Let speech := generateLessonAudio generateContent atob createObjectURL.

Lemma lessonOperation_failure (topic pdf : string) (tutor : TutorProfile)
    (s0 s1 : S) (e : Js.Error) (sl : list Z) :
  generateContent (LessonRequest (cleanBase64 pdf) topic tutor) s0
  = (inl e, s1) ->
  lessonOperation generateContent JSON_parse_lesson topic pdf tutor
    {| ext := s0; slept := sl |}
  = (inl (lessonTranslated e), {| ext := s1; slept := sl |}).
Proof.
  intros Hcall. unfold lessonOperation, tryCatch, bind.
  rewrite (extern_run _ _ _ _ _ Hcall). unfold lessonTranslated, throw.
  destruct (Js.messageIncludes "document has no pages" e); [reflexivity|].
  destruct (Js.messageIncludes "xhr" e || Js.messageIncludes "Rpc failed" e
            || Js.statusIs 500 e); reflexivity.
Qed.

Lemma quizOperation_failure (topic pdf : string) (s0 s1 : S) (e : Js.Error)
    (sl : list Z) :
  generateContent (QuizRequest (cleanBase64 pdf) topic) s0 = (inl e, s1) ->
  quizOperation generateContent JSON_parse_quiz topic pdf
    {| ext := s0; slept := sl |}
  = (inl (quizTranslated e), {| ext := s1; slept := sl |}).
Proof.
  intros Hcall. unfold quizOperation, tryCatch, bind.
  rewrite (extern_run _ _ _ _ _ Hcall). unfold quizTranslated, throw.
  destruct (Js.messageIncludes "xhr" e || Js.messageIncludes "Rpc failed" e);
    [reflexivity|].
  destruct (Js.messageIncludes "document has no pages" e); reflexivity.
Qed.

Lemma speechOperation_failure (txt voice : string) (s0 s1 : S) (e : Js.Error)
    (sl : list Z) :
  generateContent (SpeechRequest txt voice) s0 = (inl e, s1) ->
  speechOperation generateContent atob createObjectURL txt voice
    {| ext := s0; slept := sl |}
  = (inl e, {| ext := s1; slept := sl |}).
Proof.
  intros Hcall. unfold speechOperation, bind.
  by rewrite (extern_run _ _ _ _ _ Hcall).
Qed.

Lemma lessonOperation_success (topic pdf : string) (tutor : TutorProfile)
    (s0 s1 : S) (txt : string) (cands : option (list Candidate))
    (content : LessonContent) (sl : list Z) :
  generateContent (LessonRequest (cleanBase64 pdf) topic tutor) s0
  = (inr {| text := Some txt; candidates := cands |}, s1) ->
  txt <> "" ->
  JSON_parse_lesson txt = inr content ->
  lessonOperation generateContent JSON_parse_lesson topic pdf tutor
    {| ext := s0; slept := sl |}
  = (inr content, {| ext := s1; slept := sl |}).
Proof.
  intros Hcall Htxt Hparse. unfold lessonOperation, tryCatch, bind.
  rewrite (extern_run _ _ _ _ _ Hcall). cbn [text].
  destruct txt as [|c txt]; [done|].
  cbn [Js.truthy negb from_option Datatypes.id]. unfold liftEither.
  by rewrite Hparse.
Qed.

(** X6: failures of [generateLessonContent].  (a) A failure whose message
    contains [document has no pages] is surfaced after the single call as
    the could-not-be-read message; (b) otherwise one whose message
    contains [xhr] or [Rpc failed] or whose status is 500 is surfaced after
    the single call as the connection-lost message; neither is retried.
    (c) A failure that the [catch] block rethrows and that is not transient
    (for instance status 400 alone, which structure analysis would turn
    into its unreadable message) is surfaced unchanged without retry.
    (d) Rethrown transient failures are retried with delays 1000 and 2000
    and the third failure is surfaced as the [catch] block leaves it.
    (e) A success after one such failure returns the parsed lesson. *)
Theorem generateLessonContent_failures (topic pdf : string)
    (tutor : TutorProfile) :
  let call := generateContent (LessonRequest (cleanBase64 pdf) topic tutor) in
  (forall s0 s1 e sl,
      call s0 = (inl e, s1) ->
      Js.messageIncludes "document has no pages" e = true ->
      lesson topic pdf tutor {| ext := s0; slept := sl |}
      = (inl (Js.newError lessonUnreadableMessage),
         {| ext := s1; slept := sl |}))
  /\ (forall s0 s1 e sl,
      call s0 = (inl e, s1) ->
      Js.messageIncludes "document has no pages" e = false ->
      Js.messageIncludes "xhr" e || Js.messageIncludes "Rpc failed" e
      || Js.statusIs 500 e = true ->
      lesson topic pdf tutor {| ext := s0; slept := sl |}
      = (inl (Js.newError lessonConnectionMessage),
         {| ext := s1; slept := sl |}))
  /\ (forall s0 s1 e sl,
      call s0 = (inl e, s1) ->
      lessonTranslated e = e -> transient e = false ->
      lesson topic pdf tutor {| ext := s0; slept := sl |}
      = (inl e, {| ext := s1; slept := sl |}))
  /\ (forall s0 s1 s2 s3 e1 e2 e3 sl,
      call s0 = (inl e1, s1) -> call s1 = (inl e2, s2) ->
      call s2 = (inl e3, s3) ->
      lessonTranslated e1 = e1 -> transient e1 = true ->
      lessonTranslated e2 = e2 -> transient e2 = true ->
      lesson topic pdf tutor {| ext := s0; slept := sl |}
      = (inl (lessonTranslated e3),
         {| ext := s3; slept := sl ++ [1000; 2000] |}))
  /\ (forall s0 s1 s2 e1 txt cands content sl,
      call s0 = (inl e1, s1) ->
      lessonTranslated e1 = e1 -> transient e1 = true ->
      call s1 = (inr {| text := Some txt; candidates := cands |}, s2) ->
      txt <> "" -> JSON_parse_lesson txt = inr content ->
      lesson topic pdf tutor {| ext := s0; slept := sl |}
      = (inr content, {| ext := s2; slept := sl ++ [1000] |})).
Proof.
  cbv zeta. unfold lesson, generateLessonContent.
  split; [|split; [|split; [|split]]].
  - intros s0 s1 e sl Hcall Hm.
    apply retry_default_stop; [|reflexivity].
    rewrite (lessonOperation_failure _ _ _ _ _ _ _ Hcall).
    unfold lessonTranslated. by rewrite Hm.
  - intros s0 s1 e sl Hcall Hm Hx.
    apply retry_default_stop; [|reflexivity].
    rewrite (lessonOperation_failure _ _ _ _ _ _ _ Hcall).
    unfold lessonTranslated. by rewrite Hm, Hx.
  - intros s0 s1 e sl Hcall Hp Ht.
    apply retry_default_stop; [|exact Ht].
    by rewrite (lessonOperation_failure _ _ _ _ _ _ _ Hcall), Hp.
  - intros s0 s1 s2 s3 e1 e2 e3 sl H0 H1 H2 P1 T1 P2 T2.
    eapply retry_default_twice.
    + by rewrite (lessonOperation_failure _ _ _ _ _ _ _ H0), P1.
    + exact T1.
    + unfold awaited. cbn [ext slept].
      by rewrite (lessonOperation_failure _ _ _ _ _ _ _ H1), P2.
    + exact T2.
    + unfold awaited. cbn [ext slept].
      rewrite (lessonOperation_failure _ _ _ _ _ _ _ H2).
      by rewrite <- app_assoc.
  - intros s0 s1 s2 e1 txt cands content sl H0 P1 T1 H1 Htxt Hparse.
    eapply retry_default_once.
    + by rewrite (lessonOperation_failure _ _ _ _ _ _ _ H0), P1.
    + exact T1.
    + unfold awaited. cbn [ext slept].
      by rewrite (lessonOperation_success _ _ _ _ _ _ _ _ _ H1 Htxt Hparse).
Qed.

(** X7: failures of [generateQuiz].  (a) A failure whose message contains
    [xhr] or [Rpc failed] is surfaced after the single call as the
    connection-lost message; (b) otherwise one whose message contains
    [document has no pages] is surfaced as the PDF-error message; neither
    is retried.  (c) Every other failure is rethrown as it is: when it is
    transient (status 500 and 503 included, since this [catch] block does
    not look at the status) the call is retried with delays 1000 and 2000
    and the third failure is surfaced as the [catch] block leaves it;
    (d) when it is not transient it is surfaced unchanged at once. *)
Theorem generateQuiz_failures (topic pdf : string) :
  let call := generateContent (QuizRequest (cleanBase64 pdf) topic) in
  (forall s0 s1 e sl,
      call s0 = (inl e, s1) ->
      Js.messageIncludes "xhr" e || Js.messageIncludes "Rpc failed" e = true ->
      quiz topic pdf {| ext := s0; slept := sl |}
      = (inl (Js.newError quizConnectionMessage),
         {| ext := s1; slept := sl |}))
  /\ (forall s0 s1 e sl,
      call s0 = (inl e, s1) ->
      Js.messageIncludes "xhr" e || Js.messageIncludes "Rpc failed" e = false ->
      Js.messageIncludes "document has no pages" e = true ->
      quiz topic pdf {| ext := s0; slept := sl |}
      = (inl (Js.newError quizPdfMessage), {| ext := s1; slept := sl |}))
  /\ (forall s0 s1 s2 s3 e1 e2 e3 sl,
      call s0 = (inl e1, s1) -> call s1 = (inl e2, s2) ->
      call s2 = (inl e3, s3) ->
      quizTranslated e1 = e1 -> transient e1 = true ->
      quizTranslated e2 = e2 -> transient e2 = true ->
      quiz topic pdf {| ext := s0; slept := sl |}
      = (inl (quizTranslated e3),
         {| ext := s3; slept := sl ++ [1000; 2000] |}))
  /\ (forall s0 s1 e sl,
      call s0 = (inl e, s1) ->
      quizTranslated e = e -> transient e = false ->
      quiz topic pdf {| ext := s0; slept := sl |}
      = (inl e, {| ext := s1; slept := sl |}))
  /\ (forall e,
      Js.statusIs 500 e = true ->
      Js.messageIncludes "xhr" e || Js.messageIncludes "Rpc failed" e = false ->
      Js.messageIncludes "document has no pages" e = false ->
      quizTranslated e = e /\ transient e = true).
Proof.
  cbv zeta. unfold quiz, generateQuiz.
  split; [|split; [|split; [|split]]].
  - intros s0 s1 e sl Hcall Hx.
    apply retry_default_stop; [|reflexivity].
    rewrite (quizOperation_failure _ _ _ _ _ _ Hcall).
    unfold quizTranslated. by rewrite Hx.
  - intros s0 s1 e sl Hcall Hx Hm.
    apply retry_default_stop; [|reflexivity].
    rewrite (quizOperation_failure _ _ _ _ _ _ Hcall).
    unfold quizTranslated. by rewrite Hx, Hm.
  - intros s0 s1 s2 s3 e1 e2 e3 sl H0 H1 H2 P1 T1 P2 T2.
    eapply retry_default_twice.
    + by rewrite (quizOperation_failure _ _ _ _ _ _ H0), P1.
    + exact T1.
    + unfold awaited. cbn [ext slept].
      by rewrite (quizOperation_failure _ _ _ _ _ _ H1), P2.
    + exact T2.
    + unfold awaited. cbn [ext slept].
      rewrite (quizOperation_failure _ _ _ _ _ _ H2).
      by rewrite <- app_assoc.
  - intros s0 s1 e sl Hcall Hp Ht.
    apply retry_default_stop; [|exact Ht].
    by rewrite (quizOperation_failure _ _ _ _ _ _ Hcall), Hp.
  - intros e H500 Hx Hm. unfold quizTranslated, transient, isServerError.
    rewrite Hx, Hm, H500. split; [reflexivity|].
    by rewrite !orb_true_r.
Qed.

Lemma speechOperation_success (txt voice : string) (s0 s1 s2 : S)
    (response : Response) (d bin url : string) (sl : list Z) :
  generateContent (SpeechRequest txt voice) s0 = (inr response, s1) ->
  firstPartData response = Some d ->
  d <> "" ->
  atob d = inr bin ->
  createObjectURL
    (headerBytes 24000 (Z.of_nat (length (bytesOf bin))) ++ bytesOf bin) s1
  = (url, s2) ->
  speechOperation generateContent atob createObjectURL txt voice
    {| ext := s0; slept := sl |}
  = (inr url, {| ext := s2; slept := sl |}).
Proof.
  intros Hcall Hd Hne Hatob Hurl. unfold speechOperation, bind.
  rewrite (extern_run _ _ _ _ _ Hcall), Hd.
  destruct d as [|c d]; [done|].
  cbn [Js.truthy negb from_option Datatypes.id]. unfold liftEither.
  rewrite Hatob. fold (bytesOf bin). rewrite pcmToWav_spec.
  unfold extern. cbn [ext slept]. by rewrite Hurl.
Qed.

(** X8: [generateLessonAudio].  (a) When the first part of the first
    candidate carries base64 data that [atob] decodes, the result is the
    URL that [createObjectURL] gives for the 44-byte header followed by the
    decoded bytes, after one call and no delay; (b) that container decodes
    back to those bytes at 24000 Hz (for fewer than [2 ^ 32 - 36] bytes).
    (c) Without such data the call fails with [No audio generated], not
    retried; (d) a text that [atob] rejects fails with that error, not
    retried unless it is transient.  (e) There is no [catch] block: every
    transient failure of the call, status 500 and [xhr] included, is
    retried with delays 1000 and 2000, and the third failure is surfaced
    unchanged. *)
Theorem generateLessonAudio_behaviour (txt : string) (tutor : TutorProfile) :
  let call := generateContent (SpeechRequest txt (voiceFor tutor)) in
  (forall s0 s1 s2 response d bin url sl,
      call s0 = (inr response, s1) ->
      firstPartData response = Some d -> d <> "" ->
      atob d = inr bin ->
      createObjectURL
        (headerBytes 24000 (Z.of_nat (length (bytesOf bin))) ++ bytesOf bin) s1
      = (url, s2) ->
      speech txt tutor {| ext := s0; slept := sl |}
      = (inr url, {| ext := s2; slept := sl |}))
  /\ (forall bin,
      36 + Z.of_nat (length (bytesOf bin)) < 2 ^ 32 ->
      length (bytesOf bin) = String.length bin
      /\ Wav.decodeWav
           (headerBytes 24000 (Z.of_nat (length (bytesOf bin))) ++ bytesOf bin)
         = Some (bytesOf bin, 24000))
  /\ (forall s0 s1 response sl,
      call s0 = (inr response, s1) ->
      Js.truthy (firstPartData response) = false ->
      speech txt tutor {| ext := s0; slept := sl |}
      = (inl (Js.newError "No audio generated"),
         {| ext := s1; slept := sl |}))
  /\ (forall s0 s1 response d e sl,
      call s0 = (inr response, s1) ->
      firstPartData response = Some d -> d <> "" ->
      atob d = inl e -> transient e = false ->
      speech txt tutor {| ext := s0; slept := sl |}
      = (inl e, {| ext := s1; slept := sl |}))
  /\ (forall s0 s1 s2 s3 e1 e2 e3 sl,
      call s0 = (inl e1, s1) -> call s1 = (inl e2, s2) ->
      call s2 = (inl e3, s3) ->
      transient e1 = true -> transient e2 = true ->
      speech txt tutor {| ext := s0; slept := sl |}
      = (inl e3, {| ext := s3; slept := sl ++ [1000; 2000] |})).
Proof.
  cbv zeta. unfold speech, generateLessonAudio.
  split; [|split; [|split; [|split]]].
  - intros s0 s1 s2 response d bin url sl Hcall Hd Hne Hatob Hurl.
    apply retry_default_ok.
    by apply (speechOperation_success _ _ s0 s1 s2 response d bin).
  - intros bin Hlen. split.
    + unfold bytesOf, Buffer.charCodes, Js.chars.
      rewrite !length_map. clear Hlen.
      induction bin as [|c bin IH]; [reflexivity|]. cbn. by rewrite IH.
    + rewrite decodeWav_header;
        rewrite (Z.mod_small (Z.of_nat (length (bytesOf bin)))) by lia;
        [|lia].
      by rewrite Nat2Z.id, firstn_all.
  - intros s0 s1 response sl Hcall Hnone.
    apply retry_default_stop; [|reflexivity].
    unfold speechOperation, bind.
    by rewrite (extern_run _ _ _ _ _ Hcall), Hnone.
  - intros s0 s1 response d e sl Hcall Hd Hne Hatob Ht.
    apply retry_default_stop; [|exact Ht].
    unfold speechOperation, bind.
    rewrite (extern_run _ _ _ _ _ Hcall), Hd.
    destruct d as [|c d]; [done|].
    cbn [Js.truthy negb from_option Datatypes.id]. unfold liftEither.
    by rewrite Hatob.
  - intros s0 s1 s2 s3 e1 e2 e3 sl H0 H1 H2 T1 T2.
    eapply retry_default_twice.
    + by apply speechOperation_failure.
    + exact T1.
    + unfold awaited. cbn [ext slept]. by apply speechOperation_failure.
    + exact T2.
    + unfold awaited. cbn [ext slept].
      rewrite (speechOperation_failure _ _ _ _ _ _ H2).
      by rewrite <- app_assoc.
Qed.

End GenerationProperties.

Section GenerationRuns.
Import Async Retry Service Generation.

(** X9: the voice tells the gender class: a tutor whose gender is [Male]
    gets Fenrir, Puck or Charon, any other tutor gets Kore or Zephyr, so a
    male and a non-male tutor never share a voice; a region outside the
    four known ones gets the same voice as [American]. *)
Theorem voiceFor_by_gender (tutor other : TutorProfile) :
  (gender tutor = "Male" -> voiceFor tutor ∈ ["Fenrir"; "Puck"; "Charon"])
  /\ (gender tutor <> "Male" -> voiceFor tutor ∈ ["Kore"; "Zephyr"])
  /\ (voiceFor tutor = voiceFor other ->
      (gender tutor = "Male" <-> gender other = "Male"))
  /\ (region tutor <> "African" -> region tutor <> "European" ->
      region tutor <> "Asian" ->
      voiceFor tutor
      = voiceFor {| region := "American"; gender := gender tutor;
                    name := name tutor |}).
Proof.
  assert (Hm : forall t, gender t = "Male" ->
                         voiceFor t ∈ ["Fenrir"; "Puck"; "Charon"]).
  { intros t Hg. unfold voiceFor. rewrite Hg. cbn [String.eqb Ascii.eqb Bool.eqb].
    repeat (destruct (String.eqb (region t) _)); repeat constructor. }
  assert (Hf : forall t, gender t <> "Male" ->
                         voiceFor t ∈ ["Kore"; "Zephyr"]).
  { intros t Hg. unfold voiceFor. apply String.eqb_neq in Hg. rewrite Hg.
    repeat (destruct (String.eqb (region t) _)); repeat constructor. }
  split; [apply Hm|]. split; [apply Hf|]. split.
  - intros Hv.
    destruct (decide (gender tutor = "Male")) as [Ht|Ht];
      destruct (decide (gender other = "Male")) as [Ho|Ho]; try tauto.
    + exfalso. apply Hm in Ht. apply Hf in Ho. rewrite Hv in Ht.
      repeat (apply elem_of_cons in Ht as [Ht|Ht]);
        try (by apply elem_of_nil in Ht);
        repeat (apply elem_of_cons in Ho as [Ho|Ho]);
        try (by apply elem_of_nil in Ho); congruence.
    + exfalso. apply Hf in Ht. apply Hm in Ho. rewrite Hv in Ht.
      repeat (apply elem_of_cons in Ht as [Ht|Ht]);
        try (by apply elem_of_nil in Ht);
        repeat (apply elem_of_cons in Ho as [Ho|Ho]);
        try (by apply elem_of_nil in Ho); congruence.
  - intros Ha He Hs. unfold voiceFor. cbn [region gender].
    apply String.eqb_neq in Ha, He, Hs. rewrite Ha, He, Hs.
    destruct (String.eqb (gender tutor) "Male");
      destruct (String.eqb (region tutor) "American"); reflexivity.
Qed.

End GenerationRuns.

Section GenerationWitnesses.
Import Async Retry Service Generation.

Lemma generateLessonContent_failures_witness :
  lessonScripted [inl noPages; inr textResponse]
  = (inl (Js.newError lessonUnreadableMessage),
     {| ext := [inr textResponse]; slept := [] |})
  /\ lessonScripted [inl internalError; inr textResponse]
     = (inl (Js.newError lessonConnectionMessage),
        {| ext := [inr textResponse]; slept := [] |})
  /\ lessonScripted [inl badRequest; inr textResponse]
     = (inl badRequest, {| ext := [inr textResponse]; slept := [] |})
  /\ lessonScripted [inl unavailable; inl networkDown; inl unavailable]
     = (inl unavailable, {| ext := []; slept := [1000; 2000] |})
  /\ lessonScripted [inl unavailable; inr textResponse]
     = (inr sampleLesson, {| ext := []; slept := [1000] |}).
Proof.
  destruct (generateLessonContent_failures scriptedGeneration
              (fun _ => inr sampleLesson) "Cells" "JVBERi0x" alexTutor)
    as (Ha & Hb & Hc & Hd & He).
  unfold lessonScripted.
  split; [|split; [|split; [|split]]].
  - apply (Ha [inl noPages; inr textResponse] [inr textResponse] noPages []);
      reflexivity.
  - apply (Hb [inl internalError; inr textResponse] [inr textResponse]
              internalError []); reflexivity.
  - apply (Hc [inl badRequest; inr textResponse] [inr textResponse]
              badRequest []); reflexivity.
  - apply (Hd [inl unavailable; inl networkDown; inl unavailable]
              [inl networkDown; inl unavailable] [inl unavailable] []
              unavailable networkDown unavailable []); reflexivity.
  - apply (He [inl unavailable; inr textResponse] [inr textResponse] []
              unavailable "{...}" None sampleLesson []);
      (reflexivity || discriminate).
Defined.

Lemma generateQuiz_failures_witness :
  quizScripted [inl xhrFailure; inr textResponse]
  = (inl (Js.newError quizConnectionMessage),
     {| ext := [inr textResponse]; slept := [] |})
  /\ quizScripted [inl noPages; inr textResponse]
     = (inl (Js.newError quizPdfMessage),
        {| ext := [inr textResponse]; slept := [] |})
  /\ quizScripted [inl internalError; inl internalError; inl internalError]
     = (inl internalError, {| ext := []; slept := [1000; 2000] |})
  /\ quizScripted [inl badRequest; inr textResponse]
     = (inl badRequest, {| ext := [inr textResponse]; slept := [] |})
  /\ transient internalError = true.
Proof.
  destruct (generateQuiz_failures scriptedGeneration
              (fun _ => inr demoQuiz) "Cells" "JVBERi0x")
    as (Ha & Hb & Hc & Hd & He).
  unfold quizScripted.
  split; [|split; [|split; [|split]]].
  - apply (Ha [inl xhrFailure; inr textResponse] [inr textResponse]
              xhrFailure []); reflexivity.
  - apply (Hb [inl noPages; inr textResponse] [inr textResponse] noPages []);
      reflexivity.
  - apply (Hc [inl internalError; inl internalError; inl internalError]
              [inl internalError; inl internalError] [inl internalError] []
              internalError internalError internalError []); reflexivity.
  - apply (Hd [inl badRequest; inr textResponse] [inr textResponse]
              badRequest []); reflexivity.
  - apply (He internalError); reflexivity.
Defined.

Lemma generateLessonAudio_behaviour_witness :
  speechScripted [inr (audioResponse "AQID")]
  = (inr "blob:lesson-audio", {| ext := []; slept := [] |})
  /\ Wav.decodeWav (headerBytes 24000 3 ++ [x01; x02; x03])
     = Some ([x01; x02; x03], 24000)
  /\ speechScripted [inr textResponse]
     = (inl (Js.newError "No audio generated"), {| ext := []; slept := [] |})
  /\ speechScripted [inr (audioResponse "????")]
     = (inl notBase64, {| ext := []; slept := [] |})
  /\ speechScripted [inl internalError; inl xhrFailure; inl internalError]
     = (inl internalError, {| ext := []; slept := [1000; 2000] |}).
Proof.
  destruct (generateLessonAudio_behaviour scriptedGeneration atobSample
              blobUrl "Hello, I am Alex." alexTutor)
    as (Ha & Hb & Hc & Hd & He).
  unfold speechScripted.
  split; [|split; [|split; [|split]]].
  - apply (Ha [inr (audioResponse "AQID")] [] [] (audioResponse "AQID")
              "AQID" (String (ascii_of_N 1) (String (ascii_of_N 2)
                        (String (ascii_of_N 3) ""))) "blob:lesson-audio" []);
      (reflexivity || discriminate).
  - apply (Hb (String (ascii_of_N 1) (String (ascii_of_N 2)
                 (String (ascii_of_N 3) "")))). simpl. lia.
  - apply (Hc [inr textResponse] [] textResponse []); reflexivity.
  - apply (Hd [inr (audioResponse "????")] [] (audioResponse "????")
              "????" notBase64 []); (reflexivity || discriminate).
  - apply (He [inl internalError; inl xhrFailure; inl internalError]
              [inl xhrFailure; inl internalError] [inl internalError] []
              internalError xhrFailure internalError []); reflexivity.
Defined.

Lemma voiceFor_by_gender_witness :
  voiceFor alexTutor ∈ ["Fenrir"; "Puck"; "Charon"]
  /\ voiceFor amaTutor ∈ ["Kore"; "Zephyr"]
  /\ voiceFor alexTutor <> voiceFor amaTutor.
Proof.
  destruct (voiceFor_by_gender alexTutor amaTutor) as (Hm & _ & Hsame & _).
  destruct (voiceFor_by_gender amaTutor alexTutor) as (_ & Hf & _ & _).
  split; [by apply Hm|]. split; [apply Hf; discriminate|].
  intros Hv. apply Hsame in Hv. destruct Hv as [Hv _].
  specialize (Hv eq_refl). discriminate Hv.
Defined.

End GenerationWitnesses.

(* ================================================================== *)
(** * Helpers of the service: [cleanBase64] and [writeString]          *)
(* ================================================================== *)

Section HelperProperties.
Import Buffer Service.

Lemma filter_nonSpace_id (l : list ascii) :
  Forall (fun c => nonSpace c = true) l -> filter (fun c => nonSpace c) l = l.
Proof.
  induction 1 as [|c l Hc _ IH]; [reflexivity|].
  rewrite filter_nonSpace_cons. unfold nonSpace in Hc.
  destruct (Js.isSpace c); [discriminate|]. by rewrite IH.
Qed.

Lemma filter_nonSpace_clean (l : list ascii) :
  Forall (fun c => nonSpace c = true) (filter (fun c => nonSpace c) l).
Proof.
  apply Forall_forall. intros c Hc.
  apply list_elem_of_filter in Hc as [Hc _]. by apply Is_true_true.
Qed.

(** X10: [cleanBase64] removes every white-space character and nothing
    else: the result has no white space, the other characters are kept in
    order, a text without white space is returned as it is, and cleaning
    twice is cleaning once. *)
Theorem cleanBase64_clean (str : string) :
  Js.chars (cleanBase64 str) = filter (fun c => nonSpace c) (Js.chars str)
  /\ Forall (fun c => nonSpace c = true) (Js.chars (cleanBase64 str))
  /\ (Forall (fun c => nonSpace c = true) (Js.chars str) ->
      cleanBase64 str = str)
  /\ cleanBase64 (cleanBase64 str) = cleanBase64 str.
Proof.
  assert (Hchars : forall s, Js.chars (cleanBase64 s)
                             = filter (fun c => nonSpace c) (Js.chars s)).
  { intros s. unfold cleanBase64. by rewrite chars_ofChars. }
  assert (Hid : forall s, Forall (fun c => nonSpace c = true) (Js.chars s) ->
                          cleanBase64 s = s).
  { intros s Hs. unfold cleanBase64.
    etransitivity; [|apply (string_of_list_ascii_of_string s)].
    unfold Js.ofChars. f_equal. apply (filter_nonSpace_id _ Hs). }
  split; [apply Hchars|]. split.
  { rewrite Hchars. apply filter_nonSpace_clean. }
  split; [apply Hid|].
  apply Hid. rewrite Hchars. apply filter_nonSpace_clean.
Qed.

Lemma cleanBase64_clean_witness :
  cleanBase64 "JVBERi0x" = "JVBERi0x"
  /\ cleanBase64 ("JVBE" +:+ String LessonPlayer.newline " Ri0x") = "JVBERi0x".
Proof.
  split; [|reflexivity].
  destruct (cleanBase64_clean "JVBERi0x") as (_ & _ & Hid & _).
  apply Hid. repeat constructor.
Defined.

Lemma writeCodes_fits (codes : list Z) :
  forall pre mid post : list byte,
    length mid = length codes ->
    writeCodes (length pre) codes (pre ++ mid ++ post)
    = Some (pre ++ map u8 codes ++ post).
Proof.
  induction codes as [|c codes IH]; intros pre mid post Hlen.
  - destruct mid; [reflexivity|discriminate].
  - destruct mid as [|m mid]; [discriminate|].
    cbn [writeCodes]. unfold setUint8.
    replace (length pre <? length (pre ++ (m :: mid) ++ post))%nat with true
      by (symmetry; apply Nat.ltb_lt; rewrite length_app; cbn; lia).
    rewrite insert_app_r_alt by lia. rewrite Nat.sub_diag.
    cbn [app insert list_insert].
    specialize (IH (pre ++ [u8 c]) mid post).
    rewrite length_app in IH. cbn [length] in IH.
    replace (length pre + 1)%nat with (S (length pre)) in IH by lia.
    rewrite <- !app_assoc in IH. cbn [app] in IH.
    rewrite IH by (cbn in Hlen; lia). reflexivity.
Qed.

Lemma writeCodes_overflow (codes : list Z) :
  forall (offset : nat) (buf : list byte),
    codes <> [] ->
    (length buf < offset + length codes)%nat ->
    writeCodes offset codes buf = None.
Proof.
  induction codes as [|c codes IH]; intros offset buf Hne Hlen; [done|].
  cbn [writeCodes]. unfold setUint8.
  destruct (Nat.ltb_spec offset (length buf)) as [Hin|Hout]; [|reflexivity].
  apply IH.
  - destruct codes; [cbn in Hlen; lia|discriminate].
  - rewrite length_insert. cbn in Hlen. lia.
Qed.

(** X11: [writeString] either writes the whole string or throws.  When
    the string fits ([offset + length <= buffer length]) the bytes from
    [offset] on are the character codes and every other byte is unchanged;
    when a non-empty string does not fit, the result is the [RangeError];
    the empty string is written anywhere without effect. *)
Theorem writeString_bounds (offset : nat) (s : string) (buf : list byte) :
  ((offset + String.length s <= length buf)%nat ->
   writeString offset s buf
   = Some (take offset buf ++ map u8 (charCodes s)
           ++ drop (offset + String.length s) buf))
  /\ (s <> "" -> (length buf < offset + String.length s)%nat ->
      writeString offset s buf = None)
  /\ writeString offset "" buf = Some buf.
Proof.
  assert (Hlen : length (charCodes s) = String.length s).
  { unfold charCodes. rewrite length_map.
    induction s as [|c s IH]; [reflexivity|]. cbn. by rewrite IH. }
  unfold writeString. split; [|split].
  - intros Hfit.
    rewrite <- (take_drop offset buf) at 1.
    rewrite <- (take_drop (String.length s) (drop offset buf)) at 1.
    rewrite drop_drop.
    replace offset with (length (take offset buf)) at 1
      by (rewrite length_take; lia).
    apply writeCodes_fits.
    rewrite length_take, length_drop, Hlen. lia.
  - intros Hne Hover. apply writeCodes_overflow; [|by rewrite Hlen].
    destruct s; [done|discriminate].
  - reflexivity.
Qed.

Lemma writeString_bounds_witness :
  writeString 2 "ab" [x00; x00; x00; x00; x00]
  = Some [x00; x00; x61; x62; x00]
  /\ writeString 4 "ab" [x00; x00; x00; x00; x00] = None.
Proof.
  destruct (writeString_bounds 2 "ab" [x00; x00; x00; x00; x00]) as (Hfit & _).
  destruct (writeString_bounds 4 "ab" [x00; x00; x00; x00; x00])
    as (_ & Hover & _).
  split.
  - rewrite Hfit by (simpl; lia). reflexivity.
  - apply Hover; [discriminate|simpl; lia].
Defined.

End HelperProperties.

(* ================================================================== *)
(** * Every state of the quiz view                                     *)
(* ================================================================== *)

Section QuizInvariant.
Import QuizView.

Lemma step_invariant (questions : list QuizQuestion) (ev : Event)
    (st st' : State) :
  quiz_invariant questions st ->
  step questions ev st = Some st' ->
  quiz_invariant questions st'.
Proof.
  intros (Hscore & Hidx & Hres) Hstep. unfold step in Hstep.
  destruct (showResult st) eqn:Hshow; [discriminate|].
  destruct ev as [idx|]; destruct (isAnswered st) eqn:Hans; try discriminate.
  - unfold handleOptionClick in Hstep. rewrite Hans in Hstep.
    destruct (questions !! currentIndex st) as [q|] eqn:Hq; [|discriminate].
    apply lookup_lt_Some in Hq. injection Hstep as <-.
    unfold quiz_invariant. cbn [score currentIndex isAnswered showResult].
    rewrite Hshow. repeat split; try discriminate; try lia.
    destruct (idx =? correctOptionIndex q); lia.
  - injection Hstep as <-. unfold handleNext, quiz_invariant.
    destruct (Z.ltb_spec (Z.of_nat (currentIndex st))
                         (Z.of_nat (length questions) - 1));
      cbn [score currentIndex isAnswered showResult]; rewrite ?Hans, ?Hshow;
      repeat split; try discriminate; try lia.
Qed.

(** X12: in every state the quiz view reaches from its initial state,
    whatever is clicked: the score is at most the number of questions
    answered so far, hence at most the number of questions; the result
    view is shown only after the last question was answered; and a quiz
    without questions never reaches the result view (nothing is handed to
    [onFinish], although its pass mark is 0). *)
Theorem quiz_reachable_states (questions : list QuizQuestion)
    (evs : list Event) (st : State) :
  run questions evs initial = Some st ->
  quiz_invariant questions st
  /\ (score st <= length questions)%nat
  /\ (questions = [] -> evs = [] /\ onFinishArg questions st = None).
Proof.
  intros Hrun.
  assert (Hinv : forall evs st0 st1,
             quiz_invariant questions st0 ->
             run questions evs st0 = Some st1 ->
             quiz_invariant questions st1).
  { clear. induction evs as [|ev evs IH]; intros st0 st1 H0 Hrun.
    - by injection Hrun as <-.
    - cbn [run] in Hrun.
      destruct (step questions ev st0) as [st'|] eqn:Hstep; [|discriminate].
      apply (IH st' st1); [|exact Hrun].
      by apply (step_invariant questions ev st0). }
  assert (Hinit : quiz_invariant questions initial).
  { unfold quiz_invariant. cbn. repeat split; try lia; discriminate. }
  pose proof (Hinv evs initial st Hinit Hrun) as Hst.
  split; [exact Hst|]. split; [destruct Hst as (? & ? & _); lia|].
  intros ->. destruct evs as [|ev evs].
  - injection Hrun as <-. by split.
  - cbn in Hrun. destruct ev; discriminate.
Qed.

Lemma quiz_reachable_states_witness :
  exists st,
    run demoQuiz [OptionClick 0; Next; OptionClick 1] initial = Some st
    /\ quiz_invariant demoQuiz st
    /\ (score st <= 3)%nat.
Proof.
  eexists. split; [reflexivity|].
  match goal with
  | |- quiz_invariant _ ?s /\ _ =>
      destruct (quiz_reachable_states demoQuiz
                  [OptionClick 0; Next; OptionClick 1] s eq_refl)
        as (Hinv & Hle & _)
  end.
  split; [exact Hinv|exact Hle].
Defined.

End QuizInvariant.

(* ================================================================== *)
(** * The upload of a document                                         *)
(* ================================================================== *)

Section UploadProperties.
Import Async Service Upload.

Context {S : Type}.
Variable generateContent :
  Service.Request -> S -> (Js.Error + Response) * S.
Variable JSON_parse : string -> Js.Error + RawCourse.
Variable toFixed2 : Q -> string.

Let upload := handleFileUpload generateContent JSON_parse toFixed2.
Let analyze := analyzePdfStructure generateContent JSON_parse.

(** X13: a file is turned down before it is read, with no call to the
    service and nothing changed but the error message, exactly in three
    cases, tested in this order: its type is not [application/pdf]; its
    size is 0; its size exceeds 4 MiB (4194304 bytes, which itself is still
    accepted). *)
Theorem handleFileUpload_validation (file : File) (read : ReadOutcome)
    (st : Upload.State) (w : World S) :
  let rejected msg :=
    (inr {| uploadError := Some msg; appState := appState st;
            pdfBase64 := pdfBase64 st;
            courseStructure := courseStructure st |}, w) in
  (file_type file <> "application/pdf" ->
   upload file read st w
   = rejected "Invalid file type. Please upload a PDF document.")
  /\ (file_type file = "application/pdf" -> file_size file = 0 ->
      upload file read st w
      = rejected "The file is empty. Please upload a valid PDF.")
  /\ (file_type file = "application/pdf" -> 4194304 < file_size file ->
      upload file read st w
      = rejected (tooLargeFileMessage toFixed2 (file_size file)))
  /\ (upload file ReadError st w
      = (inr {| uploadError := Some "Error reading file.";
                appState := App.UPLOAD;
                pdfBase64 := pdfBase64 st;
                courseStructure := courseStructure st |}, w)
      <-> acceptedFile file).
Proof.
  cbv zeta. unfold upload, handleFileUpload, acceptedFile.
  change MAX_FILE_SIZE_BYTES with 4194304.
  split; [|split; [|split; [|split]]].
  - intros Ht. apply String.eqb_neq in Ht. by rewrite Ht.
  - intros Ht H0. by rewrite Ht, H0.
  - intros Ht Hbig. rewrite Ht. cbn [String.eqb Ascii.eqb Bool.eqb negb].
    destruct (Z.eqb_spec (file_size file) 0); [lia|].
    destruct (Z.ltb_spec 4194304 (file_size file)); [reflexivity|lia].
  - intros H.
    destruct (String.eqb_spec (file_type file) "application/pdf") as [Ht|Ht];
      cbn [negb] in H; [|injection H as H; discriminate H].
    destruct (Z.eqb_spec (file_size file) 0) as [H0|H0];
      [injection H as H; discriminate H|].
    destruct (Z.ltb_spec 4194304 (file_size file)) as [Hbig|Hok]; [|done].
    injection H as H. unfold tooLargeFileMessage in H.
    cbn [String.append] in H. discriminate H.
  - intros (Ht & H0 & Hmax). rewrite Ht.
    cbn [String.eqb Ascii.eqb Bool.eqb negb].
    destruct (Z.eqb_spec (file_size file) 0); [lia|].
    destruct (Z.ltb_spec 4194304 (file_size file)); [lia|reflexivity].
Qed.

Lemma splitOnFrom_no_sep (sep : ascii) (cur p : list ascii) :
  Forall (fun c => c <> sep) p ->
  splitOnFrom sep cur p = [Js.ofChars (rev cur ++ p)].
Proof.
  revert cur. induction p as [|c p IH]; intros cur Hp.
  - cbn. by rewrite app_nil_r.
  - apply Forall_cons in Hp as [Hc Hp]. cbn [splitOnFrom].
    destruct (Ascii.eqb_spec c sep); [done|].
    rewrite IH by done. cbn [rev]. by rewrite <- app_assoc.
Qed.

(** The second piece of a data URL is its payload. *)
Lemma splitOn_data_url (header payload : string) :
  Forall (fun c => c <> comma) (Js.chars header) ->
  Forall (fun c => c <> comma) (Js.chars payload) ->
  splitOn comma (header +:+ String comma payload) !! 1%nat = Some payload.
Proof.
  intros Hh Hp. unfold splitOn.
  assert (Happ : Js.chars (header +:+ String comma payload)
                 = Js.chars header ++ comma :: Js.chars payload).
  { clear. unfold Js.chars. induction header as [|c h IH]; [reflexivity|].
    change (c :: list_ascii_of_string (h +:+ String comma payload)
            = c :: (list_ascii_of_string h
                    ++ comma :: list_ascii_of_string payload)).
    by rewrite IH. }
  rewrite Happ. clear Happ.
  generalize (@nil ascii). revert Hh. generalize (Js.chars header).
  intros h Hh. induction Hh as [|c h Hc _ IH]; intros cur.
  - cbn [app splitOnFrom]. rewrite Ascii.eqb_refl.
    rewrite (splitOnFrom_no_sep comma [] _ Hp). cbn.
    f_equal. apply string_of_list_ascii_of_string.
  - cbn [app splitOnFrom]. destruct (Ascii.eqb_spec c comma); [done|].
    apply IH.
Qed.

(** X14: what happens to an accepted file once the reader has answered.
    (a) A read error, or (b) a result without a non-empty second
    comma-separated piece, shows its message and returns to the upload
    view; nothing is sent to the service.  (c) When an outline is already
    there (resuming), the payload is cached and the dashboard shown with
    the outline untouched, and nothing is sent to the service.
    (d) Otherwise the payload is analysed: on success the new outline is
    stored and the dashboard shown; (e) on failure the error's message (or
    a default when it has none) is shown, the upload view returns, there is
    no outline, and the payload stays cached.  (f) The second piece of a
    data URL is its payload. *)
Theorem handleFileUpload_read (file : File) (st : Upload.State)
    (w : World S) :
  acceptedFile file ->
  upload file ReadError st w
  = (inr {| uploadError := Some "Error reading file.";
            appState := App.UPLOAD; pdfBase64 := pdfBase64 st;
            courseStructure := courseStructure st |}, w)
  /\ (forall result,
      Js.truthy (splitOn comma result !! 1%nat) = false ->
      upload file (ReadResult result) st w
      = (inr {| uploadError := Some "Failed to read file. Please try again.";
                appState := App.UPLOAD; pdfBase64 := pdfBase64 st;
                courseStructure := courseStructure st |}, w))
  /\ (forall result payload cs,
      splitOn comma result !! 1%nat = Some payload -> payload <> "" ->
      courseStructure st = Some cs ->
      upload file (ReadResult result) st w
      = (inr {| uploadError := None; appState := App.DASHBOARD;
                pdfBase64 := Some payload;
                courseStructure := Some cs |}, w))
  /\ (forall result payload structure w',
      splitOn comma result !! 1%nat = Some payload -> payload <> "" ->
      courseStructure st = None ->
      analyze payload w = (inr structure, w') ->
      upload file (ReadResult result) st w
      = (inr {| uploadError := None; appState := App.DASHBOARD;
                pdfBase64 := Some payload;
                courseStructure := Some structure |}, w'))
  /\ (forall result payload err w',
      splitOn comma result !! 1%nat = Some payload -> payload <> "" ->
      courseStructure st = None ->
      analyze payload w = (inl err, w') ->
      upload file (ReadResult result) st w
      = (inr {| uploadError := Some (analysisErrorMessage err);
                appState := App.UPLOAD;
                pdfBase64 := Some payload;
                courseStructure := None |}, w'))
  /\ (forall header payload,
      Forall (fun c => c <> comma) (Js.chars header) ->
      Forall (fun c => c <> comma) (Js.chars payload) ->
      splitOn comma (header +:+ String comma payload) !! 1%nat
      = Some payload).
Proof.
  intros (Ht & H0 & Hmax).
  assert (Hpass : forall read,
            upload file read st
            = match read with
              | ReadError =>
                  ret {| uploadError := Some "Error reading file.";
                         appState := App.UPLOAD; pdfBase64 := pdfBase64 st;
                         courseStructure := courseStructure st |}
              | ReadResult result =>
                  if negb (Js.truthy (splitOn comma result !! 1%nat)) then
                    ret {| uploadError :=
                             Some "Failed to read file. Please try again.";
                           appState := App.UPLOAD; pdfBase64 := pdfBase64 st;
                           courseStructure := courseStructure st |}
                  else
                    let payload := default "" (splitOn comma result !! 1%nat) in
                    if match courseStructure st with
                       | Some _ => true | None => false end
                    then
                      ret {| uploadError := None; appState := App.DASHBOARD;
                             pdfBase64 := Some payload;
                             courseStructure := courseStructure st |}
                    else
                      tryCatch
                        (Async.bind (analyze payload)
                           (fun structure =>
                              ret {| uploadError := None;
                                     appState := App.DASHBOARD;
                                     pdfBase64 := Some payload;
                                     courseStructure := Some structure |}))
                        (fun err =>
                           ret {| uploadError :=
                                    Some (analysisErrorMessage err);
                                  appState := App.UPLOAD;
                                  pdfBase64 := Some payload;
                                  courseStructure := None |})
              end).
  { intros read. unfold upload, handleFileUpload.
    change MAX_FILE_SIZE_BYTES with 4194304. rewrite Ht.
    cbn [String.eqb Ascii.eqb Bool.eqb negb].
    destruct (Z.eqb_spec (file_size file) 0); [lia|].
    destruct (Z.ltb_spec 4194304 (file_size file)); [lia|].
    destruct read; reflexivity. }
  split; [by rewrite Hpass|]. split.
  { intros result Hnone. by rewrite Hpass, Hnone. }
  assert (Htruthy : forall payload, payload <> "" ->
                                    Js.truthy (Some payload) = true).
  { intros [|c p] Hne; [done|reflexivity]. }
  split.
  { intros result payload cs Hp Hne Hcs.
    by rewrite Hpass, Hp, (Htruthy payload Hne), Hcs. }
  split.
  { intros result payload structure w' Hp Hne Hcs Hrun.
    rewrite Hpass, Hp, (Htruthy payload Hne), Hcs. cbn [negb].
    unfold tryCatch, Async.bind. cbn [from_option Datatypes.id].
    by rewrite Hrun. }
  split.
  { intros result payload err w' Hp Hne Hcs Hrun.
    rewrite Hpass, Hp, (Htruthy payload Hne), Hcs. cbn [negb].
    unfold tryCatch, Async.bind. cbn [from_option Datatypes.id].
    by rewrite Hrun. }
  apply splitOn_data_url.
Qed.

End UploadProperties.

Section UploadRuns.
Import Async Service Upload.

Lemma handleFileUpload_validation_witness :
  uploadScripted textFile ReadError resumingUpload []
  = (inr {| uploadError :=
              Some "Invalid file type. Please upload a PDF document.";
            appState := App.UPLOAD; pdfBase64 := None;
            courseStructure := Some demoOutline |},
     {| ext := []; slept := [] |})
  /\ uploadScripted emptyFile ReadError resumingUpload []
     = (inr {| uploadError :=
                 Some "The file is empty. Please upload a valid PDF.";
               appState := App.UPLOAD; pdfBase64 := None;
               courseStructure := Some demoOutline |},
        {| ext := []; slept := [] |})
  /\ uploadScripted hugeFile ReadError resumingUpload []
     = (inr {| uploadError :=
                 Some "File is too large (4.00MB). Please choose a PDF smaller than 4MB.";
               appState := App.UPLOAD; pdfBase64 := None;
               courseStructure := Some demoOutline |},
        {| ext := []; slept := [] |})
  /\ acceptedFile pdfFile.
Proof.
  destruct (handleFileUpload_validation scriptedService (parsesTo twoChapters)
              fixedSample textFile ReadError resumingUpload
              {| ext := []; slept := [] |}) as (Ha & _).
  destruct (handleFileUpload_validation scriptedService (parsesTo twoChapters)
              fixedSample emptyFile ReadError resumingUpload
              {| ext := []; slept := [] |}) as (_ & Hb & _).
  destruct (handleFileUpload_validation scriptedService (parsesTo twoChapters)
              fixedSample hugeFile ReadError resumingUpload
              {| ext := []; slept := [] |}) as (_ & _ & Hc & _).
  destruct (handleFileUpload_validation scriptedService (parsesTo twoChapters)
              fixedSample pdfFile ReadError resumingUpload
              {| ext := []; slept := [] |}) as (_ & _ & _ & Hd).
  unfold uploadScripted. cbv zeta in *.
  split; [apply Ha; discriminate|].
  split; [by apply Hb|].
  split; [rewrite Hc by (reflexivity || (simpl; lia)); reflexivity|].
  apply Hd. reflexivity.
Defined.

Lemma handleFileUpload_read_witness :
  uploadScripted pdfFile (ReadResult "data:application/pdf;base64,JVBERi0x")
    resumingUpload [inr textResponse]
  = (inr {| uploadError := None; appState := App.DASHBOARD;
            pdfBase64 := Some "JVBERi0x";
            courseStructure := Some demoOutline |},
     {| ext := [inr textResponse]; slept := [] |})
  /\ uploadScripted pdfFile
       (ReadResult "data:application/pdf;base64,JVBERi0x")
       freshUpload [inr textResponse]
     = (inr {| uploadError := None; appState := App.DASHBOARD;
               pdfBase64 := Some "JVBERi0x";
               courseStructure := Some (addIds twoChapters) |},
        {| ext := []; slept := [] |})
  /\ uploadScripted pdfFile
       (ReadResult "data:application/pdf;base64,JVBERi0x")
       freshUpload [inl noPages]
     = (inr {| uploadError := Some unreadableMessage;
               appState := App.UPLOAD;
               pdfBase64 := Some "JVBERi0x";
               courseStructure := None |},
        {| ext := []; slept := [] |})
  /\ uploadScripted pdfFile (ReadResult "no separator") freshUpload []
     = (inr {| uploadError := Some "Failed to read file. Please try again.";
               appState := App.UPLOAD; pdfBase64 := None;
               courseStructure := None |},
        {| ext := []; slept := [] |}).
Proof.
  assert (Hok : acceptedFile pdfFile) by (repeat split; (discriminate || (simpl; lia))).
  destruct (handleFileUpload_read scriptedService (parsesTo twoChapters)
              fixedSample pdfFile resumingUpload
              {| ext := [inr textResponse]; slept := [] |} Hok)
    as (_ & _ & Hresume & _).
  destruct (handleFileUpload_read scriptedService (parsesTo twoChapters)
              fixedSample pdfFile freshUpload
              {| ext := [inr textResponse]; slept := [] |} Hok)
    as (_ & _ & _ & Hfresh & _).
  destruct (handleFileUpload_read scriptedService (parsesTo twoChapters)
              fixedSample pdfFile freshUpload
              {| ext := [inl noPages]; slept := [] |} Hok)
    as (_ & _ & _ & _ & Hfail & _).
  destruct (handleFileUpload_read scriptedService (parsesTo twoChapters)
              fixedSample pdfFile freshUpload
              {| ext := []; slept := [] |} Hok)
    as (_ & Hbad & _).
  unfold uploadScripted.
  split; [|split; [|split]].
  - apply (Hresume _ "JVBERi0x" demoOutline); (reflexivity || discriminate).
  - apply (Hfresh _ "JVBERi0x" (addIds twoChapters)
             {| ext := []; slept := [] |}); (reflexivity || discriminate).
  - apply (Hfail _ "JVBERi0x" (Js.newError unreadableMessage)
             {| ext := []; slept := [] |}); (reflexivity || discriminate).
  - apply Hbad. reflexivity.
Defined.

End UploadRuns.

(* ================================================================== *)
(** * Properties of the playback handlers of [LessonPlayer]            *)
(* ================================================================== *)

Section PlayerProperties.
Import LessonPlayer Player.

Lemma Qle_bool_false (a b : Q) : Qle_bool a b = false -> (b < a)%Q.
Proof.
  intros H. apply Qnot_le_lt. intros Hle.
  apply Qle_bool_iff in Hle. congruence.
Qed.

Lemma Math_max_spec (a b : Q) :
  ((a <= b)%Q /\ Math_max a b = b) \/ ((b < a)%Q /\ Math_max a b = a).
Proof.
  unfold Math_max. destruct (Qle_bool a b) eqn:H.
  - left. split; [by apply Qle_bool_iff|reflexivity].
  - right. split; [by apply Qle_bool_false|reflexivity].
Qed.

Lemma Math_min_spec (a b : Q) :
  ((a <= b)%Q /\ Math_min a b = a) \/ ((b < a)%Q /\ Math_min a b = b).
Proof.
  unfold Math_min. destruct (Qle_bool a b) eqn:H.
  - left. split; [by apply Qle_bool_iff|reflexivity].
  - right. split; [by apply Qle_bool_false|reflexivity].
Qed.

(** [Math.min(Math.max(0, x), 1)] is [x] clamped to the unit interval. *)
Lemma clamp_spec (x : Q) :
  let c := Math_min (Math_max 0 x) 1 in
  (0 <= c <= 1)%Q
  /\ ((x <= 0)%Q -> (c == 0)%Q)
  /\ ((1 <= x)%Q -> (c == 1)%Q)
  /\ ((0 <= x <= 1)%Q -> (c == x)%Q).
Proof.
  cbv zeta.
  destruct (Math_max_spec 0 x) as [[H1 ->]|[H1 ->]];
    destruct (Math_min_spec x 1) as [[H2 E2]|[H2 E2]];
    destruct (Math_min_spec 0 1) as [[H3 E3]|[H3 E3]];
    rewrite ?E2, ?E3; repeat split; intros; lra.
Qed.

Lemma handleTimeUpdate_cases (a : Audio) (st : State) :
  match audio_duration a with
  | None => handleTimeUpdate (Some a) st = st
  | Some total =>
      ((total <= 0)%Q /\ handleTimeUpdate (Some a) st = st)
      \/ ((0 < total)%Q
          /\ handleTimeUpdate (Some a) st
             = {| isPlaying := if Qle_bool total (currentTime a)
                               then false else isPlaying st;
                  progress := progressPercent (currentTime a) total;
                  duration := total |})
  end.
Proof.
  unfold handleTimeUpdate. destruct (audio_duration a) as [total|].
  - cbn [gt ge isNaN negb from_option Datatypes.id].
    destruct (Qle_bool total 0) eqn:H0.
    + left. split; [by apply Qle_bool_iff|].
      cbn [negb andb]. by rewrite andb_false_r.
    + right. split; [by apply Qle_bool_false|].
      cbn [negb andb]. rewrite andb_true_r.
      by destruct (Qle_bool total (currentTime a)).
  - reflexivity.
Qed.

Lemma step_invariant_player (st : State) (e : Event) :
  plausible e -> player_invariant st -> player_invariant (step st e).
Proof.
  intros He (Hp & Hd & Hpd).
  destruct e as [a|a clientX rectLeft width| | |]; cbn [step plausible] in *.
  - destruct He as [Hc Hle].
    pose proof (handleTimeUpdate_cases a st) as Hcases.
    destruct (audio_duration a) as [total|].
    + destruct Hcases as [[_ ->]|[Hpos ->]]; [done|].
      unfold player_invariant, progressPercent. cbn [progress duration].
      assert (H1 : (0 <= currentTime a / total)%Q).
      { apply Qle_shift_div_l; [exact Hpos|lra]. }
      assert (H2 : (currentTime a / total <= 1)%Q).
      { apply Qle_shift_div_r; [exact Hpos|lra]. }
      repeat split; first [lra | intros; lra].
    + rewrite Hcases. done.
  - unfold handleSeek. destruct (Qeq_bool (duration st) 0) eqn:H0; [done|].
    assert (Hd' : (0 < duration st)%Q).
    { destruct (Qlt_le_dec 0 (duration st)) as [H|H]; [exact H|].
      assert (E : (duration st == 0)%Q) by lra.
      apply Qeq_bool_iff in E. congruence. }
    cbn [snd]. unfold player_invariant. cbn [progress duration].
    destruct (clamp_spec ((clientX - rectLeft) / width)%Q) as (Hc & _).
    cbv zeta in Hc. repeat split; first [lra | intros; lra].
  - done.
  - done.
  - unfold player_invariant, initial. cbn. repeat split; first [lra | intros; lra].
Qed.

Lemma run_invariant (es : list Event) :
  Forall plausible es -> player_invariant (run es).
Proof.
  induction es as [|e es IH] using rev_ind; intros Hes.
  - unfold run, player_invariant, initial. cbn. repeat split; first [lra | intros; lra].
  - apply Forall_app in Hes as [Hes He].
    apply Forall_cons in He as [He _].
    unfold run. rewrite fold_left_app. cbn [fold_left].
    apply step_invariant_player; [exact He|]. by apply IH.
Qed.

Lemma currentWordIndex_range (p : Q) (N : nat) :
  (0 <= p <= 100)%Q -> 0 <= currentWordIndex p N <= Z.of_nat N.
Proof.
  intros Hp. unfold currentWordIndex.
  set (n := inject_Z (Z.of_nat N)).
  assert (Hn : (0 <= n)%Q).
  { unfold n. change 0%Q with (inject_Z 0). rewrite <- Zle_Qle. lia. }
  assert (Hf : (0 <= p / 100 <= 1)%Q).
  { split; [apply Qle_shift_div_l|apply Qle_shift_div_r]; lra. }
  split.
  - change 0 with (Qfloor (inject_Z 0)). apply Qfloor_resp_le.
    change (inject_Z 0) with 0%Q. nra.
  - transitivity (Qfloor n); [apply Qfloor_resp_le; nra|].
    unfold n. rewrite Qfloor_Z. lia.
Qed.

(** X16: whatever the sequence of time updates, clicks on the bar, play
    button presses, ends and new audio URLs (the element reporting a
    position within the audio, the bar having a width), the progress stays
    within 0..100, the duration is never negative, a positive progress
    comes with a positive duration, and the index of the current word
    stays within 0..N for a transcript of N words. *)
Theorem player_progress_range (es : list Event) (N : nat) :
  Forall plausible es ->
  let st := run es in
  (0 <= progress st <= 100)%Q
  /\ (0 <= duration st)%Q
  /\ ((0 < progress st)%Q -> (0 < duration st)%Q)
  /\ 0 <= currentWordIndex (progress st) N <= Z.of_nat N.
Proof.
  intros Hes. cbv zeta.
  destruct (run_invariant es Hes) as (Hp & Hd & Hpd).
  repeat split; try tauto; by apply currentWordIndex_range.
Qed.

Lemma Qfloor_div60 (t : Q) : Qfloor (t / 60) = Qfloor t / 60.
Proof.
  destruct t as [n d]. unfold Qdiv, Qmult, Qinv, Qfloor. cbn [Qnum Qden].
  rewrite Z.mul_1_r, Pos2Z.inj_mul, Z.div_div by lia. reflexivity.
Qed.

Lemma Qfloor_add_Z (t : Q) (z : Z) :
  Qfloor (t + inject_Z z) = Qfloor t + z.
Proof.
  destruct t as [n d]. unfold Qplus, inject_Z, Qfloor. cbn [Qnum Qden].
  rewrite Pos.mul_1_r, Z.mul_1_r, Z.div_add by lia. reflexivity.
Qed.

Lemma padStart_seconds (s : Z) :
  0 <= s < 60 -> padStart 2 "0" (pretty s) = twoDigits s.
Proof.
  intros Hs.
  assert (Hn : exists n, (n < 60)%nat /\ s = Z.of_nat n).
  { exists (Z.to_nat s). split; lia. }
  destruct Hn as (n & Hn & ->). clear Hs.
  do 60 (destruct n as [|n]; [vm_compute; reflexivity|]). lia.
Qed.

(** X19: for a time of t seconds, 0 <= t < 2^53, the clock shows the
    whole seconds floor(t) as minutes, a colon and the seconds modulo 60
    written with exactly two digits (padded with 0): the minutes are
    floor(t) / 60, not wrapped into hours.  A time that is NaN or not
    finite shows as 0:00. *)
Theorem formatTime_clock (t : Q) :
  (0 <= t)%Q -> (t < inject_Z (2 ^ 53))%Q ->
  let whole := Qfloor t in
  formatTime (Some t)
  = Some (pretty (whole / 60) +:+ ":" +:+ twoDigits (whole mod 60))
  /\ String.length (twoDigits (whole mod 60)) = 2%nat
  /\ 0 <= whole mod 60 < 60
  /\ 60 * (whole / 60) + whole mod 60 = whole
  /\ formatTime None = Some "0:00".
Proof.
  intros Ht Hbound. cbv zeta.
  assert (Hmod : 0 <= Qfloor t mod 60 < 60) by (apply Z.mod_pos_bound; lia).
  assert (Hwhole : 0 <= Qfloor t < 2 ^ 53).
  { split.
    - change 0 with (Qfloor (inject_Z 0)). by apply Qfloor_resp_le.
    - rewrite Zlt_Qlt. eapply Qle_lt_trans; [apply Qfloor_le|exact Hbound]. }
  split; [|split; [reflexivity|split; [exact Hmod|split; [|reflexivity]]]].
  - unfold formatTime. cbv zeta. rewrite Qfloor_div60.
    assert (Hsecs : Qfloor (remainder t 60) = Qfloor t mod 60).
    { unfold remainder, truncate.
      assert (Hq : Qle_bool 0 (t / 60) = true).
      { apply Qle_bool_iff. apply Qle_shift_div_l; lra. }
      rewrite Hq, Qfloor_div60.
      transitivity (Qfloor (t + inject_Z (- (60 * (Qfloor t / 60))))).
      - apply Qfloor_comp. rewrite inject_Z_opp, inject_Z_mult.
        change (inject_Z 60) with 60%Q. ring.
      - rewrite Qfloor_add_Z, Z.mod_eq by lia. lia. }
    rewrite Hsecs.
    assert (Hmins : 0 <= Qfloor t / 60 < 2 ^ 53).
    { split; [apply Z.div_pos; lia|].
      apply Z.div_lt_upper_bound; lia. }
    unfold numberToString.
    destruct (Z.ltb_spec (Z.abs (Qfloor t / 60)) (10 ^ 21)) as [_|Hbig];
      [|lia].
    destruct (Z.ltb_spec (Z.abs (Qfloor t mod 60)) (10 ^ 21)) as [_|Hbig];
      [|lia].
    by rewrite padStart_seconds by exact Hmod.
  - rewrite Z.mod_eq by lia. lia.
Qed.

End PlayerProperties.

(* ================================================================== *)
(** * Properties of the playback handlers on the program's numbers     *)
(* ================================================================== *)

Section PlaybackProperties.
Import Double Highlight Playback.

Lemma round_cases (x : Q) :
  (exists q, round x = Finite q) \/ round x = PosInfinity
  \/ round x = NegInfinity.
Proof.
  unfold round. destruct (Qnum (Qred x)); [left; by eexists| |].
  - destruct (roundPositive_cases (Qred x)) as [[-> _]|[-> _]];
      [right; by left|left; by eexists].
  - destruct (roundPositive_cases (- Qred x)) as [[-> _]|[-> _]];
      [right; by right|left; by eexists].
Qed.

Lemma round_zero : round 0 = Finite 0.
Proof. reflexivity. Qed.

Lemma round_one : round 1 = Finite 1.
Proof. apply (round_Z 1). lia. Qed.

(** Rounding keeps a value between two numbers of the program. *)
Lemma round_within (y lo hi lo' hi' : Q) :
  round lo = Finite lo' -> round hi = Finite hi' ->
  (lo <= y <= hi)%Q ->
  exists c, round y = Finite c /\ (lo' <= c <= hi')%Q.
Proof.
  intros Hlo Hhi [H1 H2].
  pose proof (round_monotone lo y H1) as M1.
  pose proof (round_monotone y hi H2) as M2.
  rewrite Hlo in M1. rewrite Hhi in M2.
  destruct (round y) as [c| | |]; try discriminate.
  exists c. split; [reflexivity|].
  split; by apply leq_Finite.
Qed.

Lemma div_positive (a : Number) (w : Q) :
  (0 < w)%Q ->
  div a (Finite w)
  = match a with
    | Finite x => round (x / w)
    | _ => a
    end.
Proof.
  intros Hw.
  assert (H0 : Qeq_bool w 0 = false) by (apply Qeq_bool_false; lra).
  assert (H1 : Qle_bool 0 w = true) by (apply Qle_bool_iff; lra).
  destruct a as [x| | |]; cbn; rewrite ?H0, ?H1; reflexivity.
Qed.

Lemma div_monotone (a b : Number) (w : Q) :
  (0 < w)%Q -> leq a b = true ->
  leq (div a (Finite w)) (div b (Finite w)) = true.
Proof.
  intros Hw Hab. rewrite !div_positive by exact Hw.
  destruct a as [x| | |], b as [y| | |]; try discriminate; try reflexivity.
  - apply round_monotone. apply leq_Finite in Hab.
    apply Qmult_le_compat_r; [exact Hab|].
    apply Qlt_le_weak, Qinv_lt_0_compat, Hw.
  - destruct (round_cases (x / w)) as [[q ->]|[->| ->]]; reflexivity.
  - destruct (round_cases (y / w)) as [[q ->]|[->| ->]]; reflexivity.
Qed.

(** [Math.min(Math.max(0, q), 1)]: the value within the unit interval
    that is nearest to [q]. *)
Lemma unit_clamp (q : Number) :
  q <> NaN ->
  exists f,
    Math_min (Math_max (ofZ 0) q) (ofZ 1) = Finite f
    /\ (0 <= f <= 1)%Q
    /\ (leq q (Finite 0) = true -> (f == 0)%Q)
    /\ (leq (Finite 1) q = true -> (f == 1)%Q).
Proof.
  intros Hq. rewrite (ofZ_exact 0), (ofZ_exact 1) by lia.
  change (inject_Z 0) with 0%Q. change (inject_Z 1) with 1%Q.
  destruct q as [x| | |]; [| | |done].
  - unfold Math_max, Math_min. cbn [isNaN orb leq].
    destruct (Qle_bool 0 x) eqn:H0.
    + apply Qle_bool_iff in H0. cbn [isNaN orb leq].
      destruct (Qle_bool x 1) eqn:H1.
      * apply Qle_bool_iff in H1. exists x.
        split; [reflexivity|]. split; [lra|].
        split; intros H; apply Qle_bool_iff in H; lra.
      * apply Qle_bool_false in H1. exists 1%Q.
        split; [reflexivity|]. split; [lra|].
        split; intros H; [apply Qle_bool_iff in H; lra|reflexivity].
    + apply Qle_bool_false in H0. exists 0%Q.
      split; [reflexivity|]. split; [lra|].
      split; intros H; [reflexivity|apply Qle_bool_iff in H; lra].
  - exists 1%Q. split; [reflexivity|]. split; [lra|].
    split; intros H; [discriminate|reflexivity].
  - exists 0%Q. split; [reflexivity|]. split; [lra|].
    split; intros H; [reflexivity|discriminate].
Qed.

Lemma unit_clamp_monotone (q q' : Number) (f f' : Q) :
  leq q q' = true ->
  Math_min (Math_max (ofZ 0) q) (ofZ 1) = Finite f ->
  Math_min (Math_max (ofZ 0) q') (ofZ 1) = Finite f' ->
  (f <= f')%Q.
Proof.
  intros Hle Hf Hf'.
  assert (Hq : q <> NaN) by (by destruct q).
  assert (Hq' : q' <> NaN) by (by destruct q, q').
  destruct (unit_clamp q Hq) as (g & Eg & Hg & Hlo & _).
  destruct (unit_clamp q' Hq') as (g' & Eg' & Hg' & _ & Hhi').
  rewrite Eg in Hf. rewrite Eg' in Hf'.
  injection Hf as <-. injection Hf' as <-.
  revert Eg Eg' Hlo Hhi'.
  rewrite (ofZ_exact 0), (ofZ_exact 1) by lia.
  change (inject_Z 0) with 0%Q. change (inject_Z 1) with 1%Q.
  destruct q as [x| | |], q' as [y| | |]; try discriminate;
    try (intros _ _ _ H; pose proof (H eq_refl); lra);
    try (intros _ _ H _; pose proof (H eq_refl); lra).
  apply leq_Finite in Hle. unfold Math_max, Math_min.
  cbn [isNaN orb leq].
  destruct (Qle_bool 0 x) eqn:Hx, (Qle_bool 0 y) eqn:Hy;
    cbn [isNaN orb leq];
    repeat match goal with
           | |- context [Qle_bool ?a ?b] =>
               let H := fresh "H" in destruct (Qle_bool a b) eqn:H
           end;
    repeat match goal with
           | H : Qle_bool _ _ = true |- _ => apply Qle_bool_iff in H
           | H : Qle_bool _ _ = false |- _ => apply Qle_bool_false in H
           end;
    intros [= <-] [= <-] _ _; lra.
Qed.

(** The clicked share of the bar before it is clamped. *)
Lemma seek_share (x l w : Q) :
  (0 < w)%Q ->
  let q := div (sub (Finite x) (Finite l)) (Finite w) in
  q <> NaN
  /\ ((x <= l)%Q -> leq q (Finite 0) = true)
  /\ (representable w -> (l + w <= x)%Q -> leq (Finite 1) q = true).
Proof.
  intros Hw. cbv zeta. cbn [sub].
  split; [|split].
  - rewrite div_positive by exact Hw.
    destruct (round_cases (x - l)) as [[c ->]|[->| ->]]; [|done|done].
    by destruct (round_cases (c / w)) as [[q ->]|[->| ->]].
  - intros Hx.
    assert (H0 : div (Finite 0) (Finite w) = Finite 0).
    { rewrite div_positive by exact Hw.
      rewrite (round_comp (0 / w) 0); [reflexivity|]. field. lra. }
    rewrite <- H0. apply div_monotone; [exact Hw|].
    rewrite <- round_zero. apply round_monotone. lra.
  - intros (r & Hr & Er) Hx.
    assert (H1 : div (Finite r) (Finite w) = Finite 1).
    { rewrite div_positive by exact Hw.
      rewrite (round_comp (r / w) 1); [apply round_one|].
      rewrite Er. field. lra. }
    rewrite <- H1. apply div_monotone; [exact Hw|].
    rewrite <- Hr. apply round_monotone. lra.
Qed.

Lemma seek_share_monotone (x x' l w : Q) :
  (0 < w)%Q -> (x <= x')%Q ->
  leq (div (sub (Finite x) (Finite l)) (Finite w))
      (div (sub (Finite x') (Finite l)) (Finite w)) = true.
Proof.
  intros Hw Hx. apply div_monotone; [exact Hw|].
  cbn [sub]. apply round_monotone. lra.
Qed.

(** What [handleSeek] stores for a clamped share [f] of a duration [d]. *)
Lemma seek_stores (f d : Q) :
  (0 <= f <= 1)%Q -> (0 < d)%Q -> representable d ->
  exists c p,
    mul (Finite f) (Finite d) = Finite c
    /\ mul (Finite f) (ofZ 100) = Finite p
    /\ (0 <= c <= d)%Q /\ (0 <= p <= 100)%Q
    /\ ((f == 0)%Q -> (c == 0)%Q /\ (p == 0)%Q)
    /\ ((f == 1)%Q -> (c == d)%Q /\ (p == 100)%Q).
Proof.
  intros Hf Hd (r & Hr & Er).
  destruct (round_within (f * d) 0 d 0 r round_zero Hr) as (c & Hc & Hcr);
    [nra|].
  destruct (round_between (f * 100) 0 100) as (p & Hp & Hpr);
    [lia|lia|change (inject_Z 0) with 0%Q;
             change (inject_Z 100) with 100%Q; lra|].
  change (inject_Z 0) with 0%Q in Hpr.
  change (inject_Z 100) with 100%Q in Hpr.
  exists c, p. rewrite mul_hundred. cbn [mul].
  split; [exact Hc|]. split; [exact Hp|]. split; [lra|]. split; [exact Hpr|].
  split; intros E.
  - rewrite (round_comp (f * d) 0) in Hc by (rewrite E; ring).
    rewrite (round_comp (f * 100) 0) in Hp by (rewrite E; ring).
    rewrite round_zero in Hc, Hp.
    injection Hc as <-. injection Hp as <-. split; reflexivity.
  - rewrite (round_comp (f * d) d) in Hc by (rewrite E; ring).
    rewrite (round_comp (f * 100) (inject_Z 100)) in Hp
      by (rewrite E; change (inject_Z 100) with 100%Q; ring).
    rewrite Hr in Hc. rewrite round_Z in Hp by lia.
    injection Hc as <-. injection Hp as <-. split; [exact Er|reflexivity].
Qed.

Lemma seek_stores_monotone (f f' d c c' p p' : Q) :
  (f <= f')%Q -> (0 < d)%Q ->
  mul (Finite f) (Finite d) = Finite c ->
  mul (Finite f') (Finite d) = Finite c' ->
  mul (Finite f) (ofZ 100) = Finite p ->
  mul (Finite f') (ofZ 100) = Finite p' ->
  (c <= c')%Q /\ (p <= p')%Q.
Proof.
  intros Hf Hd. rewrite !mul_hundred. cbn [mul]. intros Hc Hc' Hp Hp'.
  split; apply leq_Finite.
  - rewrite <- Hc, <- Hc'. apply round_monotone. nra.
  - rewrite <- Hp, <- Hp'. apply round_monotone. lra.
Qed.

Lemma falsy_positive (d : Q) : (0 < d)%Q -> falsy (Finite d) = false.
Proof.
  intros Hd. unfold falsy. cbn. apply Qeq_bool_false. lra.
Qed.

(** X15: a click on the progress bar of a loaded audio (positive duration,
    bar of positive width) sets the position of the audio and the progress
    from the clicked share of the bar, clamped to the bar: the position
    stays within the audio and the progress within 0..100; a click left of
    the bar gives position 0 and progress 0, a click right of it the
    duration and 100, and a click further right never gives less.  Nothing
    else changes.  Without an audio element, or while the duration is 0 or
    NaN, a click does nothing.  On a bar without width a click on its left
    edge divides 0 by 0: the audio element refuses the position, and the
    progress is not stored. *)
Theorem handleSeek_clamp (a : Audio) (st : State) (x l w d : Q) :
  (0 < w)%Q -> (0 < d)%Q -> representable d -> duration st = Finite d ->
  (exists c p,
     handleSeek (Some a) (Finite x) (Finite l) (Finite w) st
     = Some (Some {| currentTime := Finite c;
                     audio_duration := audio_duration a |},
             {| isPlaying := isPlaying st;
                progress := Finite p;
                duration := duration st |})
     /\ (0 <= c <= d)%Q
     /\ (0 <= p <= 100)%Q
     /\ ((x <= l)%Q -> (c == 0)%Q /\ (p == 0)%Q)
     /\ (representable w -> (l + w <= x)%Q -> (c == d)%Q /\ (p == 100)%Q)
     /\ (forall x' c' p',
           (x <= x')%Q ->
           handleSeek (Some a) (Finite x') (Finite l) (Finite w) st
           = Some (Some {| currentTime := Finite c';
                           audio_duration := audio_duration a |},
                   {| isPlaying := isPlaying st;
                      progress := Finite p';
                      duration := duration st |}) ->
           (c <= c')%Q /\ (p <= p')%Q))
  /\ (forall st0, falsy (duration st0) = true ->
        handleSeek (Some a) (Finite x) (Finite l) (Finite w) st0
        = Some (Some a, st0))
  /\ handleSeek None (Finite x) (Finite l) (Finite w) st = Some (None, st)
  /\ handleSeek (Some a) (Finite l) (Finite l) (Finite 0) st = None.
Proof.
  intros Hw Hd Hrep Hst.
  split; [|split; [|split; [reflexivity|]]].
  - destruct (seek_share x l w Hw) as (Hq & Hleft & Hright).
    cbv zeta in Hq, Hleft, Hright.
    destruct (unit_clamp _ Hq) as (f & Ef & Hf & Hlo & Hhi).
    destruct (seek_stores f d Hf Hd Hrep) as (c & p & Ec & Ep & Hc & Hp & H0 & H1).
    exists c, p.
    assert (Hrun : forall y g c1 p1,
               Math_min (Math_max (ofZ 0)
                           (div (sub (Finite y) (Finite l)) (Finite w)))
                        (ofZ 1) = Finite g ->
               mul (Finite g) (Finite d) = Finite c1 ->
               mul (Finite g) (ofZ 100) = Finite p1 ->
               handleSeek (Some a) (Finite y) (Finite l) (Finite w) st
               = Some (Some {| currentTime := Finite c1;
                               audio_duration := audio_duration a |},
                       {| isPlaying := isPlaying st;
                          progress := Finite p1;
                          duration := duration st |})).
    { intros y g c1 p1 Eg Ec1 Ep1. unfold handleSeek.
      rewrite Hst, (falsy_positive d Hd). cbv zeta.
      rewrite Eg, Ec1, Ep1. reflexivity. }
    split; [by apply (Hrun x f)|]. split; [exact Hc|]. split; [exact Hp|].
    split; [intros Hx; apply H0, Hlo, Hleft, Hx|].
    split; [intros Hrw Hx; apply H1, Hhi, Hright; [exact Hrw|exact Hx]|].
    intros x' c' p' Hx' Hseek.
    destruct (seek_share x' l w Hw) as (Hq' & _). cbv zeta in Hq'.
    destruct (unit_clamp _ Hq') as (f' & Ef' & Hf' & _).
    destruct (seek_stores f' d Hf' Hd Hrep) as (c1 & p1 & Ec1 & Ep1 & _).
    rewrite (Hrun x' f' c1 p1 Ef' Ec1 Ep1) in Hseek.
    injection Hseek as <- <-.
    apply (seek_stores_monotone f f' d); try done.
    apply (unit_clamp_monotone _ _ f f' (seek_share_monotone x x' l w Hw Hx'));
      done.
  - intros st0 H0. unfold handleSeek. by rewrite H0.
  - unfold handleSeek. rewrite Hst, (falsy_positive d Hd). cbv zeta.
    cbn [sub]. rewrite (round_comp (l - l) 0) by ring.
    reflexivity.
Qed.

Lemma handleTimeUpdate_positive (a : Audio) (st : State) (c t : Q) :
  currentTime a = Finite c -> audio_duration a = Finite t -> (0 < t)%Q ->
  handleTimeUpdate (Some a) st
  = {| isPlaying := if Qle_bool t c then false else isPlaying st;
       progress := progressOf (Finite c) (Finite t);
       duration := Finite t |}.
Proof.
  intros Hc Ht Hpos. unfold handleTimeUpdate. rewrite Hc, Ht. cbv zeta.
  rewrite (ofZ_exact 0) by lia. change (inject_Z 0) with 0%Q.
  assert (H0 : Qle_bool t 0 = false).
  { destruct (Qle_bool t 0) eqn:H; [|reflexivity].
    apply Qle_bool_iff in H. lra. }
  cbn [lt leq isNaN negb andb]. rewrite H0. cbn [negb andb].
  rewrite andb_true_r.
  by destruct (Qle_bool t c).
Qed.

(** X17: a time update without a usable duration (NaN, or not positive)
    changes nothing.  With a positive duration it stores the duration and
    the played share of it as a percentage, and stops the playing
    indicator exactly when the position has reached the duration.  For a
    position within the audio the stored progress is within 0..100 and a
    later position never stores less; at position 0 it is 0; at the end of
    the audio it is 100 and the current word index is N, one past the last
    word. *)
Theorem handleTimeUpdate_progress (a : Audio) (st : State) (N : nat) :
  let st' := handleTimeUpdate (Some a) st in
  handleTimeUpdate None st = st
  /\ (audio_duration a = NaN -> st' = st)
  /\ (forall t, audio_duration a = Finite t -> (t <= 0)%Q -> st' = st)
  /\ (forall c t,
        currentTime a = Finite c -> audio_duration a = Finite t ->
        (0 < t)%Q ->
        duration st' = Finite t
        /\ isPlaying st' = (if Qle_bool t c then false else isPlaying st)
        /\ ((0 <= c <= t)%Q ->
            exists p,
              progress st' = Finite p
              /\ (0 <= p <= 100)%Q
              /\ (forall c' p',
                    (c <= c' <= t)%Q ->
                    progress
                      (handleTimeUpdate
                         (Some {| currentTime := Finite c';
                                  audio_duration := Finite t |}) st)
                    = Finite p' ->
                    (p <= p')%Q)
              /\ ((c == 0)%Q -> (p == 0)%Q)
              /\ ((c == t)%Q ->
                  isPlaying st' = false
                  /\ (p == 100)%Q
                  /\ (Z.of_nat N <= 2 ^ 53 ->
                      currentWordIndex (progress st') N
                      = Finite (inject_Z (Z.of_nat N)))))).
Proof.
  cbv zeta. split; [reflexivity|]. split; [|split].
  - intros Hnan. unfold handleTimeUpdate. rewrite Hnan. cbv zeta.
    cbn [lt isNaN negb andb]. rewrite !andb_false_r.
    by destruct (ofZ 0).
  - intros t Ht Hle. unfold handleTimeUpdate. rewrite Ht. cbv zeta.
    rewrite (ofZ_exact 0) by lia. change (inject_Z 0) with 0%Q.
    assert (H0 : Qle_bool t 0 = true) by (by apply Qle_bool_iff).
    cbn [lt isNaN negb andb]. rewrite H0. cbn [negb andb].
    by rewrite andb_false_r.
  - intros c t Hc Ht Hpos.
    rewrite (handleTimeUpdate_positive a st c t Hc Ht Hpos).
    cbn [duration isPlaying progress].
    split; [reflexivity|]. split; [reflexivity|]. intros Hct.
    destruct (progressOf_steps c t Hpos Hct) as (f & p & _ & _ & Ep & _ & Hp).
    exists p. split; [exact Ep|]. split; [exact Hp|].
    split; [|split].
    + intros c' p' Hc'.
      rewrite (handleTimeUpdate_positive
                 {| currentTime := Finite c'; audio_duration := Finite t |}
                 st c' t eq_refl eq_refl Hpos).
      cbn [progress]. intros Ep'.
      apply (progressOf_monotone c c' t p p' Hpos); first [lra|done].
    + intros E. destruct (progressOf_ends t Hpos) as [H0 _].
      assert (E0 : progressOf (Finite c) (Finite t)
                   = progressOf (Finite 0) (Finite t)).
      { unfold progressOf. rewrite !div_positive by exact Hpos.
        f_equal. apply round_comp. by rewrite E. }
      rewrite E0, H0 in Ep. by injection Ep as <-.
    + intros E. destruct (progressOf_ends t Hpos) as [_ H1].
      assert (E1 : progressOf (Finite c) (Finite t)
                   = progressOf (Finite t) (Finite t)).
      { unfold progressOf. rewrite !div_positive by exact Hpos.
        f_equal. apply round_comp. by rewrite E. }
      rewrite E1, H1 in Ep. injection Ep as <-.
      split.
      * assert (Hle : Qle_bool t c = true) by (apply Qle_bool_iff; lra).
        by rewrite Hle.
      * split; [reflexivity|]. intros HN. rewrite E1, H1.
        by destruct (index_ends N HN) as [_ ->].
Qed.

End PlaybackProperties.

(* ================================================================== *)
(** * The classes of the words of the transcript view                  *)
(* ================================================================== *)

Section TranscriptClasses.
Import Double LessonPlayer Highlight.

Lemma imap_classes (g : nat -> WordClass) (start : nat) (ws : list string) :
  map snd (imap (fun wIdx word => (word, g (start + wIdx)%nat)) ws)
  = map (fun wIdx => g (start + wIdx)%nat) (seq 0 (length ws))
  /\ map fst (imap (fun wIdx word => (word, g (start + wIdx)%nat)) ws) = ws.
Proof.
  split.
  - apply list_eq. intros i.
    change (map snd ?l) with (snd <$> l).
    change (map ?f (seq 0 ?n)) with (f <$> seq 0 n).
    rewrite !list_lookup_fmap, list_lookup_imap.
    destruct (ws !! i) as [w|] eqn:Hw.
    + apply lookup_lt_Some in Hw as Hlt.
      rewrite (lookup_seq_lt 0 _ i Hlt). reflexivity.
    + apply lookup_ge_None in Hw.
      rewrite (lookup_seq_ge 0 _ i Hw). reflexivity.
  - apply list_eq. intros i.
    change (map fst ?l) with (fst <$> l).
    rewrite list_lookup_fmap, list_lookup_imap.
    by destruct (ws !! i).
Qed.

Lemma classes_indexes (T : Transcript) (progress : Number) :
  classes T progress
  = map (fun g => wordClass (currentWordIndex progress (totalWords T))
                    (ofNat g))
        (flat_map globalIndexes (paragraphs T))
  /\ map (map fst) (renderTranscript T progress) = map words (paragraphs T).
Proof.
  unfold classes, renderTranscript. cbv zeta.
  set (k := currentWordIndex progress (totalWords T)).
  induction (paragraphs T) as [|para ps [IH1 IH2]]; [done|].
  cbn [map concat flat_map]. rewrite !map_app, IH1, IH2.
  destruct (imap_classes (fun g => wordClass k (ofNat g)) (p_start para)
              (words para)) as [Hs Hf].
  rewrite Hs, Hf. unfold globalIndexes. by rewrite map_map.
Qed.

(** On integers the comparisons of the view are those of the integers. *)
Lemma wordClass_integers (k g : Z) :
  wordClass (Finite (inject_Z k)) (Finite (inject_Z g))
  = if g <? k then Read else if g =? k then Current else Upcoming.
Proof.
  unfold wordClass. cbv zeta. cbn [lt eqb].
  destruct (Z.ltb_spec g k) as [Hlt|Hge].
  - assert (H : Qle_bool (inject_Z k) (inject_Z g) = false); [|by rewrite H].
    destruct (Qle_bool (inject_Z k) (inject_Z g)) eqn:E; [|reflexivity].
    apply Qle_bool_iff in E. rewrite <- Zle_Qle in E. lia.
  - assert (H : Qle_bool (inject_Z k) (inject_Z g) = true).
    { apply Qle_bool_iff. rewrite <- Zle_Qle. lia. }
    rewrite H. cbn [negb].
    destruct (Z.eqb_spec g k) as [->|Hne].
    + assert (H' : Qeq_bool (inject_Z k) (inject_Z k) = true)
        by (by apply Qeq_bool_iff).
      by rewrite H'.
    + rewrite Qeq_bool_false; [reflexivity|].
      intros E. apply Hne. by apply inject_Z_injective.
Qed.

Lemma map_constant {A B} (f : A -> B) (b : B) (l : list A) :
  Forall (fun x => f x = b) l -> map f l = replicate (length l) b.
Proof.
  induction 1 as [|x l Hx _ IH]; [done|]. cbn. by rewrite Hx, IH.
Qed.

Lemma classes_seq (k N : nat) :
  Z.of_nat N <= 2 ^ 53 -> (k <= N)%nat ->
  map (fun g => wordClass (Finite (inject_Z (Z.of_nat k))) (ofNat g))
      (seq 0 N)
  = replicate k Read
    ++ (if (k <? N)%nat then Current :: replicate (N - k - 1) Upcoming
        else []).
Proof.
  intros HN Hk.
  assert (Hclass : forall g, (g < N)%nat ->
            wordClass (Finite (inject_Z (Z.of_nat k))) (ofNat g)
            = if Z.of_nat g <? Z.of_nat k then Read
              else if Z.of_nat g =? Z.of_nat k then Current else Upcoming).
  { intros g Hg. unfold ofNat. rewrite ofZ_exact by lia.
    apply wordClass_integers. }
  replace N with (k + (N - k))%nat at 1 by lia.
  rewrite seq_app, map_app. f_equal.
  - rewrite (map_constant _ Read).
    + by rewrite length_seq.
    + apply Forall_forall. intros i Hi. apply elem_of_seq in Hi.
      rewrite Hclass by lia.
      destruct (Z.ltb_spec (Z.of_nat i) (Z.of_nat k)); [done|lia].
  - cbn [Nat.add]. destruct (Nat.ltb_spec k N) as [Hlt|Hge].
    + remember (N - k - 1)%nat as m eqn:Hm.
      replace (N - k)%nat with (Datatypes.S m) by lia.
      cbn [seq map]. f_equal.
      * rewrite Hclass by lia. by rewrite Z.ltb_irrefl, Z.eqb_refl.
      * rewrite (map_constant _ Upcoming).
        -- by rewrite length_seq.
        -- apply Forall_forall. intros i Hi. apply elem_of_seq in Hi.
           rewrite Hclass by lia.
           destruct (Z.ltb_spec (Z.of_nat i) (Z.of_nat k)); [lia|].
           destruct (Z.eqb_spec (Z.of_nat i) (Z.of_nat k)); [lia|done].
    + replace (N - k)%nat with 0%nat by lia. done.
Qed.

(** X18: the transcript view shows the words of the paragraphs unchanged
    and, for a stored progress within 0..100 and a transcript of N < 2^53
    words, with k the current word index as binary64 arithmetic gives it,
    in reading order: the first k words as read, then (if k < N) one
    current word, then the remaining words as upcoming.  So the read words
    are always a prefix, at most one word is current, and at 100 percent
    every word is read and none is current. *)
Theorem transcript_classes (script : option string) (p : Q) :
  let T := transcriptData script in
  let N := totalWords T in
  Z.of_nat N <= 2 ^ 53 -> (0 <= p <= 100)%Q ->
  map (map fst) (renderTranscript T (Finite p)) = map words (paragraphs T)
  /\ (exists k : nat,
        currentWordIndex (Finite p) N = Finite (inject_Z (Z.of_nat k))
        /\ (k <= N)%nat
        /\ classes T (Finite p)
           = replicate k Read
             ++ (if (k <? N)%nat
                 then Current :: replicate (N - k - 1) Upcoming
                 else []))
  /\ classes T (Finite 100) = replicate N Read.
Proof.
  cbv zeta. intros HN Hp.
  set (T := transcriptData script) in *. set (N := totalWords T) in *.
  destruct (transcriptData_paragraphs script) as (Htotal & _ & _ & Hidx).
  cbv zeta in Htotal, Hidx. fold T in Htotal, Hidx.
  rewrite <- Htotal in Hidx. fold N in Hidx.
  split; [apply (classes_indexes T (Finite p))|].
  split.
  - destruct (index_range p N HN Hp) as (k & Hk & Hk0N).
    remember (Z.to_nat k) as n eqn:Hn.
    assert (Hkn : k = Z.of_nat n) by lia. subst k.
    exists n. split; [exact Hk|]. split; [lia|].
    rewrite (proj1 (classes_indexes T (Finite p))). fold N.
    rewrite Hk, Hidx.
    apply classes_seq; [exact HN|lia].
  - rewrite (proj1 (classes_indexes T (Finite 100))). fold N.
    rewrite (proj2 (index_ends N HN)), Hidx.
    rewrite classes_seq by (exact HN || lia).
    by rewrite Nat.ltb_irrefl, app_nil_r.
Qed.

Lemma transcript_classes_witness :
  classes (transcriptData (Some helloTranscript)) (Finite 50)
  = [Read; Read; Current; Upcoming]
  /\ classes (transcriptData (Some "one two three"))
       (progressOf (Finite 1) (Finite 3))
     = [Current; Upcoming; Upcoming]
  /\ classes (transcriptData (Some "a b c d e f g"))
       (progressOf (Finite 1) (Finite 7))
     = [Read; Current; Upcoming; Upcoming; Upcoming; Upcoming; Upcoming].
Proof.
  assert (Hp : (0 <= 50 <= 100)%Q) by (split; discriminate).
  assert (HN : Z.of_nat (totalWords (transcriptData (Some helloTranscript)))
               <= 2 ^ 53) by (vm_compute; discriminate).
  destruct (transcript_classes (Some helloTranscript) 50 HN Hp)
    as (_ & (k & Hk & _ & Hc) & _).
  split; [|split; vm_compute; reflexivity].
  rewrite Hc.
  assert (Hk2 : k = 2%nat).
  { assert (E : currentWordIndex (Finite 50)
                  (totalWords (transcriptData (Some helloTranscript)))
                = Finite (inject_Z 2)) by (vm_compute; reflexivity).
    rewrite E in Hk. injection Hk as Hk. lia. }
  rewrite Hk2. reflexivity.
Defined.

End TranscriptClasses.

Section PlayerRuns.
Import LessonPlayer Player.

Lemma player_progress_range_witness :
  let st := run [TimeUpdate loading; TimeUpdate halfway;
                 Seek halfway 250 100 200; TogglePlay] in
  (0 <= progress st <= 100)%Q
  /\ (0 <= duration st)%Q
  /\ ((0 < progress st)%Q -> (0 < duration st)%Q)
  /\ 0 <= currentWordIndex (progress st) 4 <= 4.
Proof.
  apply (player_progress_range
           [TimeUpdate loading; TimeUpdate halfway;
            Seek halfway 250 100 200; TogglePlay] 4).
  repeat constructor; cbn; lra.
Defined.

Lemma formatTime_clock_witness :
  formatTime (Some (1255 # 10)%Q) = Some "2:05"
  /\ formatTime (Some (7325 # 1)%Q) = Some "122:05".
Proof.
  assert (Ht : (0 <= 1255 # 10)%Q) by discriminate.
  assert (Hb : (1255 # 10 < inject_Z (2 ^ 53))%Q) by reflexivity.
  destruct (formatTime_clock (1255 # 10)%Q Ht Hb) as (Hf & _).
  assert (Ht' : (0 <= 7325 # 1)%Q) by discriminate.
  assert (Hb' : (7325 # 1 < inject_Z (2 ^ 53))%Q) by reflexivity.
  destruct (formatTime_clock (7325 # 1)%Q Ht' Hb') as (Hf' & _).
  split; [rewrite Hf|rewrite Hf']; reflexivity.
Defined.

End PlayerRuns.

(* ================================================================== *)
(** * Runs of the playback handlers                                    *)
(* ================================================================== *)

Section PlaybackRuns.
Import Double Highlight Playback.

Lemma representable_sixty : representable 60.
Proof. exists 60%Q. split; reflexivity. Qed.

Lemma representable_hundred : representable 100.
Proof. exists 100%Q. split; reflexivity. Qed.

Lemma handleSeek_clamp_witness :
  (exists c p,
     handleSeek (Some (audioAt 30 60)) (Finite 129) (Finite 100) (Finite 100)
       playingMinute
     = Some (Some (audioAt c 60),
             {| isPlaying := true; progress := Finite p;
                duration := Finite 60 |})
     /\ (0 <= c <= 60)%Q /\ (0 <= p <= 100)%Q)
  /\ handleSeek (Some (audioAt 30 60)) (Finite 129) (Finite 100) (Finite 100)
       playingMinute
     = Some (Some (audioAt (2448832297382707 # 140737488355328) 60),
             {| isPlaying := true;
                progress := Finite (8162774324609023 # 281474976710656);
                duration := Finite 60 |})
  /\ (exists c p,
        handleSeek (Some (audioAt 30 60)) (Finite 50) (Finite 100)
          (Finite 100) playingMinute
        = Some (Some (audioAt c 60),
                {| isPlaying := true; progress := Finite p;
                   duration := Finite 60 |})
        /\ (c == 0)%Q /\ (p == 0)%Q)
  /\ (exists c p,
        handleSeek (Some (audioAt 30 60)) (Finite 400) (Finite 100)
          (Finite 100) playingMinute
        = Some (Some (audioAt c 60),
                {| isPlaying := true; progress := Finite p;
                   duration := Finite 60 |})
        /\ (c == 60)%Q /\ (p == 100)%Q)
  /\ handleSeek (Some (audioAt 30 60)) (Finite 100) (Finite 100) (Finite 0)
       playingMinute = None.
Proof.
  assert (Hw : (0 < 100)%Q) by reflexivity.
  assert (Hd : (0 < 60)%Q) by reflexivity.
  pose proof (fun x =>
                handleSeek_clamp (audioAt 30 60) playingMinute x 100 100 60
                  Hw Hd representable_sixty eq_refl) as H.
  destruct (H 129%Q) as ((c & p & E & Hc & Hp & _) & _ & _ & Hzero).
  destruct (H 50%Q) as ((c0 & p0 & E0 & _ & _ & Hleft & _) & _).
  destruct (H 400%Q) as ((c1 & p1 & E1 & _ & _ & _ & Hright & _) & _).
  split; [exists c, p; split; [exact E|split; [exact Hc|exact Hp]]|].
  split; [vm_compute; reflexivity|].
  split; [exists c0, p0; split; [exact E0|apply Hleft; discriminate]|].
  split; [|exact Hzero].
  exists c1, p1. split; [exact E1|].
  apply Hright; [exact representable_hundred|discriminate].
Defined.

Lemma handleTimeUpdate_progress_witness :
  handleTimeUpdate (Some unloaded) playingMinute = playingMinute
  /\ handleTimeUpdate (Some (audioAt 29 100)) playingMinute
     = {| isPlaying := true;
          progress := Finite (8162774324609023 # 281474976710656);
          duration := Finite 100 |}
  /\ (exists p,
        progress (handleTimeUpdate (Some (audioAt 29 100)) playingMinute)
        = Finite p
        /\ (0 <= p <= 100)%Q)
  /\ handleTimeUpdate (Some (audioAt 60 60)) playingMinute
     = {| isPlaying := false; progress := Finite 100;
          duration := Finite 60 |}
  /\ currentWordIndex
       (progress (handleTimeUpdate (Some (audioAt 60 60)) playingMinute)) 4
     = Finite 4.
Proof.
  destruct (handleTimeUpdate_progress unloaded playingMinute 4)
    as (_ & Hnan & _).
  destruct (handleTimeUpdate_progress (audioAt 29 100) playingMinute 4)
    as (_ & _ & _ & Hmid).
  destruct (handleTimeUpdate_progress (audioAt 60 60) playingMinute 4)
    as (_ & _ & _ & Hend).
  assert (H100 : (0 < 100)%Q) by reflexivity.
  assert (H60 : (0 < 60)%Q) by reflexivity.
  destruct (Hmid 29%Q 100%Q eq_refl eq_refl H100) as (_ & _ & Hrange).
  destruct Hrange as (p & Ep & Hp & _); [split; discriminate|].
  destruct (Hend 60%Q 60%Q eq_refl eq_refl H60) as (_ & _ & Hlast).
  destruct Hlast as (q & Eq & _ & _ & _ & Hfull); [split; discriminate|].
  destruct (Hfull ltac:(reflexivity)) as (_ & _ & Hindex).
  split; [apply Hnan; reflexivity|]. split; [vm_compute; reflexivity|].
  split; [exists p; split; [exact Ep|exact Hp]|].
  split; [vm_compute; reflexivity|].
  apply Hindex. discriminate.
Defined.

End PlaybackRuns.

(* ================================================================== *)
(** * Properties of the outline search                                 *)
(* ================================================================== *)

Section OutlineSearch.
Import Course LessonPlayer CourseOutline.

Lemma nonempty_filter_existsb {A} (f : A -> bool) (l : list A) :
  (0 <? length (filter f l))%nat = existsb f l.
Proof.
  induction l as [|x l IH]; [reflexivity|].
  rewrite filter_cons. cbn [existsb].
  destruct (f x) eqn:Hx.
  - rewrite decide_True by (by apply Is_true_true). reflexivity.
  - rewrite decide_False by (by apply Is_true_false). exact IH.
Qed.

Lemma filter_bool_idemp {A} (f : A -> bool) (l : list A) :
  filter f (filter f l) = filter f l.
Proof.
  induction l as [|x l IH]; [reflexivity|].
  rewrite filter_cons. destruct (decide (f x)) as [Hx|Hx]; [|exact IH].
  rewrite filter_cons, decide_True by exact Hx. by rewrite IH.
Qed.

Lemma lowerCode_idemp (c : ascii) : lowerCode (lowerCode c) = lowerCode c.
Proof.
  destruct c as [[] [] [] [] [] [] [] []]; vm_compute; reflexivity.
Qed.

Lemma lowerCode_space (c : ascii) : Js.isSpace (lowerCode c) = Js.isSpace c.
Proof.
  destruct c as [[] [] [] [] [] [] [] []]; vm_compute; reflexivity.
Qed.

Lemma toLowerCase_idemp (s : string) :
  toLowerCase (toLowerCase s) = toLowerCase s.
Proof.
  unfold toLowerCase. rewrite chars_ofChars, map_map. f_equal.
  apply map_ext. intros c. apply lowerCode_idemp.
Qed.

Lemma toLowerCase_blank (s : string) :
  trimTruthy (toLowerCase s) = trimTruthy s.
Proof.
  unfold trimTruthy, toLowerCase. rewrite chars_ofChars.
  induction (Js.chars s) as [|c cs IH]; [reflexivity|].
  cbn [map existsb]. by rewrite lowerCode_space, IH.
Qed.

Lemma filteredChapters_flat (hit : Topic -> bool) (chs : list Chapter) :
  let shown :=
    filter (fun chapter => (0 <? length (topics chapter))%nat)
      (map (fun chapter =>
              {| ch_id := ch_id chapter; ch_title := ch_title chapter;
                 topics := filter hit (topics chapter) |}) chs) in
  allTopicsOf shown = filter hit (allTopicsOf chs)
  /\ map (fun ch => (ch_id ch, ch_title ch)) shown
     = map (fun ch => (ch_id ch, ch_title ch))
           (filter (fun ch => existsb hit (topics ch)) chs)
  /\ Forall (fun ch => topics ch <> []
                       /\ filter hit (topics ch) = topics ch) shown.
Proof.
  cbv zeta. unfold allTopicsOf.
  induction chs as [|ch chs (IH1 & IH2 & IH3)]; [by repeat split|].
  cbn [map flat_map]. rewrite filter_app, !filter_cons. cbn [topics].
  rewrite nonempty_filter_existsb.
  destruct (existsb hit (topics ch)) eqn:Hex.
  - rewrite !(decide_True (P:=Is_true true)) by exact I.
    cbn [map flat_map topics].
    rewrite IH1, IH2. split; [done|]. split; [done|].
    constructor; [|exact IH3]. cbn [topics].
    split; [|apply filter_bool_idemp].
    rewrite <- nonempty_filter_existsb in Hex.
    destruct (filter hit (topics ch)); [discriminate|done].
  - rewrite !(decide_False (P:=Is_true false)) by (intros []).
    rewrite <- nonempty_filter_existsb in Hex.
    destruct (filter hit (topics ch)); [|discriminate].
    by rewrite IH1, IH2.
Qed.

Lemma filteredChapters_fixed (hit : Topic -> bool) (chs : list Chapter) :
  Forall (fun ch => topics ch <> []
                    /\ filter hit (topics ch) = topics ch) chs ->
  filter (fun chapter => (0 <? length (topics chapter))%nat)
    (map (fun chapter =>
            {| ch_id := ch_id chapter; ch_title := ch_title chapter;
               topics := filter hit (topics chapter) |}) chs)
  = chs.
Proof.
  induction 1 as [|ch chs [Hne Hfix] _ IH]; [reflexivity|].
  cbn [map]. rewrite filter_cons. cbn [topics]. rewrite Hfix, IH.
  destruct ch as [i t ts]. cbn [topics ch_id ch_title] in *.
  destruct ts; [done|]. reflexivity.
Qed.

(** X20: with a blank query the outline shows all chapters.  Otherwise the
    topics shown, in order, are exactly the topics whose lower-cased title
    or description contains the lower-cased query (the query is not
    trimmed), unchanged; the chapters shown are exactly those with such a
    topic, with their identifier and title, so no chapter is shown empty
    and chapter titles are not searched.  The search does not depend on
    the letter case of the query, and searching the result again with the
    same query changes nothing. *)
Theorem filteredChapters_topics (chapters : list Chapter)
    (searchQuery : string) :
  let shown := filteredChapters chapters searchQuery in
  let hit := topicMatches (toLowerCase searchQuery) in
  (trimTruthy searchQuery = false -> shown = chapters)
  /\ (trimTruthy searchQuery = true ->
      allTopicsOf shown = filter hit (allTopicsOf chapters)
      /\ map (fun ch => (ch_id ch, ch_title ch)) shown
         = map (fun ch => (ch_id ch, ch_title ch))
               (filter (fun ch => existsb hit (topics ch)) chapters)
      /\ Forall (fun ch => topics ch <> []) shown)
  /\ filteredChapters chapters (toLowerCase searchQuery) = shown
  /\ filteredChapters shown searchQuery = shown.
Proof.
  cbv zeta. unfold filteredChapters.
  rewrite toLowerCase_blank, toLowerCase_idemp.
  set (hit := topicMatches (toLowerCase searchQuery)).
  destruct (filteredChapters_flat hit chapters) as (Hflat & Hids & Hne).
  cbv zeta in Hflat, Hids, Hne.
  destruct (trimTruthy searchQuery) eqn:Hq; cbn [negb].
  - split; [done|]. split.
    { intros _. split; [exact Hflat|]. split; [exact Hids|].
      eapply Forall_impl; [exact Hne|]. by intros ch [H _]. }
    split; [reflexivity|]. by apply filteredChapters_fixed.
  - split; [done|]. split; [done|]. split; reflexivity.
Qed.

Lemma filteredChapters_topics_witness :
  filteredChapters (chapters demoOutline) "   " = chapters demoOutline
  /\ map title
       (allTopicsOf
          (filteredChapters (chapters (Service.addIds twoChapters)) "FIRST"))
     = ["First steps"].
Proof.
  destruct (filteredChapters_topics (chapters demoOutline) "   ")
    as (Hblank & _).
  destruct (filteredChapters_topics
              (chapters (Service.addIds twoChapters)) "FIRST")
    as (_ & Hquery & _).
  cbv zeta in *.
  split; [by apply Hblank|].
  destruct (Hquery eq_refl) as (Htopics & _).
  rewrite Htopics. reflexivity.
Defined.

End OutlineSearch.

(* ================================================================== *)
(** * Properties of the feedback modal                                 *)
(* ================================================================== *)

Section FeedbackProperties.
Import Course Feedback.

Lemma star_range (star : Z) :
  existsb (Z.eqb star) stars = true -> 1 <= star <= 5.
Proof.
  unfold stars. cbn [existsb]. rewrite !orb_true_iff, !Z.eqb_eq. lia.
Qed.

Lemma step_feedback (st : Feedback.State) (e : Feedback.Event) :
  Forall validRating (feedbacks st) -> 0 <= m_rating (modal st) <= 5 ->
  let st' := step st e in
  Forall validRating (feedbacks st')
  /\ 0 <= m_rating (modal st') <= 5
  /\ (feedbacks st' = feedbacks st
      \/ exists clock topic,
           e = Submit clock /\ currentTopic st = Some topic
           /\ feedbackModalOpen st = true
           /\ feedbackModalOpen st' = false /\ modal st' = emptyModal
           /\ feedbacks st'
              = feedbacks st
                ++ [ {| fb_id := now clock; topicId := id topic;
                        topicTitle := title topic;
                        fb_type := feedbackType st;
                        rating := m_rating (modal st);
                        comment := m_comment (modal st);
                        createdAt := isoString clock |} ]).
Proof.
  intros Hfs Hm. cbv zeta.
  destruct e as [type|star|text|clock| |topic]; cbn [step].
  - cbn. auto.
  - destruct (feedbackModalOpen st); cbn [andb]; [|auto].
    destruct (existsb (Z.eqb star) stars) eqn:Hs; [|auto].
    apply star_range in Hs. cbn. split; [done|]. split; [lia|auto].
  - destruct (feedbackModalOpen st); cbn; auto.
  - destruct (feedbackModalOpen st) eqn:Hopen; cbn [andb]; [|auto].
    destruct (Z.eqb_spec (m_rating (modal st)) 0) as [H0|H0]; cbn [negb];
      [auto|].
    unfold handleSubmit, handleFeedbackSubmit.
    destruct (currentTopic st) as [topic|] eqn:Htopic.
    + cbn [feedbacks modal feedbackModalOpen m_rating emptyModal].
      split; [|split; [lia|]].
      * apply Forall_app. split; [done|].
        constructor; [|constructor]. unfold validRating. cbn. lia.
      * right. exists clock, topic. by repeat split.
    + cbn. split; [done|]. split; [lia|auto].
  - cbn. auto.
  - cbn. auto.
Qed.

(** X21: starting from recorded feedback with ratings 1 to 5 and a modal
    rating within 0..5, whatever the sequence of openings, star clicks,
    comment edits, submits, closings and topic changes: every recorded
    feedback has a rating from 1 to 5 (as the type documents), earlier
    feedback is kept in order at the front of the list, and at most one
    feedback is added per submit. *)
Theorem feedback_ratings (st : Feedback.State) (es : list Feedback.Event) :
  Forall validRating (feedbacks st) -> 0 <= m_rating (modal st) <= 5 ->
  let st' := run st es in
  Forall validRating (feedbacks st')
  /\ 0 <= m_rating (modal st') <= 5
  /\ feedbacks st `prefix_of` feedbacks st'
  /\ (length (feedbacks st') <= length (feedbacks st) + submits es)%nat.
Proof.
  cbv zeta. revert st. induction es as [|e es IH]; intros st Hfs Hm.
  - cbn. repeat split; try done; lia.
  - unfold run. cbn [fold_left].
    destruct (step_feedback st e Hfs Hm) as (Hfs' & Hm' & Hstep).
    cbv zeta in *.
    destruct (IH (step st e) Hfs' Hm') as (H1 & H2 & H3 & H4).
    unfold run in *.
    split; [exact H1|]. split; [exact H2|].
    unfold submits in *. rewrite filter_cons.
    destruct Hstep as [Hsame|(clock & topic & -> & _ & _ & _ & _ & Hadd)].
    + rewrite Hsame in *. split; [exact H3|].
      destruct (decide _); cbn [length]; lia.
    + rewrite Hadd in *. split.
      * etransitivity; [|exact H3]. by apply prefix_app_r.
      * rewrite decide_True by done. rewrite length_app in H4.
        cbn [length] in *. lia.
Qed.

Lemma feedback_ratings_witness :
  let es := [SetTopic (Some (demoTopic 0 false)); Open quiz; ClickStar 4;
             ClickStar 9; ChangeComment "Clear"; Submit noon; Submit noon] in
  Forall validRating (feedbacks (run feedbackStart es))
  /\ 0 <= m_rating (modal (run feedbackStart es)) <= 5
  /\ feedbacks feedbackStart `prefix_of` feedbacks (run feedbackStart es)
  /\ (length (feedbacks (run feedbackStart es))
      <= length (feedbacks feedbackStart) + submits es)%nat.
Proof.
  apply (feedback_ratings feedbackStart).
  - constructor.
  - simpl. lia.
Defined.

End FeedbackProperties.

(* ================================================================== *)
(** * Properties of saving and loading                                 *)
(* ================================================================== *)

Section StorageKeys.
Import Storage Persistence LoginScreen.

Lemma stateKey_inj (a b : string) : stateKey a = stateKey b -> a = b.
Proof. unfold stateKey. apply (inj (String.append STORAGE_KEY_PREFIX)). Qed.

Lemma feedbackKey_inj (a b : string) :
  feedbackKey a = feedbackKey b -> a = b.
Proof.
  unfold feedbackKey. apply (inj (String.append FEEDBACK_KEY_PREFIX)).
Qed.

Lemma stateKey_feedbackKey (a b : string) : stateKey a <> feedbackKey b.
Proof.
  unfold stateKey, feedbackKey, STORAGE_KEY_PREFIX, FEEDBACK_KEY_PREFIX.
  cbn. intros H. simplify_eq.
Qed.

Lemma stateKey_users (a : string) : stateKey a <> USERS_KEY.
Proof.
  unfold stateKey, STORAGE_KEY_PREFIX, USERS_KEY. cbn. intros H.
  simplify_eq.
Qed.

Lemma feedbackKey_users (a : string) : feedbackKey a <> USERS_KEY.
Proof.
  unfold feedbackKey, FEEDBACK_KEY_PREFIX, USERS_KEY. cbn. intros H.
  simplify_eq.
Qed.

Lemma setItem_spec (fits : Store -> string -> string -> bool)
    (key value : string) (store store' : Store) :
  setItem fits key value store = Some store' ->
  getItem key store' = Some value
  /\ forall k, k <> key -> getItem k store' = getItem k store.
Proof.
  unfold setItem, getItem. destruct (fits store key value); [|done].
  intros [= <-]. split; [apply lookup_insert_eq|].
  intros k Hk. by apply lookup_insert_ne.
Qed.

End StorageKeys.

Section PersistenceProperties.
Import Course Storage Persistence.
Variable fits : Store -> string -> string -> bool.
Variable stringifyState : Saved -> string.
Variable parseState : string -> Js.Error + Saved.
Variable stringifyFeedbacks : list Feedback.Feedback -> string.
Variable parseFeedbacks : string -> Js.Error + list Feedback.Feedback.

Let load := loadEffect parseState parseFeedbacks.
Let save := saveEffect fits stringifyState.
Let saveFeedback := saveFeedbackEffect fits stringifyFeedbacks.

Lemma truthy_nonempty (text : string) :
  text <> "" -> Js.truthy (Some text) = true.
Proof. by destruct text. Qed.

(** What the load effect makes of a readable state entry at login. *)
Lemma loadEffect_state (store : Store) (u : User) (st0 : Persistence.State)
    (text : string) (parsed : Saved) :
  getItem (stateKey (user_id u)) store = Some text -> text <> "" ->
  parseState text = inr parsed ->
  let st' := load store (loggingIn u st0) in
  let both :=
    match saved_courseStructure parsed with Some _ => true | None => false end
    && Js.truthy (saved_pdfBase64 parsed) in
  courseStructure st' = saved_courseStructure parsed
  /\ tutorProfile st' = default DEFAULT_TUTOR (saved_tutorProfile parsed)
  /\ pdfBase64 st' = (if both then saved_pdfBase64 parsed else None)
  /\ appState st' = (if both then App.DASHBOARD else App.UPLOAD).
Proof.
  intros Hget Hne Hparse. cbv zeta.
  unfold load, loadEffect, loggingIn, handleLogin, handleLogout.
  cbn [currentUser]. fold (stateKey (user_id u)).
  fold (feedbackKey (user_id u)).
  rewrite Hget, (truthy_nonempty text Hne).
  cbn [from_option Datatypes.id]. rewrite Hparse.
  set (fb := getItem (feedbackKey (user_id u)) store).
  assert (Hfb : forall st1 : Persistence.State,
            let r := if Js.truthy fb
                     then match parseFeedbacks (default "" fb) with
                          | inr p => setFeedbacks p st1
                          | inl _ => setFeedbacks [] st1
                          end
                     else setFeedbacks [] st1 in
            courseStructure r = courseStructure st1
            /\ tutorProfile r = tutorProfile st1
            /\ pdfBase64 r = pdfBase64 st1
            /\ appState r = appState st1).
  { intros st1. cbv zeta. destruct (Js.truthy fb); [|done].
    by destruct (parseFeedbacks _). }
  match goal with |- context [if Js.truthy fb then _ else setFeedbacks [] ?s]
    => destruct (Hfb s) as (-> & -> & -> & ->) end.
  destruct (saved_courseStructure parsed) as [cs|];
    destruct (Js.truthy (saved_pdfBase64 parsed)) eqn:Hpdf;
    destruct (saved_tutorProfile parsed); cbn; by rewrite ?Hpdf.
Qed.

(** X22: what the save effect writes for the logged-in user is what the
    load effect restores at that user's next login (after a logout),
    provided the written text parses back to the written object.  If the
    whole state fits the quota, outline and tutor come back, and the PDF
    and the dashboard exactly when outline and PDF were both there.  If
    only the state without the PDF fits, outline and tutor come back
    without the PDF, in the upload view.  If neither fits, the storage
    area is unchanged.  No other key of the storage area is ever written. *)
Theorem saved_state_restored (u : User) (st st0 : Persistence.State)
    (store : Store) :
  currentUser st = Some u ->
  (forall x, stringifyState x <> "") ->
  parseState (stringifyState (savedWhole st)) = inr (savedWhole st) ->
  parseState (stringifyState (savedWithoutPdf st))
  = inr (savedWithoutPdf st) ->
  let key := stateKey (user_id u) in
  let store' := save store st in
  let st' := load store' (loggingIn u st0) in
  (forall k, k <> key -> getItem k store' = getItem k store)
  /\ (fits store key (stringifyState (savedWhole st)) = true ->
      courseStructure st' = courseStructure st
      /\ tutorProfile st' = tutorProfile st
      /\ pdfBase64 st' = (if resumable st then pdfBase64 st else None)
      /\ appState st' = (if resumable st then App.DASHBOARD else App.UPLOAD))
  /\ (fits store key (stringifyState (savedWhole st)) = false ->
      fits store key (stringifyState (savedWithoutPdf st)) = true ->
      courseStructure st' = courseStructure st
      /\ tutorProfile st' = tutorProfile st
      /\ pdfBase64 st' = None
      /\ appState st' = App.UPLOAD)
  /\ (fits store key (stringifyState (savedWhole st)) = false ->
      fits store key (stringifyState (savedWithoutPdf st)) = false ->
      store' = store).
Proof.
  intros Hu Hne Hwhole Hstripped. cbv zeta.
  assert (Hsave : save store st
    = match setItem fits (stateKey (user_id u))
              (stringifyState (savedWhole st)) store with
      | Some store' => store'
      | None =>
          match setItem fits (stateKey (user_id u))
                  (stringifyState (savedWithoutPdf st)) store with
          | Some store' => store'
          | None => store
          end
      end).
  { unfold save, saveEffect. rewrite Hu. by rewrite orb_true_r. }
  rewrite Hsave. clear Hsave.
  destruct (setItem fits (stateKey (user_id u))
              (stringifyState (savedWhole st)) store) as [s1|] eqn:H1.
  - destruct (setItem_spec _ _ _ _ _ H1) as [Hget Hother].
    unfold setItem in H1.
    destruct (fits store (stateKey (user_id u))
                (stringifyState (savedWhole st))) eqn:Hfit; [|done].
    split; [exact Hother|]. split; [|split; intros; done].
    intros _.
    destruct (loadEffect_state s1 u st0 _ _ Hget (Hne _) Hwhole)
      as (Hc & Ht & Hp & Ha).
    cbv zeta in *. rewrite Hc, Ht, Hp, Ha. by cbn.
  - unfold setItem in H1.
    destruct (fits store (stateKey (user_id u))
                (stringifyState (savedWhole st))) eqn:Hfit; [done|].
    destruct (setItem fits (stateKey (user_id u))
                (stringifyState (savedWithoutPdf st)) store)
      as [s2|] eqn:H2.
    + destruct (setItem_spec _ _ _ _ _ H2) as [Hget Hother].
      unfold setItem in H2.
      destruct (fits store (stateKey (user_id u))
                  (stringifyState (savedWithoutPdf st))) eqn:Hfit2; [|done].
      split; [exact Hother|]. split; [intros; done|].
      split; [|intros; done]. intros _ _.
      destruct (loadEffect_state s2 u st0 _ _ Hget (Hne _) Hstripped)
        as (Hc & Ht & Hp & Ha).
      cbv zeta in *. rewrite Hc, Ht, Hp, Ha. cbn.
      by rewrite andb_false_r.
    + unfold setItem in H2.
      destruct (fits store (stateKey (user_id u))
                  (stringifyState (savedWithoutPdf st))) eqn:Hfit2; [done|].
      by repeat split.
Qed.

(** The load effect keeps the feedback entry apart from the state
    entry. *)
Lemma loadEffect_feedbacks (store : Store) (u : User)
    (st0 : Persistence.State) :
  feedbacks (load store (loggingIn u st0))
  = match getItem (feedbackKey (user_id u)) store with
    | Some text =>
        if Js.truthy (Some text) then
          match parseFeedbacks text with
          | inr parsed => parsed
          | inl _ => []
          end
        else []
    | None => []
    end.
Proof.
  unfold load, loadEffect, loggingIn, handleLogin, handleLogout.
  cbn [currentUser]. fold (feedbackKey (user_id u)).
  destruct (getItem (feedbackKey (user_id u)) store) as [text|];
    [|reflexivity].
  destruct (Js.truthy (Some text)); [|reflexivity].
  cbn [from_option Datatypes.id]. by destruct (parseFeedbacks text).
Qed.

(** X23: the feedback that the feedback effect writes for the logged-in
    user is the feedback that the load effect restores at that user's
    next login, provided the written text parses back to the written
    list; the effect writes no other key.  A feedback entry that is
    missing, empty or unreadable is loaded as no feedback at all, whatever
    the state entry holds. *)
Theorem saved_feedback_restored (u : User) (st st0 : Persistence.State)
    (store : Store) :
  (forall store',
     currentUser st = Some u ->
     stringifyFeedbacks (feedbacks st) <> "" ->
     parseFeedbacks (stringifyFeedbacks (feedbacks st))
     = inr (feedbacks st) ->
     saveFeedback store st = Some store' ->
     feedbacks (load store' (loggingIn u st0)) = feedbacks st
     /\ forall k, k <> feedbackKey (user_id u) ->
                  getItem k store' = getItem k store)
  /\ (getItem (feedbackKey (user_id u)) store = None ->
      feedbacks (load store (loggingIn u st0)) = [])
  /\ (getItem (feedbackKey (user_id u)) store = Some "" ->
      feedbacks (load store (loggingIn u st0)) = [])
  /\ (forall text err,
      getItem (feedbackKey (user_id u)) store = Some text ->
      parseFeedbacks text = inl err ->
      feedbacks (load store (loggingIn u st0)) = []).
Proof.
  split; [|split; [|split]].
  - intros store' Hu Hne Hparse Hsave.
    unfold saveFeedback, saveFeedbackEffect in Hsave. rewrite Hu in Hsave.
    fold (feedbackKey (user_id u)) in Hsave.
    destruct (setItem_spec _ _ _ _ _ Hsave) as [Hget Hother].
    split; [|exact Hother].
    by rewrite loadEffect_feedbacks, Hget, (truthy_nonempty _ Hne), Hparse.
  - intros Hget. by rewrite loadEffect_feedbacks, Hget.
  - intros Hget. by rewrite loadEffect_feedbacks, Hget.
  - intros text err Hget Hparse.
    rewrite loadEffect_feedbacks, Hget, Hparse.
    by destruct (Js.truthy (Some text)).
Qed.

(** Without a state entry the load effect starts afresh. *)
Lemma loadEffect_fresh (store : Store) (u : User) (st0 : Persistence.State) :
  getItem (stateKey (user_id u)) store = None ->
  getItem (feedbackKey (user_id u)) store = None ->
  load store (loggingIn u st0)
  = {| currentUser := Some u; appState := App.UPLOAD; pdfBase64 := None;
       courseStructure := None; currentTopic := None;
       isSidebarOpen := isSidebarOpen st0; uploadError := uploadError st0;
       tutorProfile := DEFAULT_TUTOR; feedbacks := [] |}.
Proof.
  intros Hs Hf.
  unfold load, loadEffect, loggingIn, handleLogin, handleLogout.
  cbn [currentUser]. fold (stateKey (user_id u)).
  fold (feedbackKey (user_id u)). by rewrite Hs, Hf.
Qed.

(** X24: a reset that is not confirmed changes nothing.  A confirmed
    reset clears outline, PDF, current topic, feedback and upload error and
    shows the upload view, keeping the user and the tutor; it removes the
    state and feedback entries of the logged-in user and leaves every
    other key as it was.  A login right after starts afresh with the
    default tutor; once the save effect has written the reset state, a
    login finds no outline but the tutor that was chosen. *)
Theorem handleReset_clears (u : User) (st st0 : Persistence.State)
    (store : Store) :
  currentUser st = Some u ->
  let r := handleReset true store st in
  let cleared :=
    {| currentUser := Some u; appState := App.UPLOAD; pdfBase64 := None;
       courseStructure := None; currentTopic := None;
       isSidebarOpen := false; uploadError := None;
       tutorProfile := tutorProfile st; feedbacks := [] |} in
  handleReset false store st = (store, st)
  /\ snd r = cleared
  /\ getItem (stateKey (user_id u)) (fst r) = None
  /\ getItem (feedbackKey (user_id u)) (fst r) = None
  /\ (forall k, k <> stateKey (user_id u) -> k <> feedbackKey (user_id u) ->
                getItem k (fst r) = getItem k store)
  /\ tutorProfile (load (fst r) (loggingIn u st0)) = DEFAULT_TUTOR
  /\ courseStructure (load (fst r) (loggingIn u st0)) = None
  /\ (stringifyState (savedWhole cleared) <> "" ->
      parseState (stringifyState (savedWhole cleared))
      = inr (savedWhole cleared) ->
      fits (fst r) (stateKey (user_id u)) (stringifyState (savedWhole cleared))
      = true ->
      let st' := load (save (fst r) (snd r)) (loggingIn u st0) in
      tutorProfile st' = tutorProfile st
      /\ courseStructure st' = None
      /\ pdfBase64 st' = None
      /\ appState st' = App.UPLOAD).
Proof.
  intros Hu. cbv zeta. unfold handleReset. rewrite Hu.
  cbn [fst snd]. fold (stateKey (user_id u)). fold (feedbackKey (user_id u)).
  set (store' := removeItem (feedbackKey (user_id u))
                   (removeItem (stateKey (user_id u)) store)).
  pose proof (stateKey_feedbackKey (user_id u) (user_id u)) as Hsf.
  assert (Hs : getItem (stateKey (user_id u)) store' = None).
  { unfold store', getItem, removeItem, Store.
    rewrite lookup_delete_ne by congruence. apply lookup_delete_eq. }
  assert (Hf : getItem (feedbackKey (user_id u)) store' = None).
  { unfold store', getItem, removeItem, Store. apply lookup_delete_eq. }
  split; [reflexivity|]. split; [reflexivity|].
  split; [exact Hs|]. split; [exact Hf|].
  split.
  { intros k Hk1 Hk2. unfold store', getItem, removeItem, Store.
    by rewrite !lookup_delete_ne by congruence. }
  rewrite (loadEffect_fresh store' u st0 Hs Hf). cbn [tutorProfile courseStructure].
  split; [reflexivity|]. split; [reflexivity|].
  intros Hne Hparse Hfit.
  set (cleared := {| currentUser := Some u; appState := App.UPLOAD;
                     pdfBase64 := None; courseStructure := None;
                     currentTopic := None; isSidebarOpen := false;
                     uploadError := None; tutorProfile := tutorProfile st;
                     feedbacks := [] |}) in *.
  assert (Hsave : save store' cleared
                  = <[stateKey (user_id u)
                      := stringifyState (savedWhole cleared)]> store').
  { unfold save, saveEffect. cbn [currentUser cleared orb].
    fold (stateKey (user_id u)). unfold setItem.
    change {| saved_courseStructure := courseStructure cleared;
              saved_pdfBase64 := pdfBase64 cleared;
              saved_tutorProfile := Some (tutorProfile cleared) |}
      with (savedWhole cleared).
    by rewrite Hfit. }
  rewrite Hsave.
  assert (Hget : getItem (stateKey (user_id u))
                   (<[stateKey (user_id u)
                      := stringifyState (savedWhole cleared)]> store')
                 = Some (stringifyState (savedWhole cleared))).
  { unfold getItem, Store. apply lookup_insert_eq. }
  destruct (loadEffect_state _ u st0 _ _ Hget Hne Hparse)
    as (Hc & Ht & Hp & Ha).
  cbv zeta in *. rewrite Hc, Ht, Hp, Ha. by cbn.
Qed.

End PersistenceProperties.

(* ================================================================== *)
(** * Properties of the user profiles                                  *)
(* ================================================================== *)

Section LoginProperties.
Import Course Storage Persistence LoginScreen LessonPlayer.
Variable fits : Store -> string -> string -> bool.
Variable stringifyUsers : list User -> string.
Variable parseState : string -> Js.Error + Saved.
Variable parseFeedbacks : string -> Js.Error + list Feedback.Feedback.

Let load := loadEffect parseState parseFeedbacks.
Let createUser := handleCreateUser fits stringifyUsers.
Let deleteUser := handleDeleteUser fits stringifyUsers.

Lemma trimStart_spec (cs : list ascii) :
  exists pre,
    cs = pre ++ trimStart cs
    /\ Forall (fun c => Js.isSpace c = true) pre
    /\ match trimStart cs with
       | [] => True
       | c :: _ => Js.isSpace c = false
       end.
Proof.
  induction cs as [|c cs (pre & Hcs & Hpre & Hhead)].
  - exists []. by repeat split.
  - cbn [trimStart]. destruct (Js.isSpace c) eqn:Hc.
    + exists (c :: pre). split; [by rewrite Hcs at 1|].
      split; [by constructor|exact Hhead].
    + exists []. by repeat split.
Qed.

Lemma trimStart_blank (cs : list ascii) :
  trimStart cs = [] <-> existsb (fun c => negb (Js.isSpace c)) cs = false.
Proof.
  induction cs as [|c cs IH]; [done|].
  cbn [trimStart existsb]. destruct (Js.isSpace c); cbn [negb orb]; [exact IH|].
  split; discriminate.
Qed.

Lemma existsb_rev {A} (f : A -> bool) (l : list A) :
  existsb f (rev l) = existsb f l.
Proof.
  induction l as [|x l IH]; [reflexivity|].
  cbn [rev existsb]. rewrite existsb_app, IH. cbn [existsb].
  rewrite orb_false_r. apply orb_comm.
Qed.

(** [s.trim()] is empty exactly when [s] has nothing but white space,
    and has no white space at its ends. *)
Lemma trim_spec (s : string) :
  (Js.truthy (Some (trim s)) = trimTruthy s)
  /\ trimmed (trim s).
Proof.
  unfold trim, trimmed, trimTruthy. rewrite chars_ofChars, rev_involutive.
  destruct (trimStart_spec (Js.chars s)) as (pre & Hcs & Hpre & Hhead).
  set (A := trimStart (Js.chars s)) in *.
  destruct (trimStart_spec (rev A)) as (pre' & HA & Hpre' & Hhead').
  set (B := trimStart (rev A)) in *.
  assert (Hblank : existsb (fun c => negb (Js.isSpace c)) (Js.chars s)
                   = existsb (fun c => negb (Js.isSpace c)) B).
  { assert (Hsp : forall l, Forall (fun c => Js.isSpace c = true) l ->
                    existsb (fun c => negb (Js.isSpace c)) l = false).
    { induction 1 as [|c l Hc _ IH]; [done|]. cbn. by rewrite Hc, IH. }
    rewrite Hcs, existsb_app, (Hsp pre Hpre). cbn [orb].
    rewrite <- (existsb_rev _ A), HA, existsb_app, (Hsp pre' Hpre'). done. }
  split.
  - rewrite Hblank.
    assert (Hstr : forall l, Js.truthy (Some (Js.ofChars l))
                             = match l with [] => false | _ => true end).
    { by intros [|c l]. }
    rewrite Hstr.
    destruct (rev B) as [|c l] eqn:HB.
    + apply (f_equal (@rev ascii)) in HB. rewrite rev_involutive in HB.
      by rewrite HB.
    + destruct B as [|b B']; [done|]. cbn [existsb].
      by rewrite Hhead'.
  - split; [|exact Hhead'].
    destruct B as [|b B'] eqn:HB; [done|].
    assert (HrA : A = rev (b :: B') ++ rev pre').
    { rewrite <- (rev_involutive A), HA, rev_app_distr. done. }
    destruct (rev (b :: B')) as [|c l] eqn:Hrev.
    + apply (f_equal (@rev ascii)) in Hrev. rewrite rev_involutive in Hrev.
      done.
    + rewrite HrA in Hhead. exact Hhead.
Qed.

(** X25: creating a profile with a name made of white space only does
    nothing.  Otherwise the new profile goes to the end of the list, with
    the name trimmed (not empty, no white space at either end), the chosen
    avatar and the clock's identifier; when the list can be stored it is
    written under the users key, no other key is touched, and the new
    profile is logged in.  When it cannot be stored, the storage area is
    unchanged and nobody is logged in. *)
Theorem handleCreateUser_profile (clock : Feedback.Clock) (store : Store)
    (st : LoginScreen.State) :
  let newUser :=
    {| user_id := Feedback.now clock; username := trim (newUsername st);
       avatar := selectedAvatar st;
       user_createdAt := Feedback.isoString clock |} in
  let updated := users st ++ [newUser] in
  (trimTruthy (newUsername st) = false ->
   createUser clock store st = (store, st, None))
  /\ (trimTruthy (newUsername st) = true ->
      username newUser <> "" /\ trimmed (username newUser)
      /\ users (snd (fst (createUser clock store st))) = updated
      /\ (fits store USERS_KEY (stringifyUsers updated) = true ->
          snd (createUser clock store st) = Some newUser
          /\ getItem USERS_KEY (fst (fst (createUser clock store st)))
             = Some (stringifyUsers updated)
          /\ forall k, k <> USERS_KEY ->
               getItem k (fst (fst (createUser clock store st)))
               = getItem k store)
      /\ (fits store USERS_KEY (stringifyUsers updated) = false ->
          snd (createUser clock store st) = None
          /\ fst (fst (createUser clock store st)) = store)).
Proof.
  cbv zeta. unfold createUser, handleCreateUser.
  destruct (trim_spec (newUsername st)) as [Htruthy Htrimmed].
  rewrite Htruthy.
  destruct (trimTruthy (newUsername st)) eqn:Hname; cbn [negb].
  - split; [done|]. intros _. cbn [username].
    split. { intros Hempty. rewrite Hempty in Htruthy. done. }
    split; [exact Htrimmed|].
    unfold setItem.
    destruct (fits store USERS_KEY _) eqn:Hfit; cbn [fst snd users setUsers].
    + split; [done|]. split; [|done]. intros _.
      split; [done|]. unfold getItem.
      split; [apply lookup_insert_eq|].
      intros k Hk. by apply lookup_insert_ne.
    + split; [done|]. split; [done|]. by intros _.
  - split; [done|]. done.
Qed.

Lemma filter_other_users (userId : string) (us : list User) :
  let kept := filter (fun u => negb (String.eqb (user_id u) userId)) us in
  Forall (fun u => user_id u <> userId) kept
  /\ (forall u, u ∈ us -> user_id u <> userId -> u ∈ kept)
  /\ kept `sublist_of` us.
Proof.
  cbv zeta. split; [|split].
  - apply Forall_forall. intros u Hu.
    apply list_elem_of_filter in Hu as [Hu _].
    destruct (String.eqb_spec (user_id u) userId); [done|done].
  - intros u Hu Hne. apply list_elem_of_filter. split; [|exact Hu].
    destruct (String.eqb_spec (user_id u) userId); [done|done].
  - apply sublist_filter.
Qed.

(** X26: deleting a profile (confirmed, and the shortened list can be
    stored) removes exactly the profiles with that identifier from the
    list, keeping the others in order, writes the list under the users
    key, and removes the state and feedback entries of that identifier;
    the entries of every other identifier and every other key are left as
    they were.  A later login under that identifier starts afresh: upload
    view, no outline, no PDF, the default tutor, no feedback.  If the
    deletion is not confirmed, nothing changes; if the list cannot be
    stored, the storage area is unchanged. *)
Theorem handleDeleteUser_isolated (userId : string) (store : Store)
    (st : LoginScreen.State) :
  let kept :=
    filter (fun u => negb (String.eqb (user_id u) userId)) (users st) in
  deleteUser false userId store st = (store, st)
  /\ users (snd (deleteUser true userId store st)) = kept
  /\ Forall (fun u => user_id u <> userId) kept
  /\ (forall u, u ∈ users st -> user_id u <> userId -> u ∈ kept)
  /\ kept `sublist_of` users st
  /\ (fits store USERS_KEY (stringifyUsers kept) = false ->
      fst (deleteUser true userId store st) = store)
  /\ (fits store USERS_KEY (stringifyUsers kept) = true ->
      let store' := fst (deleteUser true userId store st) in
      getItem USERS_KEY store' = Some (stringifyUsers kept)
      /\ getItem (stateKey userId) store' = None
      /\ getItem (feedbackKey userId) store' = None
      /\ (forall k, k <> USERS_KEY -> k <> stateKey userId ->
                    k <> feedbackKey userId ->
                    getItem k store' = getItem k store)
      /\ (forall other, other <> userId ->
            getItem (stateKey other) store' = getItem (stateKey other) store
            /\ getItem (feedbackKey other) store'
               = getItem (feedbackKey other) store)
      /\ (forall u st0, user_id u = userId ->
            load store' (loggingIn u st0)
            = {| currentUser := Some u; appState := App.UPLOAD;
                 pdfBase64 := None; courseStructure := None;
                 currentTopic := None;
                 isSidebarOpen := isSidebarOpen st0;
                 uploadError := uploadError st0;
                 tutorProfile := DEFAULT_TUTOR; feedbacks := [] |})).
Proof.
  cbv zeta.
  destruct (filter_other_users userId (users st)) as (Hall & Hkeep & Hsub).
  cbv zeta in *.
  set (kept := filter (fun u => negb (String.eqb (user_id u) userId))
                 (users st)) in *.
  split; [reflexivity|].
  unfold deleteUser, handleDeleteUser. fold kept. unfold setItem.
  destruct (fits store USERS_KEY (stringifyUsers kept)) eqn:Hfit;
    cbn [fst snd users setUsers].
  - split; [done|]. split; [exact Hall|]. split; [exact Hkeep|].
    split; [exact Hsub|]. split; [done|]. intros _.
    fold (stateKey userId). fold (feedbackKey userId).
    assert (Hget : forall k,
              getItem k (removeItem (feedbackKey userId)
                           (removeItem (stateKey userId)
                              (<[USERS_KEY := stringifyUsers kept]> store)))
              = if decide (k = feedbackKey userId) then None
                else if decide (k = stateKey userId) then None
                else if decide (k = USERS_KEY)
                     then Some (stringifyUsers kept)
                     else getItem k store).
    { intros k. unfold getItem, removeItem, Store.
      destruct (decide (k = feedbackKey userId)) as [->|Hk1];
        [apply lookup_delete_eq|].
      rewrite lookup_delete_ne by congruence.
      destruct (decide (k = stateKey userId)) as [->|Hk2];
        [apply lookup_delete_eq|].
      rewrite lookup_delete_ne by congruence.
      destruct (decide (k = USERS_KEY)) as [->|Hk3];
        [apply lookup_insert_eq|].
      rewrite lookup_insert_ne by congruence. done. }
    pose proof (stateKey_users userId) as Hsu.
    pose proof (feedbackKey_users userId) as Hfu.
    pose proof (stateKey_feedbackKey userId userId) as Hsf.
    assert (Hstate : getItem (stateKey userId)
              (removeItem (feedbackKey userId)
                 (removeItem (stateKey userId)
                    (<[USERS_KEY := stringifyUsers kept]> store))) = None).
    { rewrite Hget. rewrite decide_False by done. by rewrite decide_True. }
    assert (Hfeedback : getItem (feedbackKey userId)
              (removeItem (feedbackKey userId)
                 (removeItem (stateKey userId)
                    (<[USERS_KEY := stringifyUsers kept]> store))) = None).
    { rewrite Hget. by rewrite decide_True. }
    split.
    { rewrite Hget. rewrite decide_False by done.
      rewrite decide_False by done. by rewrite decide_True. }
    split; [exact Hstate|]. split; [exact Hfeedback|].
    split.
    { intros k Hk1 Hk2 Hk3. rewrite Hget.
      by rewrite !decide_False by done. }
    split.
    { intros other Hother. rewrite !Hget. split.
      - rewrite decide_False by apply stateKey_feedbackKey.
        rewrite decide_False
          by (intros H; apply Hother; by apply stateKey_inj).
        rewrite decide_False by apply stateKey_users. done.
      - rewrite decide_False
          by (intros H; apply Hother; by apply feedbackKey_inj).
        rewrite decide_False
          by (intros H; symmetry in H; by apply stateKey_feedbackKey in H).
        rewrite decide_False by apply feedbackKey_users. done. }
    intros u st0 Hu. subst userId.
    by apply loadEffect_fresh.
  - split; [done|]. split; [exact Hall|]. split; [exact Hkeep|].
    split; [exact Hsub|]. split; [done|]. done.
Qed.

End LoginProperties.

Section PersistenceRuns.
Import Course Storage Persistence LoginScreen.

Lemma saved_state_restored_witness :
  let back :=
    loadEffect readSample (fun _ => inr [])
      (saveEffect roomy writeSample ∅ studying) (loggingIn ada studying) in
  let backTight :=
    loadEffect readSample (fun _ => inr [])
      (saveEffect tight writeSample ∅ studying) (loggingIn ada studying) in
  (courseStructure back = Some demoOutline
   /\ pdfBase64 back = Some "JVBERi0x"
   /\ appState back = App.DASHBOARD)
  /\ (courseStructure backTight = Some demoOutline
      /\ pdfBase64 backTight = None
      /\ appState backTight = App.UPLOAD).
Proof.
  assert (Hne : forall x, writeSample x <> "").
  { intros x. unfold writeSample. by destruct (saved_pdfBase64 x). }
  destruct (saved_state_restored roomy writeSample readSample
              (fun _ => inr []) ada studying studying ∅
              eq_refl Hne eq_refl eq_refl)
    as (_ & Hwhole & _).
  destruct (saved_state_restored tight writeSample readSample
              (fun _ => inr []) ada studying studying ∅
              eq_refl Hne eq_refl eq_refl)
    as (_ & _ & Hstripped & _).
  cbv zeta in *.
  destruct (Hwhole eq_refl) as (Hc & _ & Hp & Ha).
  destruct (Hstripped eq_refl eq_refl) as (Hc' & _ & Hp' & Ha').
  split; [split; [exact Hc|split; [exact Hp|exact Ha]]|].
  split; [exact Hc'|split; [exact Hp'|exact Ha']].
Defined.

Lemma saved_feedback_restored_witness :
  let written : Store := <[feedbackKey (user_id ada) := "feedbacks:1"]> ∅ in
  let garbled : Store := <[feedbackKey (user_id ada) := "feedbacks:"]> ∅ in
  saveFeedbackEffect roomy writeFeedbacks ∅ rated = Some written
  /\ feedbacks (loadEffect readSample readFeedbacks written
                  (loggingIn ada studying))
     = [praise]
  /\ feedbacks (loadEffect readSample readFeedbacks garbled
                  (loggingIn ada rated))
     = []
  /\ feedbacks (loadEffect readSample readFeedbacks ∅ (loggingIn ada rated))
     = [].
Proof.
  cbv zeta.
  destruct (saved_feedback_restored roomy readSample writeFeedbacks
              readFeedbacks ada rated studying ∅)
    as (Hback & _).
  destruct (saved_feedback_restored roomy readSample writeFeedbacks
              readFeedbacks ada rated rated
              (<[feedbackKey (user_id ada) := "feedbacks:"]> ∅))
    as (_ & _ & _ & Hgarbled).
  destruct (saved_feedback_restored roomy readSample writeFeedbacks
              readFeedbacks ada rated rated ∅)
    as (_ & Hmissing & _).
  split; [reflexivity|].
  split.
  { destruct (Hback (<[feedbackKey (user_id ada) := "feedbacks:1"]> ∅)
                eq_refl) as (Hf & _);
      [discriminate|reflexivity|reflexivity|exact Hf]. }
  split.
  { apply (Hgarbled "feedbacks:" (Js.newError "Unexpected token"));
      reflexivity. }
  apply Hmissing. reflexivity.
Defined.

Lemma handleCreateUser_profile_witness :
  let st := {| users := [bob]; isCreating := true;
               newUsername := "  Ada "; selectedAvatar := "A" |} in
  snd (handleCreateUser roomy writeUsers noon ∅ st)
  = Some {| user_id := "1700000000000"; username := "Ada"; avatar := "A";
            user_createdAt := "2023-11-14T22:13:20.000Z" |}
  /\ handleCreateUser roomy writeUsers noon ∅
       {| users := [bob]; isCreating := true;
          newUsername := "   "; selectedAvatar := "A" |}
     = (∅, {| users := [bob]; isCreating := true;
              newUsername := "   "; selectedAvatar := "A" |}, None).
Proof.
  cbv zeta.
  destruct (handleCreateUser_profile roomy writeUsers noon ∅
              {| users := [bob]; isCreating := true;
                 newUsername := "  Ada "; selectedAvatar := "A" |})
    as (_ & Hnamed).
  destruct (handleCreateUser_profile roomy writeUsers noon ∅
              {| users := [bob]; isCreating := true;
                 newUsername := "   "; selectedAvatar := "A" |})
    as (Hblank & _).
  cbv zeta in *.
  destruct (Hnamed eq_refl) as (_ & _ & _ & Hstored & _).
  destruct (Hstored eq_refl) as (Hlogin & _).
  split; [exact Hlogin|]. by apply Hblank.
Defined.

Lemma handleDeleteUser_isolated_witness :
  let st := {| users := [ada; bob]; isCreating := false;
               newUsername := ""; selectedAvatar := "A" |} in
  let store : Store :=
    <[stateKey (user_id ada) := "with-pdf"]>
      (<[stateKey (user_id bob) := "no-pdf"]> ∅) in
  let store' :=
    fst (handleDeleteUser roomy writeUsers true (user_id ada) store st) in
  users (snd (handleDeleteUser roomy writeUsers true (user_id ada) store st))
  = [bob]
  /\ getItem (stateKey (user_id ada)) store' = None
  /\ getItem (stateKey (user_id bob)) store'
     = getItem (stateKey (user_id bob)) store.
Proof.
  cbv zeta.
  destruct (handleDeleteUser_isolated roomy writeUsers readSample
              (fun _ => inr []) (user_id ada)
              (<[stateKey (user_id ada) := "with-pdf"]>
                 (<[stateKey (user_id bob) := "no-pdf"]> ∅))
              {| users := [ada; bob]; isCreating := false;
                 newUsername := ""; selectedAvatar := "A" |})
    as (_ & Husers & _ & _ & _ & _ & Hstored).
  cbv zeta in *.
  destruct (Hstored eq_refl) as (_ & Hgone & _ & _ & Hothers & _).
  split; [exact Husers|]. split; [exact Hgone|].
  apply (Hothers (user_id bob)). discriminate.
Defined.

Lemma handleReset_clears_witness :
  let store : Store := <[stateKey (user_id ada) := "with-pdf"]> ∅ in
  let r := handleReset true store studying in
  courseStructure (snd r) = None
  /\ getItem (stateKey (user_id ada)) (fst r) = None
  /\ tutorProfile
       (loadEffect
          (fun _ => inr {| saved_courseStructure := None;
                           saved_pdfBase64 := None;
                           saved_tutorProfile := Some DEFAULT_TUTOR |})
          (fun _ => inr [])
          (saveEffect roomy writeSample (fst r) (snd r))
          (loggingIn ada studying))
     = DEFAULT_TUTOR.
Proof.
  cbv zeta.
  destruct (handleReset_clears roomy writeSample
              (fun _ => inr {| saved_courseStructure := None;
                               saved_pdfBase64 := None;
                               saved_tutorProfile := Some DEFAULT_TUTOR |})
              (fun _ => inr []) ada studying studying
              (<[stateKey (user_id ada) := "with-pdf"]> ∅) eq_refl)
    as (_ & Hst & Hgone & _ & _ & _ & _ & Hsaved).
  cbv zeta in *.
  split; [by rewrite Hst|]. split; [exact Hgone|].
  destruct Hsaved as (Ht & _); [discriminate|reflexivity|reflexivity|].
  exact Ht.
Defined.

End PersistenceRuns.
